(** * BD2 mod packer: a shallow embedding of the planning core

    The development follows the Python sources module by module:
    - [Py]       the string and integer primitives of the interpreter the
                 sources rely on ([str.strip], [str.lower], [in], [int], ...);
    - [Scraper]  [api/character_scraper.py]: table reconstruction and the
                 fuzzy (character, costume) lookup;
    - [Cdn]      [api/cdn_api.py]: catalog resolution;
    - [Store]    [core/resource_manager.py]: the persisted state document;
    - [Manager]  [core/resource_manager.py]: change detection and planning;
    - [Unity]    [core/unity_processor.py]: multi-directory patching.

    Text is modelled by [string]; a character stands for a code point below
    256, and the character classes below are Python's on that range. *)

From Stdlib Require Import ZArith QArith Qabs Ascii DecimalString.
From stdpp Require Import gmap strings list fin_maps.

Local Open Scope Z_scope.

(** Outcome of a call that may raise. *)
Inductive exn := ValueError | LookupError | TypeError | KeyError | ApiError.

Inductive result (A : Type) :=
  | Ok (a : A)
  | Raise (e : exn).
Arguments Ok {A} a.
Arguments Raise {A} e.

Global Instance result_ret : MRet result := fun _ a => Ok a.

Global Instance result_bind : MBind result := fun _ _ k r =>
  match r with
  | Ok a => k a
  | Raise e => Raise e
  end.

(** Values that are either an [int] or a [str] at run time. *)
Inductive pyval :=
  | PyInt (z : Z)
  | PyStr (s : string).

Global Instance pyval_eq_dec : EqDecision pyval.
Proof. solve_decision. Defined.

(* ================================================================== *)
(** ** Interpreter primitives *)

Module Py.

Definition code (c : ascii) : N := N_of_ascii c.

(** [str.isspace] on one code point; also the class [\s] of [re]. *)
Definition is_space (c : ascii) : bool :=
  let n := code c in
  ((9 <=? n) && (n <=? 13) || (28 <=? n) && (n <=? 32)
   || (n =? 133) || (n =? 160))%N.

(** [str.isdigit] restricted to the class [\d]. *)
Definition is_digit (c : ascii) : bool :=
  let n := code c in ((48 <=? n) && (n <=? 57))%N.

Definition digit_val (c : ascii) : Z := Z.of_N (code c) - 48.

Definition lower_char (c : ascii) : ascii :=
  let n := code c in
  if ((65 <=? n) && (n <=? 90)
      || (192 <=? n) && (n <=? 222) && negb (n =? 215))%N
  then ascii_of_N (n + 32) else c.

Fixpoint lower (s : string) : string :=
  match s with
  | EmptyString => EmptyString
  | String c s' => String (lower_char c) (lower s')
  end.

Fixpoint upper_ascii_only (s : string) : string :=
  match s with
  | EmptyString => EmptyString
  | String c s' =>
      let n := code c in
      String (if ((97 <=? n) && (n <=? 122))%N then ascii_of_N (n - 32) else c)
             (upper_ascii_only s')
  end.

Definition is_empty (s : string) : bool :=
  match s with EmptyString => true | _ => false end.

(** Truth value of a [str]. *)
Definition truthy (s : string) : bool := negb (is_empty s).

Fixpoint lstrip (s : string) : string :=
  match s with
  | EmptyString => EmptyString
  | String c s' => if is_space c then lstrip s' else s
  end.

Fixpoint rstrip (s : string) : string :=
  match s with
  | EmptyString => EmptyString
  | String c s' =>
      let r := rstrip s' in
      if is_space c && is_empty r then EmptyString else String c r
  end.

Definition strip (s : string) : string := rstrip (lstrip s).

(** [re.sub(r"\s+", " ", s)]: [in_ws] records that the run being read has
    already been replaced. *)
Fixpoint collapse_ws (in_ws : bool) (s : string) : string :=
  match s with
  | EmptyString => EmptyString
  | String c s' =>
      if is_space c
      then (if in_ws then collapse_ws true s'
            else String " "%char (collapse_ws true s'))
      else String c (collapse_ws false s')
  end.

(** [a.startswith(b)]. *)
Definition startswith (a b : string) : bool := String.prefix b a.

(** [needle in hay]. *)
Fixpoint contains (needle hay : string) : bool :=
  String.prefix needle hay ||
  match hay with
  | EmptyString => false
  | String _ hay' => contains needle hay'
  end.

(** [s.endswith(suffix)]. *)
Fixpoint endswith (s suffix : string) : bool :=
  String.eqb s suffix ||
  match s with
  | EmptyString => false
  | String _ s' => endswith s' suffix
  end.

(** [s.replace(old, new)] for a non-empty [old]: left to right, without
    overlap. [skip] counts the characters of a match still to be dropped. *)
Fixpoint replace_go (old new : string) (skip : nat) (s : string) : string :=
  match s with
  | EmptyString => EmptyString
  | String c s' =>
      match skip with
      | S k => replace_go old new k s'
      | O =>
          if String.prefix old s
          then new +:+ replace_go old new (String.length old - 1) s'
          else String c (replace_go old new O s')
      end
  end.

Definition replace (old new s : string) : string := replace_go old new O s.

(** Digits of an [int] literal: single underscores may separate digits. *)
Fixpoint int_digits (acc : Z) (after_digit : bool) (s : string) : option Z :=
  match s with
  | EmptyString => if after_digit then Some acc else None
  | String c s' =>
      if is_digit c then int_digits (10 * acc + digit_val c) true s'
      else if Ascii.eqb c "_"%char && after_digit then int_digits acc false s'
      else None
  end.

(** [int(s)] on a [str]; [None] is [ValueError]. *)
Definition int (s : string) : option Z :=
  match strip s with
  | String "+"%char r => int_digits 0 false r
  | String "-"%char r => Z.opp <$> int_digits 0 false r
  | t => int_digits 0 false t
  end.

(** [str(z)] on an [int]. *)
Definition str_of_int (z : Z) : string := NilZero.string_of_int (Z.to_int z).

(** [f"{v}"]. *)
Definition format (v : pyval) : string :=
  match v with
  | PyInt z => str_of_int z
  | PyStr s => s
  end.

(** Truth value of an identifier. *)
Definition truthy_val (v : pyval) : bool :=
  match v with
  | PyInt z => negb (z =? 0)
  | PyStr s => truthy s
  end.

(** [dict.get] on an attribute list. *)
Fixpoint assoc {V} (k : string) (l : list (string * V)) : option V :=
  match l with
  | [] => None
  | (k', v) :: l' => if String.eqb k k' then Some v else assoc k l'
  end.

End Py.


(* ================================================================== *)
(** ** api/character_scraper.py *)

Module Scraper.

(** A [td] or [th] element as the scraper reads it: its attributes, its own
    text ([get_text(" ", strip=True)]) and, by tag name and in document
    order, the texts of the elements nested in it. *)
Record Cell := {
  attrs : list (string * string);
  text : string;
  inner : list (string * string)
}.

(** A [table] element: the [tr] rows of its [tbody], when it has one. *)
Definition Table : Type := option (list (list Cell)).

(** [cell.get(name)]. *)
Definition cell_get (name : string) (cell : Cell) : option string :=
  Py.assoc name (attrs cell).

Definition _norm (s : string) : string :=
  Py.lower (Py.strip (Py.collapse_ws false s)).

Fixpoint all_digits (s : string) : bool :=
  match s with
  | EmptyString => true
  | String c s' => Py.is_digit c && all_digits s'
  end.

(** [re.fullmatch(r"[+-]?\d+", t)] as a truth value. *)
Definition fullmatch_signed_digits (t : string) : bool :=
  match t with
  | EmptyString => false
  | String c r =>
      if Ascii.eqb c "+"%char || Ascii.eqb c "-"%char
      then negb (Py.is_empty r) && all_digits r
      else all_digits t
  end.

Definition _maybe_to_int (s : string) : pyval :=
  let t := Py.strip s in
  if fullmatch_signed_digits t then
    match Py.int t with
    | Some z => PyInt z
    | None => PyStr t
    end
  else PyStr t.

(** "An optionally signed run of decimal digits", as a predicate on text. *)
Definition decimal_digit (c : ascii) : Prop :=
  c ∈ ["0"; "1"; "2"; "3"; "4"; "5"; "6"; "7"; "8"; "9"]%char.

Definition digit_run (s : string) : Prop :=
  s ≠ EmptyString ∧ ∀ c, c ∈ String.list_ascii_of_string s → decimal_digit c.

Definition signed_digit_run (t : string) : Prop :=
  ∃ sign ds, t = sign +:+ ds ∧ (sign = "" ∨ sign = "+" ∨ sign = "-") ∧ digit_run ds.

Record CharacterData := {
  character : string;
  costume : string;
  idle : string;
  cutscene : string;
  char_id : string
}.

Global Instance CharacterData_eq_dec : EqDecision CharacterData.
Proof. solve_decision. Defined.

Fixpoint first_attr (names : list string) (cell : Cell) : option string :=
  match names with
  | [] => None
  | a :: rest =>
      match cell_get a cell with
      | Some v => if Py.truthy v then Some v else first_attr rest cell
      | None => first_attr rest cell
      end
  end.

Fixpoint nested_text (tags : list string) (cell : Cell) : string :=
  match tags with
  | [] => EmptyString
  | t :: rest =>
      match Py.assoc t (inner cell) with
      | Some tx => if Py.truthy tx then tx else nested_text rest cell
      | None => nested_text rest cell
      end
  end.

Definition _cell_text (cell : Cell) : string :=
  match first_attr ["data-value"; "data-id"; "title"; "aria-label"] cell with
  | Some v => v
  | None =>
      if Py.truthy (text cell) then text cell
      else nested_text ["code"; "span"; "div"] cell
  end.

(** State of the column loop of one row. *)
Record row_state := {
  row_data : list string;
  cell_index : nat;
  rowspan_tracker : gmap nat (Z * string)
}.

(** Body of [for col_index in range(20)], up to the length test. *)
Definition col_step (cells : list Cell) (col_index : nat) (st : row_state)
  : result row_state :=
  match rowspan_tracker st !! col_index with
  | Some (remaining, value) =>
      Ok {| row_data := row_data st ++ [value];
            cell_index := cell_index st;
            rowspan_tracker :=
              if remaining >? 1
              then <[col_index := (remaining - 1, value)]> (rowspan_tracker st)
              else delete col_index (rowspan_tracker st) |}
  | None =>
      match cells !! cell_index st with
      | Some cell =>
          let value := _cell_text cell in
          tr ← match cell_get "rowspan" cell with
               | Some rowspan =>
                   if Py.truthy rowspan then
                     match Py.int rowspan with
                     | Some n =>
                         Ok (if n >? 1
                             then <[col_index := (n - 1, value)]> (rowspan_tracker st)
                             else rowspan_tracker st)
                     | None => Raise ValueError
                     end
                   else Ok (rowspan_tracker st)
               | None => Ok (rowspan_tracker st)
               end;
          Ok {| row_data := row_data st ++ [value];
                cell_index := S (cell_index st);
                rowspan_tracker := tr |}
      | None =>
          Ok {| row_data := row_data st ++ [EmptyString];
                cell_index := cell_index st;
                rowspan_tracker := rowspan_tracker st |}
      end
  end.

(** The column loop over the given column indices, with its [break]. *)
Fixpoint row_loop (cells : list Cell) (cols : list nat) (st : row_state)
  : result row_state :=
  match cols with
  | [] => Ok st
  | col_index :: rest =>
      st' ← col_step cells col_index st;
      if (10 <=? length (row_data st'))%nat then Ok st'
      else row_loop cells rest st'
  end.

Definition row_start (tracker : gmap nat (Z * string)) : row_state :=
  {| row_data := []; cell_index := 0; rowspan_tracker := tracker |}.

(** The row loop of [_build_table_matrix], from a given tracker. *)
Fixpoint matrix_loop (trs : list (list Cell)) (tracker : gmap nat (Z * string))
  : result (list (list string)) :=
  match trs with
  | [] => Ok []
  | cells :: rest =>
      st ← row_loop cells (seq 0 20) (row_start tracker);
      matrix ← matrix_loop rest (rowspan_tracker st);
      Ok (row_data st :: matrix)
  end.

Definition _build_table_matrix (trs : list (list Cell)) : result (list (list string)) :=
  matrix_loop trs ∅.

(** The tracker with which row [i] starts. *)
Fixpoint tracker_before (trs : list (list Cell)) (tracker : gmap nat (Z * string))
  (i : nat) {struct i} : result (gmap nat (Z * string)) :=
  match i with
  | O => Ok tracker
  | S j =>
      match trs with
      | cells :: rest =>
          st ← row_loop cells (seq 0 20) (row_start tracker);
          tracker_before rest (rowspan_tracker st) j
      | [] => Ok tracker
      end
  end.

(** The loop state of row [i] when it reaches column [c]. *)
Definition state_at (trs : list (list Cell)) (i c : nat) : result row_state :=
  tracker ← tracker_before trs ∅ i;
  match trs !! i with
  | Some cells => row_loop cells (seq 0 c) (row_start tracker)
  | None => Raise KeyError
  end.

Definition default_id_prefixes : list string :=
  ["char"; "illust_dating"; "illust_talk"; "illust_special";
   "specialillust"; "specialIllust"; "npc"; "storypack"].

Definition _is_valid_id (test_id : string) (valid_prefixes : list string) : bool :=
  if negb (Py.truthy test_id) || negb (bool_decide (valid_prefixes ≠ [])) then false
  else existsb (Py.startswith (Py.strip test_id)) valid_prefixes.

(** Character context carried from one matrix row to the next. *)
Record parse_ctx := {
  current_character : string;
  current_char_id : string
}.

(** One iteration of [for row_data in matrix]. *)
Definition parse_row (valid_prefixes : list string) (ctx : parse_ctx)
  (row : list string) : parse_ctx * list CharacterData :=
  if (5 <=? length row)%nat then
    let character_cell := nth 1 row EmptyString in
    let id_or_costume := nth 2 row EmptyString in
    let costume_or_idle := nth 3 row EmptyString in
    let idle_or_cutscene := nth 4 row EmptyString in
    let cutscene_or_next := nth 5 row EmptyString in
    let named := Py.truthy (Py.strip character_cell) in
    let cur_char :=
      if named then Py.strip character_cell else current_character ctx in
    let has_id := _is_valid_id id_or_costume valid_prefixes in
    let cur_id :=
      if has_id then Py.strip id_or_costume
      else if named then EmptyString else current_char_id ctx in
    let cos := Py.strip (if has_id then costume_or_idle else id_or_costume) in
    let idl := Py.strip (if has_id then idle_or_cutscene else costume_or_idle) in
    let cut := Py.strip (if has_id then cutscene_or_next else idle_or_cutscene) in
    ({| current_character := cur_char; current_char_id := cur_id |},
     if Py.truthy cur_char && Py.truthy cos
     then [ {| character := cur_char; costume := cos; idle := idl;
               cutscene := cut; char_id := cur_id |} ]
     else [])
  else (ctx, []).

Fixpoint parse_matrix (valid_prefixes : list string) (ctx : parse_ctx)
  (matrix : list (list string)) : list CharacterData :=
  match matrix with
  | [] => []
  | row :: rest =>
      let '(ctx', out) := parse_row valid_prefixes ctx row in
      out ++ parse_matrix valid_prefixes ctx' rest
  end.

Definition parse_table (valid_prefixes : list string) (table : Table)
  : list CharacterData :=
  match table with
  | None => []
  | Some trs =>
      if (length trs <? 3)%nat then []
      else
        match _build_table_matrix (drop 2 trs) with
        | Ok matrix =>
            parse_matrix valid_prefixes
              {| current_character := EmptyString; current_char_id := EmptyString |}
              matrix
        | Raise _ => []
        end
  end.

(** [parse_rows] on the tables found in the document. *)
Definition parse_rows (valid_prefixes : list string) (html : list Table)
  : list CharacterData :=
  flat_map (parse_table valid_prefixes) html.

(** The inner function [one] of [match_score]. *)
Definition one (a b : string) : Z :=
  if String.eqb a b then 2
  else if Py.startswith a b || Py.startswith b a then 1
  else if Py.contains a b || Py.contains b a then 0
  else -1.

Definition match_score (n_char n_cos : string) (row : CharacterData) : Z * Z :=
  (one (_norm (character row)) n_char, one (_norm (costume row)) n_cos).

(** [cand > best] on tuples [(int, int, CharacterData)]: the first position
    where the two differ decides; [CharacterData] has [==] but no ordering. *)
Definition cand_gt (cand best : Z * Z * CharacterData) : result bool :=
  let '(s1, m1, r1) := cand in
  let '(s2, m2, r2) := best in
  if negb (s1 =? s2) then Ok (s1 >? s2)
  else if negb (m1 =? m2) then Ok (m1 >? m2)
  else if bool_decide (r1 = r2) then Ok false
  else Raise TypeError.

(** The loop [for r in rows] that keeps the best candidate. *)
Fixpoint best_loop (n_char n_cos : string) (rows : list CharacterData)
  (best : option (Z * Z * CharacterData)) : result (option (Z * Z * CharacterData)) :=
  match rows with
  | [] => Ok best
  | r :: rest =>
      let sc := match_score n_char n_cos r in
      if (sc.1 <? 0) || (sc.2 <? 0) then best_loop n_char n_cos rest best
      else
        let cand := (sc.1 + sc.2, Z.max sc.1 sc.2, r) in
        match best with
        | None => best_loop n_char n_cos rest (Some cand)
        | Some b =>
            gt ← cand_gt cand b;
            best_loop n_char n_cos rest (if gt : bool then Some cand else best)
        end
  end.

(** The part [get_idle] and [get_cutscene] share: the selected row. *)
Definition select_row (rows : list CharacterData) (character costume : string)
  : result CharacterData :=
  if bool_decide (rows = []) then Raise ValueError
  else
    best ← best_loop (_norm character) (_norm costume) rows None;
    match best with
    | None => Raise LookupError
    | Some (_, _, r) => Ok r
    end.

Definition get_idle (valid_prefixes : list string) (html : list Table)
  (character costume : string) : result pyval :=
  r ← select_row (parse_rows valid_prefixes html) character costume;
  Ok (_maybe_to_int (idle r)).

Definition get_cutscene (valid_prefixes : list string) (html : list Table)
  (character costume : string) : result pyval :=
  r ← select_row (parse_rows valid_prefixes html) character costume;
  Ok (_maybe_to_int (cutscene r)).

(** Ranking key of a row, and what it means for a row to stay a candidate. *)
Definition rank_key (n_char n_cos : string) (row : CharacterData) : Z * Z :=
  let sc := match_score n_char n_cos row in (sc.1 + sc.2, Z.max sc.1 sc.2).

Definition survives (n_char n_cos : string) (row : CharacterData) : Prop :=
  let sc := match_score n_char n_cos row in 0 ≤ sc.1 ∧ 0 ≤ sc.2.

(** Sum first, then maximum: the strict order on ranking keys. *)
Definition key_lt (k k' : Z * Z) : Prop :=
  k.1 < k'.1 ∨ (k.1 = k'.1 ∧ k.2 < k'.2).

(** Plain cells and documents used as concrete inputs. *)
Definition td (s : string) : Cell := {| attrs := []; text := s; inner := [] |}.

Definition td_span (n s : string) : Cell :=
  {| attrs := [("rowspan", n)]; text := s; inner := [] |}.

Definition sample_header : list (list Cell) :=
  [ [td "A"; td "B"; td "C"; td "D"; td "E"; td "F"]; [] ].

(** Three rows; the name cell of the first spans all three. *)
Definition sample_span_rows : list (list Cell) :=
  [ [td "1"; td_span "3" "Celia"; td "char000101"; td "The Curse"; td "101"];
    [td "2"; td "char000102"; td "The Other"; td "102"];
    [td "3"; td "Summer"; td "103"] ].

(** Two costumes of one character that both start with the query text. *)
Definition sample_tie_html : list Table :=
  [ Some (sample_header ++
      [ [td "1"; td "Celia"; td "char000101"; td "The Curse"; td "101"; td "201"];
        [td "2"; td ""; td "char000102"; td "The Other"; td "102"; td "cut_b"] ]) ].

(** A costume that extends the query text, then the exact one. *)
Definition sample_exact_html : list Table :=
  [ Some (sample_header ++
      [ [td "1"; td "Celia"; td "char000101"; td "The Curse"; td "101"; td "201"];
        [td "2"; td ""; td "char000102"; td "The"; td " +102 "; td "cut_b"] ]) ].

End Scraper.

(* ================================================================== *)
(** ** api/cdn_api.py *)

Module Cdn.

(** An entry of the catalog's [bundles] array, as [bundle.get] reads it. *)
Record Bundle := {
  bundleName : option pyval;
  readableName : option string;
  hash : option string
}.

(** The catalog document: its [bundles] array, when it has the key. *)
Record Catalog := { bundles : option (list Bundle) }.

(** The loop [for bundle in catalog_data["bundles"]]. *)
Fixpoint scan_bundles (entries : list Bundle) (idle_value : pyval)
  : option (string * option string) :=
  match entries with
  | [] => None
  | bundle :: rest =>
      if bool_decide (bundleName bundle = Some idle_value) then
        match readableName bundle with
        | Some readable_name =>
            if Py.truthy readable_name
            then Some (readable_name +:+ ".bundle", hash bundle)
            else scan_bundles rest idle_value
        | None => scan_bundles rest idle_value
        end
      else scan_bundles rest idle_value
  end.

(** [fetched] is the outcome of downloading and decoding the catalog; every
    exception leaves the function as the API error. *)
Definition get_resource_bundle_name_and_hash (fetched : result Catalog)
  (idle_value : pyval) : result (option (string * option string)) :=
  match fetched with
  | Raise _ => Raise ApiError
  | Ok catalog_data =>
      match bundles catalog_data with
      | None => Raise ApiError
      | Some entries => Ok (scan_bundles entries idle_value)
      end
  end.

(** An entry the scan can return: it has a non-empty readable name. *)
Definition usable (idle_value : pyval) (bundle : Bundle) : Prop :=
  bundleName bundle = Some idle_value ∧
  ∃ readable_name, readableName bundle = Some readable_name ∧ readable_name ≠ "".

(** A catalog whose first entry for "char000101" has an empty readable name. *)
Definition sample_catalog : Catalog :=
  {| bundles := Some
       [ {| bundleName := Some (PyStr "char000101"); readableName := Some "";
            hash := Some "h1" |};
         {| bundleName := Some (PyStr "char000101");
            readableName := Some "common-skeleton"; hash := Some "h2" |} ] |}.

End Cdn.

(* ================================================================== *)
(** ** core/resource_manager.py: the persisted document *)

Module Store.

(** Decoded JSON. An object keeps its members in insertion order, as a
    [dict] does. *)
#[local] Unset Elimination Schemes.
Inductive json :=
  | JNull
  | JBool (b : bool)
  | JNum (z : Z)
  | JStr (s : string)
  | JArr (items : list json)
  | JObj (members : list (string * json)).
#[local] Set Elimination Schemes.

(** [d.get(k)]. *)
Definition dict_get (k : string) (d : list (string * json)) : option json :=
  Py.assoc k d.

(** [k in d]. *)
Definition dict_has (k : string) (d : list (string * json)) : bool :=
  match dict_get k d with Some _ => true | None => false end.

(** The dictionary left by [d.pop(k, default)]. *)
Fixpoint dict_pop (k : string) (d : list (string * json)) : list (string * json) :=
  match d with
  | [] => []
  | (k', v) :: d' =>
      if String.eqb k k' then dict_pop k d' else (k', v) :: dict_pop k d'
  end.

(** [d[k] = v]: an existing key keeps its place, a new one goes last. *)
Fixpoint dict_set (k : string) (v : json) (d : list (string * json))
  : list (string * json) :=
  match d with
  | [] => [(k, v)]
  | (k', v') :: d' =>
      if String.eqb k k' then (k, v) :: d' else (k', v') :: dict_set k v d'
  end.

Definition is_list (v : json) : bool :=
  match v with JArr _ => true | _ => false end.

(** The document returned when there is no file or loading fails. *)
Definition default_data : list (string * json) := [("authors", JObj [])].

(** First step of loading: the flat legacy shape becomes an entry under the
    key "replace". The second component is the file after the step. *)
Definition migrate_flat (data : list (string * json)) (file : option json)
  : list (string * json) * option json :=
  if dict_has "replaceDir" data && negb (dict_has "authors" data) then
    let old_replace_dirs := default (JArr []) (dict_get "replaceDir" data) in
    let data := dict_pop "replaceDir" data in
    let old_version := default (JNum 0) (dict_get "version" data) in
    let data := dict_pop "version" data in
    let old_update_time := default (JNum 0) (dict_get "updateTime" data) in
    let data := dict_pop "updateTime" data in
    let data :=
      dict_set "authors"
        (JObj [("replace",
                JObj [("version", old_version);
                      ("updateTime", old_update_time);
                      ("dirs", old_replace_dirs)])]) data in
    (data, Some (JObj data))
  else if negb (dict_has "authors" data) then
    (dict_set "authors" (JObj []) data, file)
  else (data, file).

(** Second step: an author whose value is a bare directory list. *)
Definition migrate_author (data : list (string * json)) (entry : string * json)
  : string * json :=
  match entry with
  | (author_name, JArr dirs) =>
      (author_name,
       JObj [("version", default (JNum 0) (dict_get "version" data));
             ("updateTime", default (JNum 0) (dict_get "updateTime" data));
             ("dirs", JArr dirs)])
  | _ => entry
  end.

(** [_load_data_json]: [file] is the decoded content of data.json, [None]
    when the file does not exist. Returns the document and the content of
    the file afterwards. An exception raised on the way is caught at the
    end of the function, which then returns the default document. *)
Definition _load_data_json (replace_dir_name : string) (file : option json)
  : list (string * json) * option json :=
  match file with
  | None => (default_data, None)
  | Some (JObj data) =>
      let '(data, file) := migrate_flat data file in
      match dict_get "authors" data with
      | Some (JObj authors_data) =>
          let migration_needed := existsb (λ e, is_list e.2) authors_data in
          let authors_data := map (migrate_author data) authors_data in
          let '(data, file) :=
            if migration_needed then
              let data := dict_pop "updateTime" (dict_pop "version" data) in
              let data := dict_set "authors" (JObj authors_data) data in
              (data, Some (JObj data))
            else (data, file) in
          match dict_get replace_dir_name authors_data with
          | None | Some (JObj _) => (data, file)
          | Some _ => (default_data, file)
          end
      | _ => (default_data, file)
      end
  | Some _ => (default_data, file)
  end.

(** A document in the flat legacy shape. *)
Definition sample_flat_doc : json :=
  JObj [("version", JNum 117); ("updateTime", JNum 20250814);
        ("replaceDir",
         JArr [JObj [("path", JStr "/bd2/replace/Celia/The Curse/IDLE");
                     ("mtime", JNum 1755129600); ("subfile", JArr [])]]);
        ("note", JStr "kept")].

End Store.

(* ================================================================== *)
(** ** core/resource_manager.py: change detection and planning *)

Module Manager.

(** A snapshot of a directory tree. Times are rational seconds; a node that
    is neither a regular file nor a directory is [Special]. Paths are joined
    with "/". *)
#[local] Unset Elimination Schemes.
Inductive fsnode :=
  | File (name : string) (mtime : Q) (content : string)
  | Dir (name : string) (mtime : Q) (children : list fsnode)
  | Special (name : string).
#[local] Set Elimination Schemes.

Definition node_name (n : fsnode) : string :=
  match n with
  | File name _ _ | Dir name _ _ | Special name => name
  end.

Definition is_file (n : fsnode) : bool :=
  match n with File _ _ _ => true | _ => false end.

Definition is_dir (n : fsnode) : bool :=
  match n with Dir _ _ _ => true | _ => false end.

Definition iterdir (n : fsnode) : list fsnode :=
  match n with Dir _ _ children => children | _ => [] end.

(** [dir_path.rglob('*')]: every node below the directory. *)
Fixpoint rglob (n : fsnode) : list fsnode :=
  match n with
  | Dir _ _ children =>
      (fix below (l : list fsnode) : list fsnode :=
         match l with
         | [] => []
         | c :: l' => c :: rglob c ++ below l'
         end) children
  | _ => []
  end.

(** Induction on a tree, with the property available for every child. *)
Fixpoint fsnode_children_ind (P : fsnode → Prop)
  (Hfile : ∀ name mtime content, P (File name mtime content))
  (Hdir : ∀ name mtime children, Forall P children → P (Dir name mtime children))
  (Hspecial : ∀ name, P (Special name)) (n : fsnode) : P n :=
  match n with
  | File name mtime content => Hfile name mtime content
  | Dir name mtime children =>
      Hdir name mtime children
        ((fix all (l : list fsnode) : Forall P l :=
            match l with
            | [] => @List.Forall_nil fsnode P
            | c :: l' =>
                @List.Forall_cons fsnode P c l'
                  (fsnode_children_ind P Hfile Hdir Hspecial c) (all l')
            end) children)
  | Special name => Hspecial name
  end.

Definition path_join (parent name : string) : string :=
  parent +:+ "/" +:+ name.

(** [max(a, b)] on two numbers. *)
Definition py_max (a b : Q) : Q := if Qlt_le_dec a b then b else a.

(** [abs(a - b) > 1]. *)
Definition drifted (a b : Q) : bool :=
  if Qlt_le_dec 1 (Qabs (a - b)) then true else false.

Definition stat_mtime (n : fsnode) : Q :=
  match n with
  | File _ mtime _ | Dir _ mtime _ => mtime
  | Special _ => 0%Q
  end.

Definition _get_directory_mtime (dir : fsnode) : Q :=
  fold_left (λ max_mtime item,
               if is_file item then py_max max_mtime (stat_mtime item) else max_mtime)
            (rglob dir) (stat_mtime dir).

Record SubFile := { sf_path : string; sf_mtime : Q }.

Definition _get_subfiles_info (dir_path : string) (dir : fsnode) : list SubFile :=
  flat_map (λ item,
    if is_file item then
      [ {| sf_path := path_join dir_path (node_name item); sf_mtime := stat_mtime item |} ]
    else if is_dir item then
      [ {| sf_path := path_join dir_path (node_name item);
           sf_mtime := _get_directory_mtime item |} ]
    else []) (iterdir dir).

Definition _is_directory_empty (dir : fsnode) : bool :=
  negb (existsb is_file (rglob dir)).

(** "A regular file somewhere beneath the directory", as a predicate. *)
Inductive file_beneath : fsnode → Prop :=
  | file_beneath_here dir c :
      c ∈ iterdir dir → is_file c = true → file_beneath dir
  | file_beneath_deeper dir c :
      c ∈ iterdir dir → file_beneath c → file_beneath dir.

(** An entry of the persisted "dirs" list; [mtime] and [subfile] are read
    with [get] and may be missing. *)
Record ReplaceEntry := {
  path : string;
  mtime : option Q;
  subfile : option (list SubFile)
}.

(** The persisted data of one author, read with [get]. *)
Record AuthorData := {
  version : option Z;
  updateTime : option Z;
  dirs : option (list ReplaceEntry)
}.

Record UpdateSummary := {
  version_changed : bool;
  old_version : option Z;
  new_version : option Z;
  replace_dirs_to_update : list string;
  total_replace_dirs : nat
}.

Record ReplaceTask := {
  char : string;
  costume : string;
  type : string;
  replace_dir : string;
  data_name : string;
  downloaded_dir : string;
  target_dir : string;
  mod_name : string;
  idle_or_cutscene_value : pyval;
  hash_id : option string;
  should_execute : bool
}.

Definition set_should_execute (b : bool) (t : ReplaceTask) : ReplaceTask :=
  {| char := char t; costume := costume t; type := type t;
     replace_dir := replace_dir t; data_name := data_name t;
     downloaded_dir := downloaded_dir t; target_dir := target_dir t;
     mod_name := mod_name t; idle_or_cutscene_value := idle_or_cutscene_value t;
     hash_id := hash_id t; should_execute := b |}.

(** The stored child time the comparison uses for a path: a later record of
    the stored list overrides an earlier one of the same path. *)
Definition stored_mtime (stored : list SubFile) (p : string) : option Q :=
  sf_mtime <$> last (filter (λ sf, sf_path sf = p) stored).

Fixpoint strip_prefix (pre s : string) : option string :=
  match pre, s with
  | EmptyString, _ => Some s
  | String a pre', String b s' =>
      if Ascii.eqb a b then strip_prefix pre' s' else None
  | String _ _, EmptyString => None
  end.

Section Manager.

(** The manager's configuration and the remote documents of one run:
    [replace_rel] is the workspace directory relative to the project root. *)
Variables (project_root replace_rel : string).
Variables (downloaded_root target_root : string).
Variable valid_prefixes : list string.
Variable html : result (list Scraper.Table).
Variable catalog : result Cdn.Catalog.

(** [Path(p).relative_to(self.project_root)]; [None] is [ValueError]. *)
Definition relative_to_root (p : string) : option string :=
  strip_prefix (project_root +:+ "/") p.

(** The three-level walk: character, costume and type directory of every
    leaf, in iteration order. *)
Definition leaves (root : fsnode) : list (fsnode * fsnode * fsnode) :=
  level1 ← filter (λ n, is_dir n = true) (iterdir root);
  level2 ← filter (λ n, is_dir n = true) (iterdir level1);
  level3 ← filter (λ n, is_dir n = true) (iterdir level2);
  [(level1, level2, level3)].

(** Path of a leaf relative to the project root. *)
Definition leaf_rel (leaf : fsnode * fsnode * fsnode) : string :=
  path_join (path_join (path_join replace_rel (node_name leaf.1.1))
               (node_name leaf.1.2)) (node_name leaf.2).

Definition _scan_replace_directories (replace_dir : option fsnode) : list string :=
  match replace_dir with
  | None => []
  | Some root => leaf_rel <$> leaves root
  end.

(** [existing_replace_map], keyed by the stored path made relative. *)
Fixpoint existing_map (entries : list ReplaceEntry) (acc : gmap string ReplaceEntry)
  : result (gmap string ReplaceEntry) :=
  match entries with
  | [] => Ok acc
  | entry :: rest =>
      match relative_to_root (path entry) with
      | Some rel_path => existing_map rest (<[rel_path := entry]> acc)
      | None => Raise ValueError
      end
  end.

Definition existing_subfile_map (existing_subfiles : list SubFile) : gmap string Q :=
  fold_left (λ m sf, <[sf_path sf := sf_mtime sf]> m) existing_subfiles ∅.

(** The comparison of one leaf with its stored entry. *)
Definition entry_changed (existing_entry : ReplaceEntry) (current_mtime : Q)
  (current_subfiles : list SubFile) : bool :=
  let existing_mtime := default 0%Q (mtime existing_entry) in
  let existing_subfiles := default [] (subfile existing_entry) in
  if drifted current_mtime existing_mtime then true
  else
    let existing_subfile_map := existing_subfile_map existing_subfiles in
    let changed :=
      existsb (λ subfile,
                 match existing_subfile_map !! sf_path subfile with
                 | None => true
                 | Some stored => drifted (sf_mtime subfile) stored
                 end) current_subfiles in
    let current_subfile_paths : gset string :=
      list_to_set (sf_path <$> current_subfiles) in
    let deleted :=
      existsb (λ existing_subfile_path,
                 negb (bool_decide (existing_subfile_path ∈ current_subfile_paths)))
              (map_to_list existing_subfile_map).*1 in
    changed || deleted.

(** Whether the loop appends the leaf to [dirs_to_update]. *)
Definition leaf_to_update (existing_replace_map : gmap string ReplaceEntry)
  (leaf : fsnode * fsnode * fsnode) : bool :=
  let replace_dir_rel := leaf_rel leaf in
  let replace_dir_path := path_join project_root replace_dir_rel in
  let current_mtime := _get_directory_mtime leaf.2 in
  let current_subfiles := _get_subfiles_info replace_dir_path leaf.2 in
  match existing_replace_map !! replace_dir_rel with
  | Some existing_entry => entry_changed existing_entry current_mtime current_subfiles
  | None => true
  end.

(** [check_version_and_updates] without its writes to data.json:
    [server_version] is the outcome of asking the version provider. *)
Definition check_version_and_updates (current_author_data : AuthorData)
  (server_version : result Z) (replace_dir : option fsnode) : bool * UpdateSummary :=
  let current_version := default 0 (version current_author_data) in
  let current_update_time := default 0 (updateTime current_author_data) in
  match server_version with
  | Raise _ =>
      (true, {| version_changed := false; old_version := Some current_version;
                new_version := None; replace_dirs_to_update := [];
                total_replace_dirs := 0 |})
  | Ok server_version =>
      let changed :=
        negb (server_version =? current_version)
        || negb (server_version =? current_update_time) in
      let current := from_option leaves [] replace_dir in
      match existing_map (default [] (dirs current_author_data)) ∅ with
      | Raise _ =>
          (true, {| version_changed := changed; old_version := Some current_version;
                    new_version := Some server_version; replace_dirs_to_update := [];
                    total_replace_dirs := length current |})
      | Ok existing_replace_map =>
          let dirs_to_update :=
            leaf_rel <$> filter (λ leaf, leaf_to_update existing_replace_map leaf = true)
                           current in
          let removed :=
            existsb (λ existing_rel_path,
                       negb (bool_decide (existing_rel_path ∈ leaf_rel <$> current)))
                    (map_to_list existing_replace_map).*1 in
          (changed || negb (bool_decide (dirs_to_update = [])) || removed,
           {| version_changed := changed; old_version := Some current_version;
              new_version := Some server_version;
              replace_dirs_to_update := dirs_to_update;
              total_replace_dirs := length current |})
      end
  end.

Definition format_hash (hash_id : option string) : string := default "None" hash_id.

Definition _create_replace_task (char costume type_name : string)
  (type_dir_path : string) (type_dir : fsnode) (should_execute : bool)
  : option ReplaceTask :=
  let looked_up :=
    if String.eqb (Py.upper_ascii_only type_name) "IDLE" then
      Some (h ← html; Scraper.get_idle valid_prefixes h char costume)
    else if String.eqb (Py.upper_ascii_only type_name) "CUTSCENE" then
      Some (h ← html; Scraper.get_cutscene valid_prefixes h char costume)
    else None in
  match looked_up with
  | Some (Ok idle_or_cutscene_value) =>
      if negb (Py.truthy_val idle_or_cutscene_value) then None
      else
        match Cdn.get_resource_bundle_name_and_hash catalog idle_or_cutscene_value with
        | Ok (Some (resource_name, hash_id)) =>
            Some {| char := char; costume := costume; type := type_name;
                    replace_dir := type_dir_path;
                    data_name := resource_name;
                    downloaded_dir := downloaded_root +:+ "/" +:+ resource_name;
                    target_dir :=
                      target_root +:+ "/" +:+ Py.format idle_or_cutscene_value
                        +:+ "/" +:+ format_hash hash_id +:+ "/__data";
                    mod_name :=
                      from_option node_name ""
                        (head (filter (λ n, is_dir n = true) (iterdir type_dir)));
                    idle_or_cutscene_value := idle_or_cutscene_value;
                    hash_id := hash_id;
                    should_execute := should_execute |}
        | _ => None
        end
  | _ => None
  end.

(** Truth value of the [specific_dirs] argument. *)
Definition incremental (specific_dirs : option (list string)) : bool :=
  match specific_dirs with
  | Some (_ :: _) => true
  | _ => false
  end.

Definition specific_dirs_set (specific_dirs : option (list string)) : gset string :=
  if incremental specific_dirs
  then list_to_set (Py.replace "\" "/" <$> default [] specific_dirs)
  else ∅.

(** Body of the innermost loop of [_build_replace_mapping]. *)
Definition leaf_task (specific_dirs : option (list string))
  (leaf : fsnode * fsnode * fsnode) : list ReplaceTask :=
  let '(char_dir, costume_dir, type_dir) := leaf in
  if _is_directory_empty type_dir then []
  else
    let should_execute :=
      if incremental specific_dirs
      then bool_decide (Py.replace "\" "/" (leaf_rel leaf)
                          ∈ specific_dirs_set specific_dirs)
      else true in
    option_list
      (_create_replace_task (node_name char_dir) (node_name costume_dir)
         (node_name type_dir) (path_join project_root (leaf_rel leaf))
         type_dir should_execute).

(** The task list when the walk is over, before the co-target pass. *)
Definition walk_tasks (specific_dirs : option (list string)) (root : fsnode)
  : list ReplaceTask :=
  flat_map (leaf_task specific_dirs) (leaves root).

(** The co-target pass over the finished list. *)
Definition propagate (replace_tasks : list ReplaceTask) : list ReplaceTask :=
  let executable_target_dirs : gset string :=
    list_to_set (target_dir <$> filter (λ t, should_execute t = true) replace_tasks) in
  (λ task,
     if negb (should_execute task)
        && bool_decide (target_dir task ∈ executable_target_dirs)
     then set_should_execute true task else task) <$> replace_tasks.

Definition _build_replace_mapping (specific_dirs : option (list string))
  (replace_dir : option fsnode) : list ReplaceTask :=
  match replace_dir with
  | None => []
  | Some root =>
      let replace_tasks := walk_tasks specific_dirs root in
      if incremental specific_dirs then propagate replace_tasks else replace_tasks
  end.

(** Sibling names are distinct on the three levels of the walk. *)
Definition unique_names (root : fsnode) : Prop :=
  NoDup (node_name <$> iterdir root) ∧
  ∀ level1, level1 ∈ iterdir root →
    NoDup (node_name <$> iterdir level1) ∧
    ∀ level2, level2 ∈ iterdir level1 → NoDup (node_name <$> iterdir level2).

End Manager.

(** A workspace with one character: a costume with two leaves that hold
    files, and a costume whose only leaf holds nothing but an empty folder. *)
Definition sample_idle : fsnode :=
  Dir "IDLE" 100 [
    File "char000101.skel" 1000 "skel-a";
    File "char000101.atlas" (2001 # 2) "atlas-a" ].

Definition sample_cutscene : fsnode :=
  Dir "CUTSCENE" 100 [ File "cutscene_char000101.skel" 1000 "skel-b" ].

Definition sample_curse : fsnode :=
  Dir "The Curse" 100 [ sample_idle; sample_cutscene ].

Definition sample_empty_idle : fsnode :=
  Dir "IDLE" 100 [ Dir "drafts" 100 [] ].

Definition sample_summer : fsnode :=
  Dir "Summer" 100 [ sample_empty_idle ].

Definition sample_celia : fsnode :=
  Dir "Celia" 100 [ sample_curse; sample_summer; File "readme.txt" 5 "notes" ].

Definition sample_root : fsnode := Dir "replace" 100 [ sample_celia ].

(** The stored snapshot: the IDLE leaf half a second older than now, the
    CUTSCENE leaf ten seconds older. *)
Definition sample_author : AuthorData :=
  {| version := Some 117; updateTime := Some 117;
     dirs := Some [
       {| path := "/bd2/ws/replace/Celia/The Curse/IDLE";
          mtime := Some 1000%Q;
          subfile := Some [
            {| sf_path := "/bd2/ws/replace/Celia/The Curse/IDLE/char000101.skel";
               sf_mtime := 1000 |};
            {| sf_path := "/bd2/ws/replace/Celia/The Curse/IDLE/char000101.atlas";
               sf_mtime := 1000 |} ] |};
       {| path := "/bd2/ws/replace/Celia/The Curse/CUTSCENE";
          mtime := Some 990%Q;
          subfile := Some [
            {| sf_path :=
                 "/bd2/ws/replace/Celia/The Curse/CUTSCENE/cutscene_char000101.skel";
               sf_mtime := 990 |} ] |} ] |}.

(** A reference table in which the idle and the cutscene of one costume
    name the same animation. *)
Definition sample_shared_html : list Scraper.Table :=
  [ Some (Scraper.sample_header ++
      [ [Scraper.td "1"; Scraper.td "Celia"; Scraper.td "char000101";
         Scraper.td "The Curse"; Scraper.td "spine_a"; Scraper.td "spine_a"];
        [Scraper.td "2"; Scraper.td ""; Scraper.td "char000102";
         Scraper.td "Summer"; Scraper.td "spine_b"; Scraper.td "spine_c"] ]) ].

Definition sample_shared_catalog : Cdn.Catalog :=
  {| Cdn.bundles := Some
       [ {| Cdn.bundleName := Some (PyStr "spine_a");
            Cdn.readableName := Some "common-x"; Cdn.hash := Some "abc" |};
         {| Cdn.bundleName := Some (PyStr "spine_b");
            Cdn.readableName := Some "common-y"; Cdn.hash := Some "def" |} ] |}.

End Manager.

(* ================================================================== *)
(** ** core/unity_processor.py *)

Module Unity.
Import Manager.

Inductive FileType := SKEL | ATLAS | PNG | UNKNOWN.

Definition _get_file_type (filename : string) : FileType :=
  let filename_lower := Py.lower filename in
  if Py.endswith filename_lower ".skel" then SKEL
  else if Py.endswith filename_lower ".atlas" then ATLAS
  else if Py.endswith filename_lower ".png" then PNG
  else UNKNOWN.

(** [os.path.exists(os.path.join(replace_root, name))] for a plain file
    name: an entry of that name directly in the directory. *)
Definition exists_in (replace_root : fsnode) (name : string) : bool :=
  existsb (λ c, String.eqb (node_name c) name) (iterdir replace_root).

Definition json_name (data_name : string) : string :=
  Py.replace ".png" ".json" (Py.replace ".atlas" ".json" data_name).

Definition skel_name (data_name : string) : string :=
  Py.replace ".png" ".skel" (Py.replace ".atlas" ".skel" data_name).

Definition _should_skip_file (data_name : string) (replace_root : fsnode) : bool :=
  exists_in replace_root (json_name data_name)
  && negb (exists_in replace_root (skel_name data_name)).

(** [os.walk] from the top: the entries of a directory that are not
    directories are its [files]; the sub-directories follow in order. The
    result is the entry found, which stands for its path. *)
Fixpoint _find_replacement_file (target_name : string) (replace_dir : fsnode)
  : option fsnode :=
  match replace_dir with
  | Dir _ _ children =>
      match find (λ c, negb (is_dir c) && String.eqb (node_name c) target_name)
                 children with
      | Some f => Some f
      | None =>
          (fix subdirs (l : list fsnode) : option fsnode :=
             match l with
             | [] => None
             | c :: l' =>
                 match _find_replacement_file target_name c with
                 | Some f => Some f
                 | None => subdirs l'
                 end
             end) children
      end
  | _ => None
  end.

Inductive asset_type := TextAsset | Texture2D | OtherAsset.

(** An object of the loaded bundle: its type, its name when it has one, and
    its content (script text or image data). *)
Record BundleObject := {
  obj_type : asset_type;
  m_Name : option string;
  payload : string
}.

Definition with_payload (obj : BundleObject) (data : string) : BundleObject :=
  {| obj_type := obj_type obj; m_Name := m_Name obj; payload := data |}.

Definition file_content (f : fsnode) : option string :=
  match f with
  | File _ _ content => Some content
  | _ => None
  end.

Section Codec.

(** Whether the image library can open a file with the given content. *)
Variable decodes_as_image : string → bool.

(** [_replace_text_asset]: the new content when the replacement succeeds;
    opening anything but a regular file fails. *)
Definition _replace_text_asset (replacement : fsnode) : option string :=
  file_content replacement.

(** [_replace_texture]. *)
Definition _replace_texture (replacement : fsnode) : option string :=
  match file_content replacement with
  | Some content => if decodes_as_image content then Some content else None
  | None => None
  end.

(** The loop [for replace_dir in replace_dirs] for one asset: the content
    applied, if any. *)
Fixpoint replace_from (apply : fsnode → option string) (object_name : string)
  (replace_dirs : list fsnode) : option string :=
  match replace_dirs with
  | [] => None
  | replace_dir :: rest =>
      if _should_skip_file object_name replace_dir
      then replace_from apply object_name rest
      else
        match _find_replacement_file object_name replace_dir with
        | Some replacement_path =>
            match apply replacement_path with
            | Some content => Some content
            | None => replace_from apply object_name rest
            end
        | None => replace_from apply object_name rest
        end
  end.

(** Body of [for obj in env.objects]. *)
Definition process_object (replace_dirs : list fsnode) (obj : BundleObject)
  : BundleObject :=
  match obj_type obj with
  | TextAsset =>
      match m_Name obj with
      | None => obj
      | Some object_name =>
          match _get_file_type object_name with
          | SKEL | ATLAS =>
              match replace_from _replace_text_asset object_name replace_dirs with
              | Some content => with_payload obj content
              | None => obj
              end
          | _ => obj
          end
      end
  | Texture2D =>
      match m_Name obj with
      | None => obj
      | Some object_name =>
          match replace_from _replace_texture (object_name +:+ ".png") replace_dirs with
          | Some content => with_payload obj content
          | None => obj
          end
      end
  | OtherAsset => obj
  end.

(** [process_multiple_replace_dirs]: [bundle] is the outcome of loading the
    source bundle; the result is the content written to the target path,
    [None] when the call returns [False]. *)
Definition process_multiple_replace_dirs (bundle : result (list BundleObject))
  (replace_dirs : list fsnode) : option (list BundleObject) :=
  match bundle with
  | Raise _ => None
  | Ok objects => Some (process_object replace_dirs <$> objects)
  end.

(** The file name looked up for an object, and how its content is applied,
    when the object takes part in the replacement. *)
Definition lookup_of (obj : BundleObject)
  : option (string * (fsnode → option string)) :=
  match obj_type obj, m_Name obj with
  | TextAsset, Some object_name =>
      match _get_file_type object_name with
      | SKEL | ATLAS => Some (object_name, _replace_text_asset)
      | _ => None
      end
  | Texture2D, Some object_name => Some (object_name +:+ ".png", _replace_texture)
  | _, _ => None
  end.

(** A directory that does not provide the asset: it is under the skip rule,
    has no file of the name, or its file cannot be applied. *)
Definition passed_over (apply : fsnode → option string) (name : string)
  (replace_dir : fsnode) : Prop :=
  _should_skip_file name replace_dir = true ∨
  _find_replacement_file name replace_dir = None ∨
  ∃ f, _find_replacement_file name replace_dir = Some f ∧ apply f = None.

End Codec.

(** Two directories with a texture of the same name; the first one is not
    an image. *)
Definition sample_broken_dir : fsnode :=
  Dir "IDLE" 100 [ File "char000101.png" 1000 "truncated" ].

Definition sample_good_dir : fsnode :=
  Dir "CUTSCENE" 100 [ File "char000101.png" 1000 "PNG:pixels" ].

(** A set with a descriptor but no skeleton, and a complete one. *)
Definition sample_incomplete_dir : fsnode :=
  Dir "IDLE" 100 [
    File "char000101.json" 1000 "{}";
    File "char000101.atlas" 1000 "atlas-incomplete" ].

Definition sample_complete_dir : fsnode :=
  Dir "CUTSCENE" 100 [
    File "char000101.skel" 1000 "skel-b";
    Dir "mod" 100 [ File "char000101.atlas" 1000 "atlas-b" ] ].

Definition sample_bundle : list BundleObject :=
  [ {| obj_type := Texture2D; m_Name := Some "char000101"; payload := "PNG:old" |};
    {| obj_type := TextAsset; m_Name := Some "char000101.atlas"; payload := "atlas-old" |};
    {| obj_type := OtherAsset; m_Name := None; payload := "mesh" |} ].

Definition sample_decoder (content : string) : bool := String.prefix "PNG:" content.

End Unity.

(* ================================================================== *)
(** ** api/character_scraper.py: the other queries *)

Module Queries.
Import Scraper.

(** [get_all_data] on a given document. *)
Definition get_all_data (valid_prefixes : list string) (html : list Table)
  : list CharacterData :=
  parse_rows valid_prefixes html.

Definition search_characters (valid_prefixes : list string) (html : list Table)
  (character_name : string) : list CharacterData :=
  let all_data := get_all_data valid_prefixes html in
  let n_char := _norm character_name in
  List.filter
    (λ data, let rc := _norm (character data) in
             Py.contains n_char rc || Py.contains rc n_char)
    all_data.

(** The loop [for row in rows] of the three lookups by identifier. *)
Definition find_by_id (rows : list CharacterData) (char_id : string)
  : option CharacterData :=
  let normalized_id := Py.strip (Py.lower char_id) in
  find (λ row, String.eqb (Py.strip (Py.lower (Scraper.char_id row))) normalized_id)
       rows.

Definition get_idle_by_id (valid_prefixes : list string) (html : list Table)
  (char_id : string) : result pyval :=
  let rows := parse_rows valid_prefixes html in
  if bool_decide (rows = []) then Raise ValueError
  else
    match find_by_id rows char_id with
    | Some row => Ok (_maybe_to_int (idle row))
    | None => Raise LookupError
    end.

Definition get_cutscene_by_id (valid_prefixes : list string) (html : list Table)
  (char_id : string) : result pyval :=
  let rows := parse_rows valid_prefixes html in
  if bool_decide (rows = []) then Raise ValueError
  else
    match find_by_id rows char_id with
    | Some row => Ok (_maybe_to_int (cutscene row))
    | None => Raise LookupError
    end.

Definition get_character_by_id (valid_prefixes : list string) (html : list Table)
  (char_id : string) : option CharacterData :=
  let rows := parse_rows valid_prefixes html in
  if bool_decide (rows = []) then None else find_by_id rows char_id.

(** A cell whose [rowspan] attribute, when set and not empty, reads as an
    integer. *)
Definition span_readable (cell : Cell) : Prop :=
  match cell_get "rowspan" cell with
  | Some rowspan => Py.truthy rowspan = true → is_Some (Py.int rowspan)
  | None => True
  end.

End Queries.

(* ================================================================== *)
(** ** core/resource_manager.py: what a run persists and executes *)

Module Pipeline.
Import Manager.

(** [tasks_by_target[target_dir].append(task)], with a new key going last. *)
Fixpoint group_add (task : ReplaceTask) (groups : list (string * list ReplaceTask))
  : list (string * list ReplaceTask) :=
  match groups with
  | [] => [(target_dir task, [task])]
  | (key, group_tasks) :: rest =>
      if String.eqb (target_dir task) key
      then (key, group_tasks ++ [task]) :: rest
      else (key, group_tasks) :: group_add task rest
  end.

Definition tasks_by_target (tasks : list ReplaceTask)
  : list (string * list ReplaceTask) :=
  fold_left (λ groups task, group_add task groups) tasks [].

(** The keys of [unique_resources], in insertion order. *)
Definition unique_resources (executable_tasks : list ReplaceTask) : list string :=
  fold_left (λ names task,
               if bool_decide (data_name task ∈ names) then names
               else names ++ [data_name task])
            executable_tasks [].

(** What a run asks of its collaborators. *)
Inductive event :=
  | Downloaded (data_name : string)
  | Patched (source_bundle_path : string) (replace_dirs : list string)
            (target_dir : string).

(** How [process_updates] ends: with its return value, or with the
    [UnboundLocalError] for [replace_tasks] that leaves the function. *)
Inductive outcome :=
  | Returned (success : bool) (replace_tasks : list ReplaceTask)
  | Unbound.

(** The loop that prints the task summary; the result says whether the loop
    returns from the function. *)
Fixpoint summary_loop (replace_tasks : list ReplaceTask) (executed_count : nat)
  : bool :=
  match replace_tasks with
  | [] => false
  | task :: rest =>
      let executed_count :=
        if should_execute task then S executed_count else executed_count in
      if (executed_count =? 0)%nat then true else summary_loop rest executed_count
  end.

Section Pipeline.

Variables (project_root replace_rel downloaded_root target_root : string).
Variable valid_prefixes : list string.
Variable html : result (list Scraper.Table).
Variable catalog : result Cdn.Catalog.

(** Whether [download_data] returns for a resource name, and whether
    [process_multiple_replace_dirs] returns [True] for a source bundle, its
    replacement directories and the target (which is resolved against the
    project root). *)
Variable download_data : string → bool.
Variable patch : string → list string → string → bool.

(** The entry written for a leaf. *)
Definition snapshot_entry (leaf : fsnode * fsnode * fsnode) : ReplaceEntry :=
  let replace_dir_path := path_join project_root (leaf_rel replace_rel leaf) in
  {| path := replace_dir_path;
     mtime := Some (_get_directory_mtime leaf.2);
     subfile := Some (_get_subfiles_info replace_dir_path leaf.2) |}.

Definition no_author : AuthorData :=
  {| version := None; updateTime := None; dirs := None |}.

(** The author's entry of data.json after [check_version_and_updates];
    [stored] is the entry before, [None] when the author has none. *)
Definition persisted_author (stored : option AuthorData)
  (server_version : result Z) (replace_dir : option fsnode) : option AuthorData :=
  let current_author_data := default no_author stored in
  let current_version := default 0 (version current_author_data) in
  let current_update_time := default 0 (updateTime current_author_data) in
  match server_version with
  | Raise _ => stored
  | Ok server_version =>
      let changed :=
        negb (server_version =? current_version)
        || negb (server_version =? current_update_time) in
      let after_version :=
        if changed then
          Some {| version := Some server_version; updateTime := Some server_version;
                  dirs := Some (default [] (dirs current_author_data)) |}
        else stored in
      match existing_map project_root (default [] (dirs current_author_data)) ∅ with
      | Raise _ => after_version
      | Ok _ =>
          if (check_version_and_updates project_root replace_rel
                current_author_data (Ok server_version) replace_dir).1
          then
            let author :=
              default {| version := Some current_version;
                         updateTime := Some current_update_time;
                         dirs := Some [] |} after_version in
            Some {| version := version author; updateTime := updateTime author;
                    dirs := Some (snapshot_entry <$> from_option (leaves) [] replace_dir) |}
          else after_version
      end
  end.

Fixpoint download_all (names : list string) : bool * list event :=
  match names with
  | [] => (true, [])
  | data_name :: rest =>
      if download_data data_name then
        let '(success, events) := download_all rest in
        (success, Downloaded data_name :: events)
      else (false, [Downloaded data_name])
  end.

Definition _download_resources (replace_tasks : list ReplaceTask)
  : bool * list event :=
  let executable_tasks := List.filter should_execute replace_tasks in
  download_all (unique_resources executable_tasks).

(** The source bundle of a group: that of its first task. *)
Definition source_bundle_path (group_tasks : list ReplaceTask) : string :=
  path_join (path_join downloaded_root
               (from_option data_name "" (head group_tasks))) "__data".

(** The loop over the groups: it returns [False] at the first group whose
    patch fails. *)
Fixpoint patch_all (groups : list (string * list ReplaceTask)) : bool * list event :=
  match groups with
  | [] => (true, [])
  | (target_dir, group_tasks) :: rest =>
      let replace_dirs := replace_dir <$> group_tasks in
      let call := Patched (source_bundle_path group_tasks) replace_dirs target_dir in
      if patch (source_bundle_path group_tasks) replace_dirs target_dir then
        let '(success, events) := patch_all rest in
        (success, call :: events)
      else (false, [call])
  end.

Definition _process_unity_resources (replace_tasks : list ReplaceTask)
  : bool * list event :=
  let executable_tasks := List.filter should_execute replace_tasks in
  patch_all (tasks_by_target executable_tasks).

(** Steps two to four of [process_updates]. *)
Definition run_steps (is_update_dir : bool) (replace_tasks : list ReplaceTask)
  : outcome * list event :=
  let '(downloaded, events) :=
    if is_update_dir then (true, []) else _download_resources replace_tasks in
  if negb downloaded then (Returned false replace_tasks, events)
  else
    let '(patched, events') := _process_unity_resources replace_tasks in
    (Returned patched replace_tasks, events ++ events').

Definition plan_and_run (is_update_dir : bool) (specific_dirs : option (list string))
  (replace_dir : option fsnode) : outcome * list event :=
  let replace_tasks :=
    _build_replace_mapping project_root replace_rel downloaded_root target_root
      valid_prefixes html catalog specific_dirs replace_dir in
  if bool_decide (replace_tasks = []) then (Returned true replace_tasks, [])
  else if summary_loop replace_tasks 0 then (Returned true replace_tasks, [])
  else run_steps is_update_dir replace_tasks.

Definition process_updates (summary : UpdateSummary) (replace_dir : option fsnode)
  : outcome * list event :=
  if version_changed summary then plan_and_run false None replace_dir
  else if negb (bool_decide (replace_dirs_to_update summary = [])) then
    plan_and_run true (Some (replace_dirs_to_update summary)) replace_dir
  else (Unbound, []).

End Pipeline.

(** Two costumes that resolve to different bundles, each with files. *)
Definition sample_two_root : fsnode :=
  Dir "replace" 100 [
    Dir "Celia" 100 [
      Dir "The Curse" 100 [ sample_idle ];
      Dir "Summer" 100 [
        Dir "IDLE" 100 [ File "char000102.skel" 1000 "skel-c" ] ] ] ].

End Pipeline.

(* ================================================================== *)
(** ** core/unity_processor.py: the single-directory entry point *)

Module Single.
Import Manager Unity.

(** The lookup of one asset in [process_single_bundle]. *)
Definition single_replace (apply : fsnode → option string) (data_name : string)
  (replace_dir : fsnode) : option string :=
  if _should_skip_file data_name replace_dir then None
  else
    match _find_replacement_file data_name replace_dir with
    | Some replacement_path => apply replacement_path
    | None => None
    end.

(** Body of [for obj in env.objects]: the object afterwards, and whether
    [replaced_count] was incremented. *)
Definition single_object (decodes_as_image : string → bool) (replace_dir : fsnode)
  (obj : BundleObject) : BundleObject * bool :=
  match obj_type obj with
  | TextAsset =>
      match m_Name obj with
      | None => (obj, false)
      | Some object_name =>
          match _get_file_type object_name with
          | SKEL | ATLAS =>
              match single_replace _replace_text_asset object_name replace_dir with
              | Some content => (with_payload obj content, true)
              | None => (obj, false)
              end
          | _ => (obj, false)
          end
      end
  | Texture2D =>
      match m_Name obj with
      | None => (obj, false)
      | Some object_name =>
          match single_replace (_replace_texture decodes_as_image)
                  (object_name +:+ ".png") replace_dir with
          | Some content => (with_payload obj content, true)
          | None => (obj, false)
          end
      end
  | OtherAsset => (obj, false)
  end.

(** [process_single_bundle]: the return value, and the content written to
    the target path when something is written. *)
Definition process_single_bundle (decodes_as_image : string → bool)
  (bundle : result (list BundleObject)) (replace_dir : fsnode)
  : bool * option (list BundleObject) :=
  match bundle with
  | Raise _ => (false, None)
  | Ok objects =>
      let results := single_object decodes_as_image replace_dir <$> objects in
      let replaced_count := length (List.filter snd results) in
      (true, if (0 <? replaced_count)%nat then Some (results.*1) else None)
  end.

End Single.


(* ================================================================== *)
(** ** core/resource_manager.py: the flag of a leaf *)

Module Planning.
Import Manager.

(** [should_execute] as the walk of [_build_replace_mapping] computes it for
    a leaf, before the co-target pass. *)
Definition walk_flag (replace_rel : string) (specific_dirs : option (list string))
  (leaf : fsnode * fsnode * fsnode) : bool :=
  if incremental specific_dirs
  then bool_decide (Py.replace "\" "/" (leaf_rel replace_rel leaf)
                      ∈ specific_dirs_set specific_dirs)
  else true.

End Planning.

(* ================================================================== *)
(** * Properties *)

Lemma bind_Ok {A B} (r : result A) (k : A → result B) (b : B) :
  r ≫= k = Ok b → ∃ a, r = Ok a ∧ k a = Ok b.
Proof. destruct r as [a|e]; simpl; [eauto | discriminate]. Qed.

(** ** Interpreter primitives *)

Section PyFacts.
Import Py.

Lemma digit_not_space c : is_digit c = true → is_space c = false.
Proof. destruct c as [[] [] [] [] [] [] [] []]; vm_compute; congruence. Qed.

Lemma lstrip_id c s : is_space c = false → lstrip (String c s) = String c s.
Proof. intros H. simpl. by rewrite H. Qed.

Lemma rstrip_cons c s : is_space c = false → rstrip (String c s) = String c (rstrip s).
Proof. intros H. simpl. by rewrite H. Qed.

Lemma int_digits_total s : ∀ acc,
  Scraper.all_digits s = true → ∀ b, (b = true ∨ s ≠ EmptyString) →
  ∃ z, int_digits acc b s = Some z.
Proof.
  induction s as [|c s IH]; intros acc Hd b Hb; simpl in *.
  - destruct Hb as [-> | ?]; [eauto | done].
  - apply andb_true_iff in Hd as [Hc Hs]. rewrite Hc.
    apply IH; auto.
Qed.

Example strip_example : strip "  a b  " = "a b".
Proof. reflexivity. Qed.

Example replace_example : replace ".atlas" ".json" "x.atlas.atlas" = "x.json.json".
Proof. reflexivity. Qed.

Example int_example :
  Py.int " -1_0 " = Some (-10) ∧ Py.int "1__0" = None ∧ Py.int "" = None.
Proof. repeat split; reflexivity. Qed.

Example str_of_int_example : str_of_int (-12) = "-12" ∧ str_of_int 0 = "0".
Proof. split; reflexivity. Qed.

Example _norm_example : Scraper._norm "  The   CURSE " = "the curse".
Proof. reflexivity. Qed.

Example _maybe_to_int_example :
  Scraper._maybe_to_int " -42 " = PyInt (-42) ∧
  Scraper._maybe_to_int "4 2" = PyStr "4 2" ∧
  Scraper._maybe_to_int "1_0" = PyStr "1_0".
Proof. repeat split; reflexivity. Qed.

End PyFacts.

(** ** The scraper: identifier coercion *)

Section CoercionFacts.
Import Py Scraper.

Lemma is_digit_decimal c : is_digit c = bool_decide (decimal_digit c).
Proof. destruct c as [[] [] [] [] [] [] [] []]; vm_compute; reflexivity. Qed.

Lemma is_digit_not_sign c :
  is_digit c = true → Ascii.eqb c "+"%char || Ascii.eqb c "-"%char = false.
Proof. destruct c as [[] [] [] [] [] [] [] []]; vm_compute; congruence. Qed.

Lemma all_digits_spec s :
  all_digits s = true ↔ ∀ c, c ∈ String.list_ascii_of_string s → decimal_digit c.
Proof.
  induction s as [|a s IH]; simpl.
  - split; [intros _ c Hc; by apply elem_of_nil in Hc | done].
  - rewrite andb_true_iff, is_digit_decimal, bool_decide_eq_true, IH.
    split.
    + intros [Ha Hs] c [-> | Hc]%elem_of_cons; auto.
    + intros H. split; [apply H; left | intros c Hc; apply H; by right].
Qed.

Lemma fullmatch_spec t : fullmatch_signed_digits t = true ↔ signed_digit_run t.
Proof.
  split.
  - destruct t as [|c r]; simpl; [discriminate|].
    destruct (Ascii.eqb c "+" || Ascii.eqb c "-") eqn:Hsign.
    + intros [Hne Hd]%andb_true_iff.
      exists (String c EmptyString), r. split; [done|]. split.
      * apply orb_true_iff in Hsign as [->%Ascii.eqb_eq | ->%Ascii.eqb_eq]; auto.
      * split; [by destruct r | by apply all_digits_spec].
    + intros Hd. exists EmptyString, (String c r).
      split; [done|]. split; [auto|]. split; [done | by apply all_digits_spec].
  - intros (sign & ds & -> & Hsign & Hne & Hd).
    apply all_digits_spec in Hd.
    destruct Hsign as [-> | [-> | ->]].
    + change ("" +:+ ds) with ds.
      destruct ds as [|c r]; [done|]. simpl in *.
      apply andb_true_iff in Hd as [Hc Hr].
      by rewrite (is_digit_not_sign c Hc), Hc, Hr.
    + change ("+" +:+ ds) with (String "+"%char ds). simpl.
      rewrite Hd. by destruct ds.
    + change ("-" +:+ ds) with (String "-"%char ds). simpl.
      rewrite Hd. by destruct ds.
Qed.

Lemma rstrip_digits s : all_digits s = true → rstrip s = s.
Proof.
  induction s as [|c s IH]; [done|]. simpl.
  intros [Hc Hs]%andb_true_iff.
  by rewrite (digit_not_space c Hc), IH.
Qed.

Lemma strip_digits s : all_digits s = true → strip s = s.
Proof.
  intros H. unfold strip. destruct s as [|c s]; [done|].
  pose proof H as [Hc _]%andb_true_iff.
  rewrite lstrip_id by by apply digit_not_space.
  by apply rstrip_digits.
Qed.

(** On text the pattern accepts, [int] does not raise. *)
Lemma int_of_fullmatch t :
  fullmatch_signed_digits t = true → ∃ z, Py.int t = Some z.
Proof.
  destruct t as [|c r]; simpl; [discriminate|].
  destruct (Ascii.eqb c "+" || Ascii.eqb c "-") eqn:Hsign.
  - intros [Hne Hd]%andb_true_iff.
    destruct (int_digits_total r 0 Hd false) as [z Hz].
    { right. by destruct r. }
    unfold Py.int, strip.
    apply orb_true_iff in Hsign as [->%Ascii.eqb_eq | ->%Ascii.eqb_eq].
    + rewrite lstrip_id, rstrip_cons, rstrip_digits by done. eauto.
    + rewrite lstrip_id, rstrip_cons, rstrip_digits by done.
      rewrite Hz. simpl. eauto.
  - intros Hd. unfold Py.int. rewrite strip_digits by done.
    destruct (int_digits_total (String c r) 0 Hd false) as [z Hz]; [by right|].
    simpl in Hd. apply andb_true_iff in Hd as [Hc _].
    revert Hz Hsign Hc. clear.
    destruct c as [[] [] [] [] [] [] [] []]; intros Hz Hsign Hc;
      try (vm_compute in Hsign; discriminate); eauto.
Qed.

Lemma _maybe_to_int_spec s :
  let t := Py.strip s in
  (signed_digit_run t → ∃ z, Py.int t = Some z ∧ _maybe_to_int s = PyInt z) ∧
  (¬ signed_digit_run t → _maybe_to_int s = PyStr t).
Proof.
  intros t. unfold _maybe_to_int. fold t.
  destruct (fullmatch_signed_digits t) eqn:Hm.
  - split.
    + intros _. destruct (int_of_fullmatch t Hm) as [z Hz].
      exists z. by rewrite Hz.
    + intros Hn. by apply fullmatch_spec in Hm.
  - split.
    + intros H%fullmatch_spec. congruence.
    + done.
Qed.

End CoercionFacts.

(** ** The scraper: fuzzy selection *)

Section SelectionFacts.
Import Py Scraper.

Variables n_char n_cos : string.

#[local] Arguments match_score : simpl never.
#[local] Arguments cand_gt : simpl never.

Lemma one_le_2 a b : one a b ≤ 2.
Proof. unfold one. repeat case_match; lia. Qed.

Lemma one_exact a b : one a b = 2 ↔ a = b.
Proof.
  unfold one. destruct (String.eqb a b) eqn:E.
  - apply String.eqb_eq in E. done.
  - apply String.eqb_neq in E. split; [|done].
    repeat case_match; lia.
Qed.

Lemma key_lt_trans k1 k2 k3 : key_lt k1 k2 → key_lt k2 k3 → key_lt k1 k3.
Proof. unfold key_lt. lia. Qed.

Lemma key_lt_irrefl k : ¬ key_lt k k.
Proof. unfold key_lt. lia. Qed.

Lemma cand_gt_true r1 r2 :
  cand_gt (rank_key n_char n_cos r1, r1) (rank_key n_char n_cos r2, r2) = Ok true →
  key_lt (rank_key n_char n_cos r2) (rank_key n_char n_cos r1).
Proof.
  unfold cand_gt, key_lt.
  destruct (rank_key n_char n_cos r1) as [s1 m1], (rank_key n_char n_cos r2) as [s2 m2].
  simpl.
  destruct (Z.eqb_spec s1 s2); simpl; [|intros [= ?%Z.gtb_gt]; lia].
  destruct (Z.eqb_spec m1 m2); simpl; [|intros [= ?%Z.gtb_gt]; lia].
  by case_bool_decide.
Qed.

Lemma cand_gt_false r1 r2 :
  cand_gt (rank_key n_char n_cos r1, r1) (rank_key n_char n_cos r2, r2) = Ok false →
  key_lt (rank_key n_char n_cos r1) (rank_key n_char n_cos r2) ∨ r1 = r2.
Proof.
  unfold cand_gt, key_lt.
  destruct (rank_key n_char n_cos r1) as [s1 m1], (rank_key n_char n_cos r2) as [s2 m2].
  simpl.
  destruct (Z.eqb_spec s1 s2); simpl;
    [|destruct (Z.gtb_spec s1 s2); intros ?; simplify_eq; lia].
  destruct (Z.eqb_spec m1 m2); simpl;
    [|destruct (Z.gtb_spec m1 m2); intros ?; simplify_eq; lia].
  case_bool_decide; [auto | done].
Qed.

(** What the loop knows about the rows it has read. *)
Definition best_inv (seen : list CharacterData)
  (best : option (Z * Z * CharacterData)) : Prop :=
  match best with
  | None => ∀ r, r ∈ seen → ¬ survives n_char n_cos r
  | Some (k, r) =>
      k = rank_key n_char n_cos r ∧ r ∈ seen ∧ survives n_char n_cos r ∧
      ∀ r', r' ∈ seen → survives n_char n_cos r' →
        key_lt (rank_key n_char n_cos r') k ∨ r' = r
  end.

Lemma survives_dec r :
  (let sc := match_score n_char n_cos r in (sc.1 <? 0) || (sc.2 <? 0)) = false
  ↔ survives n_char n_cos r.
Proof. unfold survives. simpl. rewrite orb_false_iff, !Z.ltb_ge. done. Qed.

Lemma best_loop_cons r rest best :
  best_loop n_char n_cos (r :: rest) best =
  if ((match_score n_char n_cos r).1 <? 0) || ((match_score n_char n_cos r).2 <? 0)
  then best_loop n_char n_cos rest best
  else
    match best with
    | None => best_loop n_char n_cos rest (Some (rank_key n_char n_cos r, r))
    | Some b =>
        gt ← cand_gt (rank_key n_char n_cos r, r) b;
        best_loop n_char n_cos rest
          (if gt : bool then Some (rank_key n_char n_cos r, r) else best)
    end.
Proof. reflexivity. Qed.

Lemma best_inv_skip seen best r :
  best_inv seen best → ¬ survives n_char n_cos r → best_inv (seen ++ [r]) best.
Proof.
  intros Hinv Hr. destruct best as [[k rb]|]; simpl in *.
  - destruct Hinv as (Hk & Hin & Hsv & Hmax).
    split_and!; [done | apply elem_of_app; by left | done |].
    intros r' [Hr'|Hr']%elem_of_app Hsv'; [auto|].
    apply list_elem_of_singleton in Hr' as ->. done.
  - intros r' [Hr'|Hr']%elem_of_app; [auto|].
    apply list_elem_of_singleton in Hr' as ->. done.
Qed.

Lemma best_inv_keep seen k rb r :
  best_inv seen (Some (k, rb)) →
  key_lt (rank_key n_char n_cos r) k ∨ r = rb →
  best_inv (seen ++ [r]) (Some (k, rb)).
Proof.
  simpl. intros (Hk & Hin & Hsv & Hmax) Hr.
  split_and!; [done | apply elem_of_app; by left | done |].
  intros r' [Hr'|Hr']%elem_of_app Hsv'; [auto|].
  apply list_elem_of_singleton in Hr' as ->. done.
Qed.

Lemma best_inv_take seen best r :
  best_inv seen best → survives n_char n_cos r →
  (∀ k rb, best = Some (k, rb) → key_lt k (rank_key n_char n_cos r)) →
  best_inv (seen ++ [r]) (Some (rank_key n_char n_cos r, r)).
Proof.
  intros Hinv Hsv Hlt. simpl.
  split_and!; [done | apply elem_of_app; right; by apply list_elem_of_singleton | done |].
  intros r' [Hr'|Hr']%elem_of_app Hsv'.
  - destruct best as [[k rb]|]; simpl in Hinv.
    + destruct Hinv as (Hk & Hin & Hsvb & Hmax). left.
      specialize (Hlt k rb eq_refl).
      destruct (Hmax r' Hr' Hsv') as [H | ->].
      * by eapply key_lt_trans.
      * by rewrite <- Hk.
    + by apply Hinv in Hr'.
  - apply list_elem_of_singleton in Hr' as ->. by right.
Qed.

Lemma best_loop_inv rows : ∀ seen best out,
  best_inv seen best →
  best_loop n_char n_cos rows best = Ok out →
  best_inv (seen ++ rows) out.
Proof.
  induction rows as [|r rows IH]; intros seen best out Hinv Hrun.
  - injection Hrun as <-. by rewrite app_nil_r.
  - replace (seen ++ r :: rows) with ((seen ++ [r]) ++ rows)
      by by rewrite <- app_assoc.
    pose proof (survives_dec r) as Hs. cbv zeta in Hs.
    rewrite best_loop_cons in Hrun.
    destruct (((match_score n_char n_cos r).1 <? 0) || ((match_score n_char n_cos r).2 <? 0))
      eqn:Hdead.
    + eapply IH; [|exact Hrun].
      apply best_inv_skip; [done|]. intros Hsv. by apply Hs in Hsv.
    + assert (survives n_char n_cos r) as Hsv by by apply Hs.
      destruct best as [[k rb]|].
      * apply bind_Ok in Hrun as (gt & Hgt & Hrun).
        pose proof Hinv as (-> & _).
        eapply IH; [|exact Hrun].
        destruct gt.
        -- apply cand_gt_true in Hgt.
           apply (best_inv_take _ _ _ Hinv Hsv). by intros ?? [= <- <-].
        -- apply cand_gt_false in Hgt. by apply best_inv_keep.
      * eapply IH; [|exact Hrun].
        by apply (best_inv_take _ _ _ Hinv Hsv).
Qed.

End SelectionFacts.

Section SelectRowFacts.
Import Py Scraper.

(** When the selection returns, the row it returns is a surviving candidate,
    no surviving candidate ranks above it, and a candidate of the same rank
    is the same record. *)
Lemma select_row_ok rows character costume r :
  select_row rows character costume = Ok r →
  r ∈ rows ∧ survives (_norm character) (_norm costume) r ∧
  ∀ r', r' ∈ rows → survives (_norm character) (_norm costume) r' →
    key_lt (rank_key (_norm character) (_norm costume) r')
           (rank_key (_norm character) (_norm costume) r) ∨ r' = r.
Proof.
  intros Hsel. unfold select_row in Hsel.
  case_bool_decide; [done|].
  apply bind_Ok in Hsel as (best & Hloop & Hbest).
  apply (best_loop_inv _ _ rows [] None) in Hloop; [|by intros ? ?%elem_of_nil].
  destruct best as [[[s m] rb]|]; [|done].
  injection Hbest as ->. simpl in Hloop.
  destruct Hloop as (Hk & Hin & Hsv & Hmax). rewrite <- Hk. auto.
Qed.

Lemma best_loop_raises n_char n_cos rows : ∀ best e,
  best_loop n_char n_cos rows best = Raise e → e = TypeError.
Proof.
  induction rows as [|r rows IH]; intros best e; [done|].
  rewrite best_loop_cons. case_match; [apply IH|].
  destruct best as [[[s m] rb]|]; [|apply IH].
  destruct (cand_gt _ _) as [gt|e'] eqn:Hgt; simpl; [apply IH|].
  intros [= <-]. revert Hgt. unfold cand_gt.
  destruct (rank_key _ _ r). repeat case_match; congruence.
Qed.

(** A surviving row rules out the lookup miss. *)
Lemma select_row_no_miss rows character costume r0 :
  r0 ∈ rows → survives (_norm character) (_norm costume) r0 →
  select_row rows character costume ≠ Raise LookupError ∧
  select_row rows character costume ≠ Raise ValueError.
Proof.
  intros Hin Hsv. unfold select_row.
  case_bool_decide as Hnil; [subst; by apply elem_of_nil in Hin|].
  destruct (best_loop _ _ rows None) as [best|e] eqn:Hloop; simpl.
  - apply (best_loop_inv _ _ rows [] None) in Hloop; [|by intros ? ?%elem_of_nil].
    destruct best as [[[s m] rb]|]; [done|].
    simpl in Hloop. by apply Hloop in Hin.
  - by apply best_loop_raises in Hloop as ->.
Qed.

End SelectRowFacts.


Section ScraperClaims.
Import Py Scraper.

(** C2 (ranking and tie-break). The loop compares whole tuples
    [(sum, max, row)]: when two different rows tie on sum and maximum, the
    comparison reaches the rows, which have no ordering, and the call raises
    [TypeError] instead of keeping the first-encountered row. Here the two
    costumes "The Curse" and "The Other" of Celia both rank (3, 2) for the
    query ("Celia", "The"). *)
Theorem get_idle_tie_raises :
  let rows := parse_rows default_id_prefixes sample_tie_html in
  rows =
    [ {| character := "Celia"; costume := "The Curse"; idle := "101";
         cutscene := "201"; char_id := "char000101" |};
      {| character := "Celia"; costume := "The Other"; idle := "102";
         cutscene := "cut_b"; char_id := "char000102" |} ] ∧
  map (rank_key (_norm "Celia") (_norm "The")) rows = [(3, 2); (3, 2)] ∧
  get_idle default_id_prefixes sample_tie_html "Celia" "The" = Raise TypeError ∧
  get_cutscene default_id_prefixes sample_tie_html "Celia" "The" = Raise TypeError.
Proof. vm_compute. repeat split; reflexivity. Qed.

(** C3 (exact match outranks): when some row equals the query on both
    normalized fields, the lookup does not miss, and every row the selection
    returns scores 2 (exact) on both fields, so its normalized character and
    costume equal the query's; [get_idle] and [get_cutscene] return that
    row's value. *)
Theorem exact_match_outranks prefixes html character costume r0 :
  r0 ∈ parse_rows prefixes html →
  _norm (Scraper.character r0) = _norm character →
  _norm (Scraper.costume r0) = _norm costume →
  let rows := parse_rows prefixes html in
  select_row rows character costume ≠ Raise LookupError ∧
  (∀ r, select_row rows character costume = Ok r →
     match_score (_norm character) (_norm costume) r = (2, 2) ∧
     _norm (Scraper.character r) = _norm character ∧
     _norm (Scraper.costume r) = _norm costume) ∧
  (∀ v, get_idle prefixes html character costume = Ok v →
     ∃ r, select_row rows character costume = Ok r ∧ v = _maybe_to_int (idle r)) ∧
  (∀ v, get_cutscene prefixes html character costume = Ok v →
     ∃ r, select_row rows character costume = Ok r ∧ v = _maybe_to_int (cutscene r)).
Proof.
  intros Hin Hc Hs rows.
  assert (match_score (_norm character) (_norm costume) r0 = (2, 2)) as Hex.
  { unfold match_score. f_equal; by apply one_exact. }
  assert (survives (_norm character) (_norm costume) r0) as Hsv0.
  { unfold survives. rewrite Hex. simpl. lia. }
  split_and!.
  - by eapply select_row_no_miss.
  - intros r Hsel. apply select_row_ok in Hsel as (_ & Hsv & Hmax).
    destruct (Hmax r0 Hin Hsv0) as [Hlt | ->].
    + exfalso. revert Hlt Hsv. unfold key_lt, rank_key, survives.
      rewrite Hex. unfold match_score. simpl.
      pose proof (one_le_2 (_norm (Scraper.character r)) (_norm character)).
      pose proof (one_le_2 (_norm (Scraper.costume r)) (_norm costume)).
      lia.
    + split; [done|]. split; done.
  - intros v Hv. unfold get_idle in Hv.
    apply bind_Ok in Hv as (r & Hsel & [= <-]). eauto.
  - intros v Hv. unfold get_cutscene in Hv.
    apply bind_Ok in Hv as (r & Hsel & [= <-]). eauto.
Qed.

Lemma exact_match_outranks_witness :
  get_idle default_id_prefixes sample_exact_html "CELIA" " the" = Ok (PyInt 102) ∧
  ∀ r, select_row (parse_rows default_id_prefixes sample_exact_html) "CELIA" " the" = Ok r →
    match_score (_norm "CELIA") (_norm " the") r = (2, 2).
Proof.
  split; [reflexivity|].
  intros r Hr.
  eapply (exact_match_outranks default_id_prefixes sample_exact_html "CELIA" " the"
            {| character := "Celia"; costume := "The"; idle := "+102";
               cutscene := "cut_b"; char_id := "char000102" |});
    [ | reflexivity | reflexivity | exact Hr ].
  apply list_elem_of_In. vm_compute. right; left; reflexivity.
Defined.

(** C10 (identifier coercion): whenever [get_idle] or [get_cutscene]
    returns, the value is built from the selected row's stored text [t]
    (idle or cutscene) stripped of surrounding whitespace: it is an [int]
    exactly when [t] is an optionally signed run of decimal digits, and is
    then [int(t)]; otherwise it is the text [t] itself. *)
Theorem identifier_coercion prefixes html character costume v :
  (get_idle prefixes html character costume = Ok v →
   ∃ r, select_row (parse_rows prefixes html) character costume = Ok r ∧
     let t := Py.strip (idle r) in
     ((∃ z, v = PyInt z) ↔ signed_digit_run t) ∧
     (signed_digit_run t → ∃ z, Py.int t = Some z ∧ v = PyInt z) ∧
     (¬ signed_digit_run t → v = PyStr t)) ∧
  (get_cutscene prefixes html character costume = Ok v →
   ∃ r, select_row (parse_rows prefixes html) character costume = Ok r ∧
     let t := Py.strip (cutscene r) in
     ((∃ z, v = PyInt z) ↔ signed_digit_run t) ∧
     (signed_digit_run t → ∃ z, Py.int t = Some z ∧ v = PyInt z) ∧
     (¬ signed_digit_run t → v = PyStr t)).
Proof.
  assert (∀ s, let t := Py.strip s in
    ((∃ z, _maybe_to_int s = PyInt z) ↔ signed_digit_run t) ∧
    (signed_digit_run t → ∃ z, Py.int t = Some z ∧ _maybe_to_int s = PyInt z) ∧
    (¬ signed_digit_run t → _maybe_to_int s = PyStr t)) as Hco.
  { intros s t. destruct (_maybe_to_int_spec s) as [Hyes Hno]. fold t in Hyes, Hno.
    split_and!; [|done..]. split.
    - intros [z Hz]. destruct (fullmatch_signed_digits t) eqn:Hm.
      + by apply fullmatch_spec.
      + assert (¬ signed_digit_run t) as Hn
          by (intros H%fullmatch_spec; congruence).
        rewrite (Hno Hn) in Hz. discriminate.
    - intros H. destruct (Hyes H) as (z & _ & Hz). eauto. }
  split; intros Hv.
  - unfold get_idle in Hv. apply bind_Ok in Hv as (r & Hsel & [= <-]).
    exists r. split; [done | apply Hco].
  - unfold get_cutscene in Hv. apply bind_Ok in Hv as (r & Hsel & [= <-]).
    exists r. split; [done | apply Hco].
Qed.

Lemma identifier_coercion_witness :
  ∃ r, select_row (parse_rows default_id_prefixes sample_exact_html) "Celia" "The" = Ok r ∧
    idle r = "+102" ∧
    ((∃ z, PyInt 102 = PyInt z) ↔ signed_digit_run (Py.strip (idle r))).
Proof.
  destruct (identifier_coercion default_id_prefixes sample_exact_html
              "Celia" "The" (PyInt 102)) as [Hidle _].
  destruct (Hidle eq_refl) as (r & Hsel & Hiff & _).
  exists r. split; [exact Hsel|]. split; [|exact Hiff].
  vm_compute in Hsel. injection Hsel as <-. reflexivity.
Defined.

End ScraperClaims.

(** ** The scraper: table reconstruction *)

Section MatrixFacts.
Import Py Scraper.

Lemma col_step_data cells c st st' :
  col_step cells c st = Ok st' → ∃ x, row_data st' = row_data st ++ [x].
Proof.
  unfold col_step. intros H.
  destruct (rowspan_tracker st !! c) as [[remaining value]|].
  { injection H as <-. simpl. eauto. }
  destruct (cells !! cell_index st) as [cell|].
  - apply bind_Ok in H as (tr & _ & [= <-]). simpl. eauto.
  - injection H as <-. simpl. eauto.
Qed.

Lemma col_step_length cells c st st' :
  col_step cells c st = Ok st' →
  length (row_data st') = S (length (row_data st)).
Proof.
  intros [x ->]%col_step_data. rewrite length_app. simpl. lia.
Qed.

Lemma col_step_other cells c c' st st' :
  col_step cells c st = Ok st' → c' ≠ c →
  rowspan_tracker st' !! c' = rowspan_tracker st !! c'.
Proof.
  unfold col_step. intros H Hne.
  destruct (rowspan_tracker st !! c) as [[remaining value]|].
  { injection H as <-. simpl.
    destruct (remaining >? 1); [by rewrite lookup_insert_ne | by rewrite lookup_delete_ne]. }
  destruct (cells !! cell_index st) as [cell|].
  - apply bind_Ok in H as (tr & Htr & [= <-]). simpl.
    destruct (cell_get "rowspan" cell) as [rowspan|]; [|by injection Htr as <-].
    destruct (truthy rowspan); [|by injection Htr as <-].
    destruct (Py.int rowspan) as [n|]; [|done].
    injection Htr as <-. destruct (n >? 1); [by rewrite lookup_insert_ne | done].
  - by injection H as <-.
Qed.

(** A column under an active carry: the carried value is appended, no cell
    of the row is consumed, and the counter is decremented or cleared. *)
Lemma col_step_carry cells c st remaining value :
  rowspan_tracker st !! c = Some (remaining, value) →
  ∃ st', col_step cells c st = Ok st' ∧
    row_data st' = row_data st ++ [value] ∧
    cell_index st' = cell_index st ∧
    (1 < remaining → rowspan_tracker st' !! c = Some (remaining - 1, value)).
Proof.
  intros H. unfold col_step. rewrite H. eexists. split; [done|]. simpl.
  split_and!; [done..|]. intros Hr.
  destruct (Z.gtb_spec remaining 1); [|lia]. by rewrite lookup_insert_eq.
Qed.

(** A free column that takes a cell declaring a span [n > 1]. *)
Lemma col_step_seed cells c st cell rowspan n :
  rowspan_tracker st !! c = None →
  cells !! cell_index st = Some cell →
  cell_get "rowspan" cell = Some rowspan → Py.int rowspan = Some n → 1 < n →
  ∃ st', col_step cells c st = Ok st' ∧
    row_data st' = row_data st ++ [_cell_text cell] ∧
    rowspan_tracker st' !! c = Some (n - 1, _cell_text cell).
Proof.
  intros Hfree Hcell Hspan Hint Hn. unfold col_step.
  rewrite Hfree, Hcell, Hspan, Hint.
  assert (truthy rowspan = true) as ->.
  { destruct rowspan; [|done]. by vm_compute in Hint. }
  destruct (Z.gtb_spec n 1); [|lia]. simpl.
  eexists. split; [done|]. simpl. by rewrite lookup_insert_eq.
Qed.

Lemma row_loop_cons cells a cols st :
  row_loop cells (a :: cols) st =
  col_step cells a st ≫= λ st',
    if (10 <=? length (row_data st'))%nat then Ok st' else row_loop cells cols st'.
Proof. reflexivity. Qed.

Lemma row_loop_app cells l1 : ∀ l2 st,
  (length (row_data st) + length l1 < 10)%nat →
  row_loop cells (l1 ++ l2) st = row_loop cells l1 st ≫= row_loop cells l2.
Proof.
  induction l1 as [|a l1 IH]; intros l2 st Hlen; [done|].
  rewrite <- app_comm_cons, !row_loop_cons. cbn [length] in Hlen.
  destruct (col_step cells a st) as [st'|e] eqn:Hstep; [|done].
  cbn [mbind result_bind].
  apply col_step_length in Hstep.
  destruct (Nat.leb_spec 10 (length (row_data st'))); [lia|].
  apply IH. lia.
Qed.

Lemma row_loop_length cells cols : ∀ st st',
  row_loop cells cols st = Ok st' →
  (length (row_data st) + length cols < 10)%nat →
  length (row_data st') = (length (row_data st) + length cols)%nat.
Proof.
  induction cols as [|a cols IH]; intros st st' H Hlen.
  { injection H as <-. simpl. lia. }
  rewrite row_loop_cons in H. cbn [length] in Hlen |- *.
  apply bind_Ok in H as (st1 & Hstep & H).
  apply col_step_length in Hstep.
  destruct (Nat.leb_spec 10 (length (row_data st1))); [lia|].
  apply IH in H; lia.
Qed.

Lemma row_loop_tracker cells c cols : ∀ st st',
  row_loop cells cols st = Ok st' → c ∉ cols →
  rowspan_tracker st' !! c = rowspan_tracker st !! c.
Proof.
  induction cols as [|a cols IH]; intros st st' H Hc.
  { by injection H as <-. }
  rewrite row_loop_cons in H.
  apply bind_Ok in H as (st1 & Hstep & H).
  apply not_elem_of_cons in Hc as [Hne Hc].
  rewrite <- (col_step_other _ _ _ _ _ Hstep Hne).
  destruct (10 <=? length (row_data st1))%nat; [by injection H as <-|].
  by apply IH.
Qed.

Lemma row_loop_data cells cols : ∀ st st' j,
  row_loop cells cols st = Ok st' → (j < length (row_data st))%nat →
  row_data st' !! j = row_data st !! j.
Proof.
  induction cols as [|a cols IH]; intros st st' j H Hj.
  { by injection H as <-. }
  rewrite row_loop_cons in H.
  apply bind_Ok in H as (st1 & Hstep & H).
  pose proof (col_step_length _ _ _ _ Hstep) as Hlen.
  apply col_step_data in Hstep as [x Hx].
  assert (row_data st1 !! j = row_data st !! j) as <-.
  { rewrite Hx. by apply lookup_app_l. }
  destruct (10 <=? length (row_data st1))%nat; [by injection H as <-|].
  apply IH; [done | lia].
Qed.

(** A completed row, seen from column [c]: the columns before [c], then the
    step at [c], whose effect on column [c] is final. *)
Lemma row_loop_split cells tracker c st :
  (c < 10)%nat →
  row_loop cells (seq 0 20) (row_start tracker) = Ok st →
  ∃ stc stc',
    row_loop cells (seq 0 c) (row_start tracker) = Ok stc ∧
    length (row_data stc) = c ∧
    rowspan_tracker stc !! c = tracker !! c ∧
    col_step cells c stc = Ok stc' ∧
    rowspan_tracker st !! c = rowspan_tracker stc' !! c ∧
    row_data st !! c = row_data stc' !! c.
Proof.
  intros Hc Hrow.
  replace (seq 0 20) with (seq 0 c ++ c :: seq (S c) (19 - c)) in Hrow.
  2:{ replace 20%nat with (c + S (19 - c))%nat by lia.
      by rewrite seq_app. }
  rewrite row_loop_app in Hrow by (simpl; rewrite length_seq; lia).
  apply bind_Ok in Hrow as (stc & Hpre & Hrow).
  rewrite row_loop_cons in Hrow. apply bind_Ok in Hrow as (stc' & Hstep & Hrest).
  pose proof (row_loop_length _ _ _ _ Hpre) as Hlen.
  rewrite length_seq in Hlen. simpl in Hlen. specialize (Hlen ltac:(lia)).
  exists stc, stc'. split_and!; [done | done | | done | |].
  - apply (row_loop_tracker _ c) in Hpre; [done|].
    rewrite elem_of_seq. lia.
  - destruct (10 <=? length (row_data stc'))%nat; [by injection Hrest as <-|].
    apply (row_loop_tracker _ c) in Hrest; [done|]. rewrite elem_of_seq. lia.
  - destruct (10 <=? length (row_data stc'))%nat; [by injection Hrest as <-|].
    apply row_loop_data with (j := c) in Hrest; [done|].
    apply col_step_length in Hstep. lia.
Qed.

Lemma matrix_loop_lookup trs : ∀ tracker matrix j row,
  matrix_loop trs tracker = Ok matrix → matrix !! j = Some row →
  ∃ cells tj st,
    trs !! j = Some cells ∧ tracker_before trs tracker j = Ok tj ∧
    row_loop cells (seq 0 20) (row_start tj) = Ok st ∧ row_data st = row.
Proof.
  induction trs as [|cells trs IH]; intros tracker matrix j row Hm Hrow.
  { injection Hm as <-. done. }
  cbn [matrix_loop] in Hm.
  apply bind_Ok in Hm as (st & Hst & Hm).
  apply bind_Ok in Hm as (rest & Hrest & [= <-]).
  destruct j as [|j].
  - injection Hrow as <-. exists cells, tracker, st. done.
  - destruct (IH _ _ _ _ Hrest Hrow) as (cells' & tj & st' & ? & ? & ? & ?).
    exists cells', tj, st'. split_and!; [done | | done..].
    cbn [tracker_before]. by rewrite Hst.
Qed.

Lemma matrix_loop_length trs : ∀ tracker matrix,
  matrix_loop trs tracker = Ok matrix → length matrix = length trs.
Proof.
  induction trs as [|cells trs IH]; intros tracker matrix Hm.
  { by injection Hm as <-. }
  cbn [matrix_loop] in Hm.
  apply bind_Ok in Hm as (st & Hst & Hm).
  apply bind_Ok in Hm as (rest & Hrest & [= <-]).
  simpl. f_equal. by eapply IH.
Qed.

Lemma tracker_before_S trs : ∀ tracker j tj cells st,
  tracker_before trs tracker j = Ok tj → trs !! j = Some cells →
  row_loop cells (seq 0 20) (row_start tj) = Ok st →
  tracker_before trs tracker (S j) = Ok (rowspan_tracker st).
Proof.
  induction trs as [|cells0 trs IH]; intros tracker j tj cells st Ht Hj Hrow.
  { by rewrite lookup_nil in Hj. }
  destruct j as [|j].
  - cbn [tracker_before] in Ht. change (Some cells0 = Some cells) in Hj.
    simplify_eq. cbn [tracker_before]. by rewrite Hrow.
  - cbn [tracker_before] in Ht |- *.
    apply bind_Ok in Ht as (st0 & Hst0 & Ht). rewrite Hst0. simpl.
    by eapply IH.
Qed.

End MatrixFacts.

Section MatrixClaims.
Import Py Scraper.

(** From a row that starts with column [c] under a carry of [n] remaining
    rows: the next [n] rows repeat the value at [c] without taking a cell. *)
Lemma carry_rows c k : (c < 10)%nat →
  ∀ trs tr0 matrix j tj n v row,
  matrix_loop trs tr0 = Ok matrix →
  tracker_before trs tr0 j = Ok tj → tj !! c = Some (n, v) → Z.of_nat k < n →
  matrix !! (j + k)%nat = Some row →
  row !! c = Some v ∧
  ∃ cells tjk stc stc',
    trs !! (j + k)%nat = Some cells ∧
    tracker_before trs tr0 (j + k) = Ok tjk ∧
    row_loop cells (seq 0 c) (row_start tjk) = Ok stc ∧
    col_step cells c stc = Ok stc' ∧
    cell_index stc' = cell_index stc.
Proof.
  intros Hc. induction k as [|k IH];
    intros trs tr0 matrix j tj n v row Hm Htj Hcarry Hk Hrow.
  - rewrite Nat.add_0_r in *.
    destruct (matrix_loop_lookup _ _ _ _ _ Hm Hrow) as (cells & tj' & st & Hcells & Htj' & Hst & <-).
    rewrite Htj in Htj'. injection Htj' as <-.
    destruct (row_loop_split _ _ _ _ Hc Hst) as (stc & stc' & Hpre & Hlen & Htr & Hstep & _ & Hdata).
    rewrite Hcarry in Htr.
    destruct (col_step_carry cells c stc n v Htr) as (st' & Hstep' & Hrd & Hci & _).
    rewrite Hstep in Hstep'. injection Hstep' as <-.
    split.
    + rewrite Hdata, Hrd, lookup_app_r by lia.
      by replace (c - length (row_data stc))%nat with 0%nat by lia.
    + exists cells, tj, stc, stc'. done.
  - assert (is_Some (matrix !! j)) as [rowj Hrowj].
    { apply lookup_lt_is_Some. apply lookup_lt_Some in Hrow. lia. }
    destruct (matrix_loop_lookup _ _ _ _ _ Hm Hrowj) as (cells & tj' & st & Hcells & Htj' & Hst & _).
    rewrite Htj in Htj'. injection Htj' as <-.
    destruct (row_loop_split _ _ _ _ Hc Hst) as (stc & stc' & Hpre & Hlen & Htr & Hstep & Hfin & _).
    rewrite Hcarry in Htr.
    destruct (col_step_carry cells c stc n v Htr) as (st' & Hstep' & _ & _ & Hdec).
    rewrite Hstep in Hstep'. injection Hstep' as <-.
    rewrite Hdec in Hfin by lia.
    pose proof (tracker_before_S _ _ _ _ _ _ Htj Hcells Hst) as HtS.
    replace (j + S k)%nat with (S j + k)%nat in * by lia.
    eapply (IH trs tr0 matrix (S j)); eauto. lia.
Qed.

(** C4 (row-span reconstruction): suppose that in row [i] of the table the
    column loop reaches column [c] (one of the ten columns it fills) with no
    carry pending there and takes the
    physical cell [cell], whose [rowspan] attribute reads as [N > 1]. Then
    row [i] of the matrix has the cell's text at [c], and so has each of the
    rows [i+1 .. i+N-1] that exist; in those rows the step at column [c]
    leaves the index of the next physical cell unchanged. *)
Theorem rowspan_reconstruction trs matrix i c cells st cell rowspan N :
  _build_table_matrix trs = Ok matrix →
  (c < 10)%nat →
  trs !! i = Some cells →
  state_at trs i c = Ok st →
  rowspan_tracker st !! c = None →
  cells !! cell_index st = Some cell →
  cell_get "rowspan" cell = Some rowspan → Py.int rowspan = Some N → 1 < N →
  (∀ row, matrix !! i = Some row → row !! c = Some (_cell_text cell)) ∧
  ∀ k row, (1 ≤ k)%nat → Z.of_nat k ≤ N - 1 →
    matrix !! (i + k)%nat = Some row →
    row !! c = Some (_cell_text cell) ∧
    ∃ cells_k st_k st_k',
      trs !! (i + k)%nat = Some cells_k ∧
      state_at trs (i + k) c = Ok st_k ∧
      col_step cells_k c st_k = Ok st_k' ∧
      cell_index st_k' = cell_index st_k.
Proof.
  intros Hm Hc Hcells Hst Hfree Hcell Hspan Hint HN.
  unfold _build_table_matrix in Hm. unfold state_at in Hst.
  apply bind_Ok in Hst as (ti & Hti & Hst). rewrite Hcells in Hst.
  assert (∀ row, matrix !! i = Some row →
            row !! c = Some (_cell_text cell) ∧
            tracker_before trs ∅ (S i) ≫= (λ t, Ok (t !! c))
              = Ok (Some (N - 1, _cell_text cell))) as Hown.
  { intros row Hrow.
    destruct (matrix_loop_lookup _ _ _ _ _ Hm Hrow) as (cells' & ti' & sti & Hcells' & Hti' & Hsti & <-).
    rewrite Hcells in Hcells'. injection Hcells' as <-.
    rewrite Hti in Hti'. injection Hti' as <-.
    destruct (row_loop_split _ _ _ _ Hc Hsti) as (stc & stc' & Hpre & Hlen & _ & Hstep & Hfin & Hdata).
    rewrite Hst in Hpre. injection Hpre as <-.
    destruct (col_step_seed cells c st cell rowspan N Hfree Hcell Hspan Hint HN)
      as (st' & Hstep' & Hrd & Htr).
    rewrite Hstep in Hstep'. injection Hstep' as <-.
    split.
    - rewrite Hdata, Hrd, lookup_app_r by lia.
      by replace (c - length (row_data st))%nat with 0%nat by lia.
    - rewrite (tracker_before_S _ _ _ _ _ _ Hti Hcells Hsti). simpl.
      by rewrite Hfin, Htr. }
  split; [intros row Hrow; by apply Hown|].
  intros k row Hk HkN Hrow.
  assert (is_Some (matrix !! i)) as [rowi Hrowi].
  { apply lookup_lt_is_Some. apply lookup_lt_Some in Hrow. lia. }
  destruct (Hown rowi Hrowi) as [_ HtS].
  apply bind_Ok in HtS as (tS & HtS & [= Hcarry]).
  destruct k as [|k]; [lia|].
  replace (i + S k)%nat with (S i + k)%nat in * by lia.
  destruct (carry_rows c k Hc trs ∅ matrix (S i) tS (N - 1) (_cell_text cell) row
              Hm HtS Hcarry ltac:(lia) Hrow)
    as (Hval & cells_k & tjk & stc & stc' & Hck & Htk & Hpre & Hstep & Hci).
  split; [done|].
  exists cells_k, stc, stc'. split_and!; [done | | done | done].
  unfold state_at. rewrite Htk. cbn [mbind result_bind]. by rewrite Hck.
Qed.

Lemma rowspan_reconstruction_witness :
  _build_table_matrix sample_span_rows =
    Ok [ ["1"; "Celia"; "char000101"; "The Curse"; "101"; ""; ""; ""; ""; ""];
         ["2"; "Celia"; "char000102"; "The Other"; "102"; ""; ""; ""; ""; ""];
         ["3"; "Celia"; "Summer"; "103"; ""; ""; ""; ""; ""; ""] ] ∧
  ["3"; "Celia"; "Summer"; "103"; ""; ""; ""; ""; ""; ""] !! 1%nat = Some "Celia".
Proof.
  split; [vm_compute; reflexivity|].
  refine (proj1 (proj2 (rowspan_reconstruction sample_span_rows
            [ ["1"; "Celia"; "char000101"; "The Curse"; "101"; ""; ""; ""; ""; ""];
              ["2"; "Celia"; "char000102"; "The Other"; "102"; ""; ""; ""; ""; ""];
              ["3"; "Celia"; "Summer"; "103"; ""; ""; ""; ""; ""; ""] ]
            0 1
            [td "1"; td_span "3" "Celia"; td "char000101"; td "The Curse"; td "101"]
            {| row_data := ["1"]; cell_index := 1; rowspan_tracker := ∅ |}
            (td_span "3" "Celia") "3" 3
            _ _ _ _ _ _ _ _ _) 2%nat
            ["3"; "Celia"; "Summer"; "103"; ""; ""; ""; ""; ""; ""] _ _ _));
    first [ vm_compute; reflexivity | lia ].
Defined.

End MatrixClaims.

(** ** Catalog resolution *)

Section CdnClaims.
Import Cdn.

Lemma scan_bundles_skip pre : ∀ rest idle_value,
  (∀ b, b ∈ pre → ¬ usable idle_value b) →
  scan_bundles (pre ++ rest) idle_value = scan_bundles rest idle_value.
Proof.
  induction pre as [|b pre IH]; intros rest idle_value Hpre; [done|].
  simpl. rewrite IH by (intros b' Hb'; apply Hpre; by right).
  case_bool_decide as Hname; [|done].
  destruct (readableName b) as [rn|] eqn:Hrn; [|done].
  destruct rn as [|c rn]; [done|].
  exfalso. apply (Hpre b); [by left|]. split; [done|]. eauto.
Qed.

(** C8 as the claim words it: the first entry whose [bundleName] equals the
    identifier decides the result. The sample catalog refutes it: its first
    entry for "char000101" has an empty readable name, and the scan goes on
    to the next entry. *)
Lemma catalog_first_name_match_fails :
  ¬ (∀ entries idle_value pre b rest,
       entries = pre ++ b :: rest →
       (∀ b', b' ∈ pre → bundleName b' ≠ Some idle_value) →
       bundleName b = Some idle_value →
       get_resource_bundle_name_and_hash (Ok {| bundles := Some entries |}) idle_value
       = Ok (Some (default "" (readableName b) +:+ ".bundle", hash b))).
Proof.
  intros H.
  specialize (H _ (PyStr "char000101") []
    {| bundleName := Some (PyStr "char000101"); readableName := Some "";
       hash := Some "h1" |}
    [ {| bundleName := Some (PyStr "char000101");
         readableName := Some "common-skeleton"; hash := Some "h2" |} ]
    eq_refl).
  specialize (H ltac:(by intros ? ?%elem_of_nil) eq_refl).
  vm_compute in H. discriminate.
Qed.

(** C8, amended: the scan returns the readable name with ".bundle" appended
    and the hash of the first entry whose [bundleName] equals the identifier
    and whose readable name is present and non-empty; when the catalog has
    no such entry the result is the absent value, not an exception. *)
Theorem catalog_resolution entries idle_value :
  (∀ pre b rest readable_name,
     entries = pre ++ b :: rest →
     (∀ b', b' ∈ pre → ¬ usable idle_value b') →
     bundleName b = Some idle_value →
     readableName b = Some readable_name → readable_name ≠ "" →
     get_resource_bundle_name_and_hash (Ok {| bundles := Some entries |}) idle_value
     = Ok (Some (readable_name +:+ ".bundle", hash b))) ∧
  ((∀ b, b ∈ entries → ¬ usable idle_value b) →
   get_resource_bundle_name_and_hash (Ok {| bundles := Some entries |}) idle_value
   = Ok None).
Proof.
  split.
  - intros pre b rest rn -> Hpre Hname Hrn Hne. simpl. f_equal.
    rewrite scan_bundles_skip by done. simpl.
    rewrite bool_decide_eq_true_2 by done. rewrite Hrn.
    by destruct rn.
  - intros Hnone. simpl. f_equal.
    rewrite <- (app_nil_r entries). by rewrite scan_bundles_skip.
Qed.

Lemma catalog_resolution_witness :
  get_resource_bundle_name_and_hash (Ok sample_catalog) (PyStr "char000101")
    = Ok (Some ("common-skeleton.bundle", Some "h2")) ∧
  get_resource_bundle_name_and_hash (Ok sample_catalog) (PyInt 7) = Ok None.
Proof.
  split.
  - refine (proj1 (catalog_resolution _ (PyStr "char000101"))
              [ {| bundleName := Some (PyStr "char000101"); readableName := Some "";
                   hash := Some "h1" |} ]
              {| bundleName := Some (PyStr "char000101");
                 readableName := Some "common-skeleton"; hash := Some "h2" |}
              [] "common-skeleton" eq_refl _ eq_refl eq_refl _); [|done].
    intros b' ->%list_elem_of_singleton [_ (rn & [= <-] & Hne)]. done.
  - refine (proj2 (catalog_resolution _ (PyInt 7)) _).
    intros b Hb [Hname _]. revert Hname.
    apply elem_of_cons in Hb as [-> | Hb]; [done|].
    apply list_elem_of_singleton in Hb as ->. done.
Defined.

End CdnClaims.

(** ** The persisted document *)

Section StoreClaims.
Import Store.

Lemma dict_get_pop_eq k d : dict_get k (dict_pop k d) = None.
Proof.
  induction d as [|[k' v] d IH]; [done|]. simpl.
  destruct (String.eqb k k') eqn:E; [done|]. unfold dict_get. simpl. by rewrite E.
Qed.

Lemma dict_get_pop_ne k k' d : k ≠ k' → dict_get k' (dict_pop k d) = dict_get k' d.
Proof.
  intros Hne. induction d as [|[k0 v] d IH]; [done|]. unfold dict_get in *. simpl.
  destruct (String.eqb k k0) eqn:E.
  - apply String.eqb_eq in E as <-.
    assert (String.eqb k' k = false) as -> by (apply String.eqb_neq; congruence).
    done.
  - simpl. by rewrite IH.
Qed.

Lemma dict_get_set_eq k v d : dict_get k (dict_set k v d) = Some v.
Proof.
  induction d as [|[k' v'] d IH]; unfold dict_get in *; simpl.
  - by rewrite String.eqb_refl.
  - destruct (String.eqb k k') eqn:E; simpl; [by rewrite String.eqb_refl|].
    by rewrite E.
Qed.

Lemma dict_get_set_ne k k' v d : k ≠ k' → dict_get k' (dict_set k v d) = dict_get k' d.
Proof.
  intros Hne. apply not_eq_sym, String.eqb_neq in Hne.
  induction d as [|[k0 v0] d IH]; unfold dict_get in *; simpl.
  - by rewrite Hne.
  - destruct (String.eqb k k0) eqn:E; simpl.
    + apply String.eqb_eq in E as <-. by rewrite Hne.
    + by rewrite IH.
Qed.

(** C9 (legacy migration): a document with a top-level leaf-directory list
    ("replaceDir"), version and updateTime and no "authors" key loads into a
    document whose "authors" object holds, under the key "replace", exactly
    the old version, updateTime and directory list; the three flat fields are
    gone from the top level, every other top-level member is kept, and the
    file holds the returned document when the call returns. *)
Theorem legacy_migration replace_dir_name data dirs version update_time :
  dict_get "replaceDir" data = Some dirs →
  dict_get "version" data = Some version →
  dict_get "updateTime" data = Some update_time →
  dict_get "authors" data = None →
  ∃ doc,
    _load_data_json replace_dir_name (Some (JObj data)) = (doc, Some (JObj doc)) ∧
    dict_get "authors" doc =
      Some (JObj [("replace",
                   JObj [("version", version); ("updateTime", update_time);
                         ("dirs", dirs)])]) ∧
    dict_get "replaceDir" doc = None ∧
    dict_get "version" doc = None ∧
    dict_get "updateTime" doc = None ∧
    ∀ k, k ∉ ["replaceDir"; "version"; "updateTime"; "authors"] →
      dict_get k doc = dict_get k data.
Proof.
  intros Hdirs Hver Hupd Hauth.
  set (entry := JObj [("version", version); ("updateTime", update_time); ("dirs", dirs)]).
  set (doc := dict_set "authors" (JObj [("replace", entry)])
                (dict_pop "updateTime" (dict_pop "version" (dict_pop "replaceDir" data)))).
  assert (migrate_flat data (Some (JObj data)) = (doc, Some (JObj doc))) as Hflat.
  { unfold migrate_flat, dict_has. rewrite Hdirs, Hauth. simpl.
    rewrite !dict_get_pop_ne by done. rewrite Hver, Hupd. done. }
  assert (dict_get "authors" doc = Some (JObj [("replace", entry)])) as Hdoc.
  { apply dict_get_set_eq. }
  exists doc. split_and!.
  - unfold _load_data_json. rewrite Hflat, Hdoc.
    cbn [existsb map migrate_author entry is_list snd orb].
    unfold dict_get at 1. cbn [Py.assoc].
    destruct (String.eqb replace_dir_name "replace"); done.
  - done.
  - unfold doc. rewrite dict_get_set_ne, !dict_get_pop_ne by done.
    apply dict_get_pop_eq.
  - unfold doc. rewrite dict_get_set_ne, dict_get_pop_ne by done.
    apply dict_get_pop_eq.
  - unfold doc. rewrite dict_get_set_ne by done. apply dict_get_pop_eq.
  - intros k Hk. unfold doc.
    rewrite dict_get_set_ne, !dict_get_pop_ne; [done|..];
      intros <-; apply Hk; set_solver.
Qed.

Lemma legacy_migration_witness :
  ∃ doc,
    _load_data_json "replace" (Some sample_flat_doc) = (doc, Some (JObj doc)) ∧
    dict_get "authors" doc =
      Some (JObj [("replace",
        JObj [("version", JNum 117); ("updateTime", JNum 20250814);
              ("dirs",
               JArr [JObj [("path", JStr "/bd2/replace/Celia/The Curse/IDLE");
                           ("mtime", JNum 1755129600); ("subfile", JArr [])]])])]) ∧
    dict_get "version" doc = None.
Proof.
  destruct (legacy_migration "replace"
              [("version", JNum 117); ("updateTime", JNum 20250814);
               ("replaceDir",
                JArr [JObj [("path", JStr "/bd2/replace/Celia/The Curse/IDLE");
                            ("mtime", JNum 1755129600); ("subfile", JArr [])]]);
               ("note", JStr "kept")]
              _ _ _ eq_refl eq_refl eq_refl eq_refl)
    as (doc & Hload & Hauthors & _ & Hversion & _).
  exists doc. split_and!; [exact Hload | exact Hauthors | exact Hversion].
Defined.

End StoreClaims.

(** ** Change detection *)

Section ChangeDetectionFacts.
Import Manager.

Lemma drifted_spec a b : drifted a b = true ↔ (1 < Qabs (a - b))%Q.
Proof.
  unfold drifted. destruct (Qlt_le_dec 1 (Qabs (a - b))) as [H|H]; [done|].
  split; [done|]. intros H'. by apply Qle_not_lt in H.
Qed.

Lemma drifted_false a b : drifted a b = false ↔ (Qabs (a - b) <= 1)%Q.
Proof.
  unfold drifted. destruct (Qlt_le_dec 1 (Qabs (a - b))) as [H|H]; [|done].
  split; [done|]. intros H'. by apply Qle_not_lt in H'.
Qed.

Lemma stored_mtime_cons sf stored p :
  stored_mtime (sf :: stored) p =
  match stored_mtime stored p with
  | Some t => Some t
  | None => if decide (sf_path sf = p) then Some (sf_mtime sf) else None
  end.
Proof.
  unfold stored_mtime. rewrite filter_cons.
  destruct (decide (sf_path sf = p)); [|by destruct (last _)].
  rewrite last_cons. by destruct (last _).
Qed.

Lemma existing_subfile_map_fold stored : ∀ (acc : gmap string Q) p,
  fold_left (λ m sf, <[sf_path sf := sf_mtime sf]> m) stored acc !! p =
  match stored_mtime stored p with
  | Some t => Some t
  | None => acc !! p
  end.
Proof.
  induction stored as [|sf stored IH]; intros acc p; [done|].
  simpl. rewrite IH, stored_mtime_cons.
  destruct (stored_mtime stored p); [done|].
  destruct (decide (sf_path sf = p)) as [<-|Hne].
  - by rewrite lookup_insert_eq.
  - by rewrite lookup_insert_ne.
Qed.

Lemma existing_subfile_map_lookup stored p :
  existing_subfile_map stored !! p = stored_mtime stored p.
Proof.
  unfold existing_subfile_map. rewrite existing_subfile_map_fold.
  by destruct (stored_mtime stored p).
Qed.

Lemma stored_mtime_None stored p :
  stored_mtime stored p = None ↔ p ∉ sf_path <$> stored.
Proof.
  induction stored as [|sf stored IH].
  - split; [intros _ H; by apply elem_of_nil in H | done].
  - rewrite stored_mtime_cons, fmap_cons, not_elem_of_cons.
    destruct (stored_mtime stored p) eqn:E.
    + split; [done|]. intros [_ H]. by apply IH in H.
    + destruct (decide (sf_path sf = p)) as [<-|Hne].
      * split; [done|]. by intros [? _].
      * split; [|done]. intros _. split; [done|]. by apply IH.
Qed.

Lemma stored_keys stored p :
  p ∈ (map_to_list (existing_subfile_map stored)).*1 ↔ p ∈ sf_path <$> stored.
Proof.
  rewrite list_elem_of_fmap. split.
  - intros ([p' t] & -> & H%elem_of_map_to_list). simpl.
    rewrite existing_subfile_map_lookup in H.
    destruct (decide (p' ∈ sf_path <$> stored)) as [|Hn]; [done|].
    apply stored_mtime_None in Hn. congruence.
  - intros Hp. destruct (stored_mtime stored p) as [t|] eqn:E.
    + exists (p, t). split; [done|]. apply elem_of_map_to_list.
      by rewrite existing_subfile_map_lookup.
    + by apply stored_mtime_None in E.
Qed.

(** The comparison of one leaf, in the words of the claim. *)
Lemma entry_changed_spec entry current_mtime current_subfiles :
  let stored_time := default 0%Q (mtime entry) in
  let stored := default [] (subfile entry) in
  entry_changed entry current_mtime current_subfiles = true ↔
    (1 < Qabs (current_mtime - stored_time))%Q ∨
    (∃ sf, sf ∈ current_subfiles ∧
       (sf_path sf ∉ sf_path <$> stored ∨
        ∃ t, stored_mtime stored (sf_path sf) = Some t ∧
             (1 < Qabs (sf_mtime sf - t))%Q)) ∨
    (∃ p, p ∈ sf_path <$> stored ∧ p ∉ sf_path <$> current_subfiles).
Proof.
  intros stored_time stored. unfold entry_changed.
  fold stored_time. fold stored.
  destruct (drifted current_mtime stored_time) eqn:Hd.
  { apply drifted_spec in Hd. split; auto. }
  assert (¬ (1 < Qabs (current_mtime - stored_time))%Q) as Hnd.
  { intros H%drifted_spec. congruence. }
  rewrite orb_true_iff, !existsb_exists.
  split.
  - intros [(sf & Hin & Hsf) | (p & Hin & Hp)]; right.
    + left. exists sf. split; [by apply list_elem_of_In|].
      rewrite existing_subfile_map_lookup in Hsf.
      destruct (stored_mtime stored (sf_path sf)) as [t|] eqn:E.
      * right. exists t. split; [done | by apply drifted_spec].
      * left. by apply stored_mtime_None.
    + right. exists p. apply list_elem_of_In, stored_keys in Hin.
      split; [done|].
      apply negb_true_iff, bool_decide_eq_false in Hp.
      by rewrite elem_of_list_to_set in Hp.
  - intros [H | [(sf & Hin & Hsf) | (p & Hin & Hp)]]; [done | left | right].
    + exists sf. split; [by apply list_elem_of_In|].
      rewrite existing_subfile_map_lookup.
      destruct Hsf as [Habs | (t & -> & Hd')].
      * by apply stored_mtime_None in Habs as ->.
      * by apply drifted_spec.
    + exists p. split; [by apply list_elem_of_In, stored_keys|].
      apply negb_true_iff, bool_decide_eq_false.
      by rewrite elem_of_list_to_set.
Qed.

End ChangeDetectionFacts.

Section ChangeDetectionClaim.
Import Manager.

Lemma NoDup_fmap_agree {A B} (f : A → B) (l : list A) x y :
  NoDup (f <$> l) → x ∈ l → y ∈ l → f x = f y → x = y.
Proof.
  induction l as [|a l IH]; intros Hnd Hx Hy Hf; [by apply elem_of_nil in Hx|].
  rewrite fmap_cons in Hnd. apply NoDup_cons in Hnd as [Ha Hnd].
  apply elem_of_cons in Hx as [-> | Hx]; apply elem_of_cons in Hy as [-> | Hy].
  - done.
  - exfalso. apply Ha. rewrite Hf. by apply list_elem_of_fmap_2.
  - exfalso. apply Ha. rewrite <- Hf. by apply list_elem_of_fmap_2.
  - by apply IH.
Qed.

(** C5 (drift tolerance): for a leaf the scan finds and the stored snapshot
    holds, the leaf is listed for update exactly when its aggregate time
    differs from the stored one by more than 1 second, or a current child is
    not among the stored children or differs from its stored time by more
    than 1 second, or a stored child is not among the current children. When
    every compared time is within 1 second and the child lists name the same
    paths, the leaf is not listed. *)
Theorem change_detection project_root replace_rel author server_version
  root existing leaf entry :
  existing_map project_root (default [] (dirs author)) ∅ = Ok existing →
  NoDup (leaf_rel replace_rel <$> leaves root) →
  leaf ∈ leaves root →
  existing !! leaf_rel replace_rel leaf = Some entry →
  let summary :=
    (check_version_and_updates project_root replace_rel author
       (Ok server_version) (Some root)).2 in
  let current_mtime := _get_directory_mtime leaf.2 in
  let current_subfiles :=
    _get_subfiles_info (path_join project_root (leaf_rel replace_rel leaf)) leaf.2 in
  let stored_time := default 0%Q (mtime entry) in
  let stored := default [] (subfile entry) in
  (leaf_rel replace_rel leaf ∈ replace_dirs_to_update summary ↔
     (1 < Qabs (current_mtime - stored_time))%Q ∨
     (∃ sf, sf ∈ current_subfiles ∧
        (sf_path sf ∉ sf_path <$> stored ∨
         ∃ t, stored_mtime stored (sf_path sf) = Some t ∧
              (1 < Qabs (sf_mtime sf - t))%Q)) ∨
     (∃ p, p ∈ sf_path <$> stored ∧ p ∉ sf_path <$> current_subfiles)) ∧
  ((Qabs (current_mtime - stored_time) <= 1)%Q →
   (∀ sf, sf ∈ current_subfiles →
      ∃ t, stored_mtime stored (sf_path sf) = Some t ∧
           (Qabs (sf_mtime sf - t) <= 1)%Q) →
   (∀ p, p ∈ sf_path <$> stored → p ∈ sf_path <$> current_subfiles) →
   leaf_rel replace_rel leaf ∉ replace_dirs_to_update summary).
Proof.
  intros Hmap Hnd Hleaf Hentry summary current_mtime current_subfiles stored_time stored.
  assert (leaf_rel replace_rel leaf ∈ replace_dirs_to_update summary ↔
          entry_changed entry current_mtime current_subfiles = true) as Hlisted.
  { unfold summary, check_version_and_updates. rewrite Hmap. simpl.
    rewrite list_elem_of_fmap. split.
    - intros (leaf' & Hrel & [Hupd Hin]%list_elem_of_filter).
      assert (leaf' = leaf) as -> by by eapply NoDup_fmap_agree.
      unfold leaf_to_update in Hupd. by rewrite Hentry in Hupd.
    - intros Hch. exists leaf. split; [done|].
      apply list_elem_of_filter. split; [|done].
      unfold leaf_to_update. by rewrite Hentry. }
  pose proof (entry_changed_spec entry current_mtime current_subfiles) as Hspec.
  cbv zeta in Hspec. fold stored_time stored in Hspec.
  split; [by rewrite Hlisted|].
  intros Hagg Hchildren Hkept [Hd | [(sf & Hin & Hsf) | (p & Hin & Hp)]]%Hlisted%Hspec.
  - by apply Qle_not_lt in Hagg.
  - destruct (Hchildren sf Hin) as (t & Ht & Hle).
    destruct Hsf as [Habs | (t' & Ht' & Hd)].
    + apply stored_mtime_None in Habs. congruence.
    + rewrite Ht in Ht'. injection Ht' as <-. by apply Qle_not_lt in Hle.
  - by apply Hp, Hkept.
Qed.

Lemma change_detection_witness :
  let summary :=
    (check_version_and_updates "/bd2" "ws/replace" sample_author (Ok 117)
       (Some sample_root)).2 in
  "ws/replace/Celia/The Curse/CUTSCENE" ∈ replace_dirs_to_update summary.
Proof.
  set (leaf := (sample_celia, sample_curse, sample_cutscene)).
  set (entry := {| path := "/bd2/ws/replace/Celia/The Curse/CUTSCENE";
          mtime := Some 990%Q;
          subfile := Some [
            {| sf_path :=
                 "/bd2/ws/replace/Celia/The Curse/CUTSCENE/cutscene_char000101.skel";
               sf_mtime := 990 |} ] |}).
  set (idle_entry := {| path := "/bd2/ws/replace/Celia/The Curse/IDLE";
          mtime := Some 1000%Q;
          subfile := Some [
            {| sf_path := "/bd2/ws/replace/Celia/The Curse/IDLE/char000101.skel";
               sf_mtime := 1000 |};
            {| sf_path := "/bd2/ws/replace/Celia/The Curse/IDLE/char000101.atlas";
               sf_mtime := 1000 |} ] |}).
  refine (proj2 (proj1 (change_detection "/bd2" "ws/replace" sample_author 117
            sample_root
            (<["ws/replace/Celia/The Curse/CUTSCENE" := entry]>
               (<["ws/replace/Celia/The Curse/IDLE" := idle_entry]> ∅))
            leaf entry _ _ _ _)) _).
  - vm_compute. reflexivity.
  - apply (bool_decide_unpack _). vm_compute. exact I.
  - apply list_elem_of_In. vm_compute. auto.
  - vm_compute. reflexivity.
  - left. vm_compute. reflexivity.
Defined.

End ChangeDetectionClaim.

(** ** The directory tree *)

Section TreeFacts.
Import Manager.

Lemma rglob_dir name mtime children :
  rglob (Dir name mtime children) = flat_map (λ c, c :: rglob c) children.
Proof.
  simpl. induction children as [|c l IH]; [done|]. simpl. by rewrite IH.
Qed.

Lemma rglob_has_file dir :
  existsb is_file (rglob dir) = true ↔ file_beneath dir.
Proof.
  induction dir as [name mtime content | name mtime children IH | name]
    using fsnode_children_ind.
  - split; [done|]. inversion 1 as [? c Hc | ? c Hc]; by apply elem_of_nil in Hc.
  - rewrite rglob_dir, existsb_exists. split.
    + intros (x & Hx & Hfile). apply in_flat_map in Hx as (c & Hc & Hx).
      apply list_elem_of_In in Hc.
      destruct Hx as [<- | Hx].
      * by eapply file_beneath_here.
      * eapply file_beneath_deeper; [done|].
        rewrite Forall_forall in IH. apply (IH c Hc).
        apply existsb_exists. eauto.
    + rewrite Forall_forall in IH.
      inversion 1 as [? c Hc Hfile | ? c Hc Hdeep]; subst; simpl in Hc.
      * exists c. split; [|done]. apply in_flat_map. exists c.
        split; [by apply list_elem_of_In | by left].
      * apply (IH c Hc), existsb_exists in Hdeep as (x & Hx & Hfile).
        exists x. split; [|done]. apply in_flat_map. exists c.
        split; [by apply list_elem_of_In | by right].
  - split; [done|]. inversion 1 as [? c Hc | ? c Hc]; by apply elem_of_nil in Hc.
Qed.

Lemma _is_directory_empty_spec dir :
  _is_directory_empty dir = true ↔ ¬ file_beneath dir.
Proof.
  unfold _is_directory_empty. rewrite <- rglob_has_file.
  destruct (existsb is_file (rglob dir)); simpl; split; done.
Qed.

Lemma leaves_spec root level1 level2 level3 :
  (level1, level2, level3) ∈ leaves root ↔
    (level1 ∈ iterdir root ∧ is_dir level1 = true) ∧
    (level2 ∈ iterdir level1 ∧ is_dir level2 = true) ∧
    (level3 ∈ iterdir level2 ∧ is_dir level3 = true).
Proof.
  unfold leaves. rewrite list_elem_of_bind. split.
  - intros (l1 & H & [? ?]%list_elem_of_filter).
    apply list_elem_of_bind in H as (l2 & H & [? ?]%list_elem_of_filter).
    apply list_elem_of_bind in H as (l3 & H & [? ?]%list_elem_of_filter).
    apply list_elem_of_singleton in H. by simplify_eq.
  - intros ([? ?] & [? ?] & [? ?]).
    exists level1. split; [|by apply list_elem_of_filter].
    apply list_elem_of_bind. exists level2. split; [|by apply list_elem_of_filter].
    apply list_elem_of_bind. exists level3. split; [|by apply list_elem_of_filter].
    by apply list_elem_of_singleton.
Qed.

End TreeFacts.

(** ** Planning *)

Section PlanningFacts.
Import Manager.

Variables (project_root replace_rel downloaded_root target_root : string).
Variable valid_prefixes : list string.
Variable html : result (list Scraper.Table).
Variable catalog : result Cdn.Catalog.

#[local] Abbreviation create_task :=
  (_create_replace_task downloaded_root target_root valid_prefixes html catalog).
#[local] Abbreviation walk :=
  (walk_tasks project_root replace_rel downloaded_root target_root
     valid_prefixes html catalog).
#[local] Abbreviation build :=
  (_build_replace_mapping project_root replace_rel downloaded_root target_root
     valid_prefixes html catalog).

Lemma create_task_fields char costume type_name type_dir_path type_dir flag t :
  create_task char costume type_name type_dir_path type_dir flag = Some t →
  Manager.char t = char ∧ Manager.costume t = costume ∧ type t = type_name ∧
  should_execute t = flag.
Proof.
  unfold _create_replace_task. intros H.
  repeat case_match; simplify_eq; done.
Qed.

(** Every task of the walk comes from a leaf that is not empty. *)
Lemma walk_tasks_origin specific_dirs root t :
  t ∈ walk specific_dirs root →
  ∃ leaf, leaf ∈ leaves root ∧ _is_directory_empty leaf.2 = false ∧
    char t = node_name leaf.1.1 ∧ costume t = node_name leaf.1.2 ∧
    type t = node_name leaf.2 ∧
    (incremental specific_dirs = false → should_execute t = true).
Proof.
  unfold walk_tasks. intros Ht.
  apply list_elem_of_In, in_flat_map in Ht as (leaf & Hleaf & Ht).
  apply list_elem_of_In in Hleaf. apply list_elem_of_In in Ht.
  exists leaf. split; [done|].
  destruct leaf as [[char_dir costume_dir] type_dir]. unfold leaf_task in Ht.
  cbn [fst snd].
  destruct (_is_directory_empty type_dir); [by apply elem_of_nil in Ht|].
  split; [done|].
  destruct (_create_replace_task _ _ _ _ _ _ _ _ _ _ _) as [t'|] eqn:Hc;
    [|by apply elem_of_nil in Ht].
  apply list_elem_of_singleton in Ht as ->.
  apply create_task_fields in Hc as (-> & -> & -> & ->).
  split_and!; [done..|]. by intros ->.
Qed.

Lemma executable_targets (l : list ReplaceTask) d :
  d ∈ (list_to_set (target_dir <$> filter (λ t, should_execute t = true) l) : gset string)
  ↔ ∃ t0, t0 ∈ l ∧ should_execute t0 = true ∧ target_dir t0 = d.
Proof.
  rewrite elem_of_list_to_set, list_elem_of_fmap. split.
  - intros (t0 & -> & [? ?]%list_elem_of_filter). eauto.
  - intros (t0 & ? & ? & <-). exists t0. split; [done|].
    by apply list_elem_of_filter.
Qed.

(** The co-target pass keeps every task in place and changes at most its
    flag, which ends up set exactly for the targets of the executable
    tasks. *)
Lemma propagate_spec (l : list ReplaceTask) t :
  t ∈ propagate l →
  ∃ t0, t0 ∈ l ∧ set_should_execute true t = set_should_execute true t0 ∧
    (should_execute t = true ↔
     ∃ t1, t1 ∈ l ∧ should_execute t1 = true ∧ target_dir t1 = target_dir t0).
Proof.
  unfold propagate. intros (t0 & -> & Hin)%list_elem_of_fmap.
  exists t0. split; [done|].
  destruct (should_execute t0) eqn:Hflag; simpl.
  - split; [done|]. rewrite Hflag. split; [eauto | done].
  - case_bool_decide as Hd; rewrite executable_targets in Hd.
    + split; [done|]. simpl. done.
    + split; [done|]. rewrite Hflag. split; [done|]. intros H. by destruct Hd.
Qed.

Lemma propagate_fmap (l : list ReplaceTask) :
  set_should_execute true <$> propagate l = set_should_execute true <$> l.
Proof.
  unfold propagate. rewrite <- list_fmap_compose. apply list_fmap_ext.
  intros i t _. simpl. by repeat case_match.
Qed.

Lemma target_dir_set t t0 :
  set_should_execute true t = set_should_execute true t0 →
  target_dir t = target_dir t0 ∧ char t = char t0 ∧ costume t = costume t0 ∧
  type t = type t0.
Proof. destruct t, t0. unfold set_should_execute. simpl. by intros [=]. Qed.

(** C1 (co-target propagation): in the list [_build_replace_mapping]
    returns, two tasks with the same [target_dir] have the same
    [should_execute], whatever [specific_dirs] is. The returned list has the
    tasks of the walk, in order, up to their flags; and a target that some
    task of the walk was flagged for has all its tasks flagged in the
    returned list. *)
Theorem co_target_propagation specific_dirs replace_dir :
  let tasks := build specific_dirs replace_dir in
  (∀ t1 t2, t1 ∈ tasks → t2 ∈ tasks → target_dir t1 = target_dir t2 →
     should_execute t1 = should_execute t2) ∧
  (∀ root, replace_dir = Some root →
     set_should_execute true <$> tasks
       = set_should_execute true <$> walk specific_dirs root ∧
     ∀ t0 t, t0 ∈ walk specific_dirs root → should_execute t0 = true →
       t ∈ tasks → target_dir t = target_dir t0 → should_execute t = true).
Proof.
  intros tasks. unfold tasks, _build_replace_mapping.
  destruct replace_dir as [root|].
  2:{ split; [by intros ?? ?%elem_of_nil | by intros ? [=]]. }
  destruct (incremental specific_dirs) eqn:Hinc.
  - assert (∀ t, t ∈ propagate (walk specific_dirs root) →
        (should_execute t = true ↔
         ∃ t1, t1 ∈ walk specific_dirs root ∧ should_execute t1 = true ∧
               target_dir t1 = target_dir t)) as Hflag.
    { intros t (t0 & Hin & Heq & Hiff)%propagate_spec.
      apply target_dir_set in Heq as (-> & _). done. }
    split.
    + intros t1 t2 H1%Hflag H2%Hflag Htarget. rewrite Htarget in H1.
      destruct (should_execute t1), (should_execute t2); try done.
      * symmetry. apply H2, H1. done.
      * apply H1, H2. done.
    + intros ? [= <-]. split; [apply propagate_fmap|].
      intros t0 t Ht0 Hexec Ht%Hflag Htarget. apply Ht. eauto.
  - assert (∀ t, t ∈ walk specific_dirs root → should_execute t = true) as Hall.
    { intros t (leaf & _ & _ & _ & _ & _ & H)%walk_tasks_origin. by apply H. }
    split.
    + intros t1 t2 H1%Hall H2%Hall _. congruence.
    + intros ? [= <-]. split; [done|]. intros t0 t _ _ Ht%Hall _. done.
Qed.

(** C6 (empty-leaf exclusion): when the names of sibling directories are
    distinct, a leaf with no regular file anywhere beneath it has no task in
    the list [_build_replace_mapping] returns, whatever [specific_dirs]
    is. *)
Theorem empty_leaf_excluded specific_dirs root char_dir costume_dir type_dir :
  unique_names root →
  (char_dir, costume_dir, type_dir) ∈ leaves root →
  ¬ file_beneath type_dir →
  ∀ t, t ∈ build specific_dirs (Some root) →
    ¬ (char t = node_name char_dir ∧ costume t = node_name costume_dir ∧
       type t = node_name type_dir).
Proof.
  intros (Hu1 & Hu23) Hleaf Hempty t Ht (Hchar & Hcostume & Htype).
  assert (∃ t0, t0 ∈ walk specific_dirs root ∧ char t0 = char t ∧
            costume t0 = costume t ∧ type t0 = type t) as (t0 & Ht0 & Hc & Hs & Hy).
  { unfold _build_replace_mapping in Ht.
    destruct (incremental specific_dirs); [|by exists t].
    apply propagate_spec in Ht as (t0 & Hin & Heq & _).
    apply target_dir_set in Heq as (_ & ? & ? & ?). by exists t0. }
  apply walk_tasks_origin in Ht0
    as ([[c s] y] & Hin & Hfull & Hc' & Hs' & Hy' & _). simpl in *.
  apply leaves_spec in Hleaf as ([Hc1 _] & [Hs1 _] & [Hy1 _]).
  apply leaves_spec in Hin as ([Hc2 _] & [Hs2 _] & [Hy2 _]).
  assert (c = char_dir) as -> by (eapply NoDup_fmap_agree; [done..|congruence]).
  destruct (Hu23 char_dir Hc1) as [Hu2 Hu3].
  assert (s = costume_dir) as -> by (eapply NoDup_fmap_agree; [done..|congruence]).
  assert (y = type_dir) as ->
    by (eapply NoDup_fmap_agree; [by apply Hu3|done..|congruence]).
  apply _is_directory_empty_spec in Hempty. congruence.
Qed.

End PlanningFacts.

Section PlanningWitnesses.
Import Manager.

Lemma co_target_propagation_witness :
  let specific_dirs := Some ["ws/replace/Celia/The Curse/IDLE"] in
  should_execute <$>
    walk_tasks "/bd2" "ws/replace" "/bd2/sourcedata" "/bd2/targetdata/replace"
      Scraper.default_id_prefixes (Ok sample_shared_html) (Ok sample_shared_catalog)
      specific_dirs sample_root = [true; false] ∧
  should_execute <$>
    _build_replace_mapping "/bd2" "ws/replace" "/bd2/sourcedata"
      "/bd2/targetdata/replace" Scraper.default_id_prefixes
      (Ok sample_shared_html) (Ok sample_shared_catalog)
      specific_dirs (Some sample_root) = [true; true] ∧
  should_execute
    {| char := "Celia"; costume := "The Curse"; type := "CUTSCENE";
       replace_dir := "/bd2/ws/replace/Celia/The Curse/CUTSCENE";
       data_name := "common-x.bundle";
       downloaded_dir := "/bd2/sourcedata/common-x.bundle";
       target_dir := "/bd2/targetdata/replace/spine_a/abc/__data";
       mod_name := ""; idle_or_cutscene_value := PyStr "spine_a";
       hash_id := Some "abc"; should_execute := true |} =
  should_execute
    {| char := "Celia"; costume := "The Curse"; type := "IDLE";
       replace_dir := "/bd2/ws/replace/Celia/The Curse/IDLE";
       data_name := "common-x.bundle";
       downloaded_dir := "/bd2/sourcedata/common-x.bundle";
       target_dir := "/bd2/targetdata/replace/spine_a/abc/__data";
       mod_name := ""; idle_or_cutscene_value := PyStr "spine_a";
       hash_id := Some "abc"; should_execute := true |}.
Proof.
  intros specific_dirs.
  split; [vm_compute; reflexivity|]. split; [vm_compute; reflexivity|].
  refine (proj1 (co_target_propagation "/bd2" "ws/replace" "/bd2/sourcedata"
            "/bd2/targetdata/replace" Scraper.default_id_prefixes
            (Ok sample_shared_html) (Ok sample_shared_catalog)
            specific_dirs (Some sample_root)) _ _ _ _ _).
  - apply list_elem_of_In. vm_compute. right; left; reflexivity.
  - apply list_elem_of_In. vm_compute. left; reflexivity.
  - reflexivity.
Defined.

Lemma empty_leaf_excluded_witness :
  let idle_task :=
    {| char := "Celia"; costume := "The Curse"; type := "IDLE";
       replace_dir := "/bd2/ws/replace/Celia/The Curse/IDLE";
       data_name := "common-x.bundle";
       downloaded_dir := "/bd2/sourcedata/common-x.bundle";
       target_dir := "/bd2/targetdata/replace/spine_a/abc/__data";
       mod_name := ""; idle_or_cutscene_value := PyStr "spine_a";
       hash_id := Some "abc"; should_execute := true |} in
  (type <$>
     _build_replace_mapping "/bd2" "ws/replace" "/bd2/sourcedata"
       "/bd2/targetdata/replace" Scraper.default_id_prefixes
       (Ok sample_shared_html) (Ok sample_shared_catalog)
       None (Some sample_root)) = ["IDLE"; "CUTSCENE"] ∧
  ¬ (char idle_task = node_name sample_celia ∧
     costume idle_task = node_name sample_summer ∧
     type idle_task = node_name sample_empty_idle).
Proof.
  intros idle_task. split; [vm_compute; reflexivity|].
  refine (empty_leaf_excluded "/bd2" "ws/replace" "/bd2/sourcedata"
            "/bd2/targetdata/replace" Scraper.default_id_prefixes
            (Ok sample_shared_html) (Ok sample_shared_catalog)
            None sample_root sample_celia sample_summer sample_empty_idle
            _ _ _ _ _).
  - split; [apply (bool_decide_unpack _); vm_compute; exact I|].
    intros level1 ->%list_elem_of_singleton.
    split; [apply (bool_decide_unpack _); vm_compute; exact I|].
    intros level2 Hl2. apply (bool_decide_unpack _).
    repeat (apply elem_of_cons in Hl2 as [-> | Hl2]; [vm_compute; exact I|]).
    by apply elem_of_nil in Hl2.
  - apply list_elem_of_In. vm_compute. right; right; left; reflexivity.
  - apply _is_directory_empty_spec. vm_compute. reflexivity.
  - apply list_elem_of_In. vm_compute. left; reflexivity.
Defined.

End PlanningWitnesses.

(** ** Multi-directory patching *)

Section UnityClaims.
Import Manager Unity.

Lemma exists_in_spec dir name :
  exists_in dir name = true ↔ ∃ c, c ∈ iterdir dir ∧ node_name c = name.
Proof.
  unfold exists_in. rewrite existsb_exists. split.
  - intros (c & Hc%list_elem_of_In & Heq%String.eqb_eq). eauto.
  - intros (c & Hc%list_elem_of_In & Heq%String.eqb_eq). eauto.
Qed.

(** The skip rule: a descriptor of the asset's name without its skeleton. *)
Lemma _should_skip_file_spec name dir :
  _should_skip_file name dir = true ↔
    (∃ c, c ∈ iterdir dir ∧ node_name c = json_name name) ∧
    ¬ (∃ c, c ∈ iterdir dir ∧ node_name c = skel_name name).
Proof.
  unfold _should_skip_file.
  rewrite andb_true_iff, negb_true_iff, <- !exists_in_spec.
  destruct (exists_in dir (skel_name name)); split; intros [? ?]; split; done.
Qed.

Lemma replace_from_passed apply name pre : ∀ rest,
  (∀ d, d ∈ pre → passed_over apply name d) →
  replace_from apply name (pre ++ rest) = replace_from apply name rest.
Proof.
  induction pre as [|d pre IH]; intros rest Hpre; [done|].
  simpl. rewrite IH by (intros d' Hd'; apply Hpre; by right).
  destruct (Hpre d) as [-> | [-> | (f & -> & ->)]];
    [by left | done | by destruct (_should_skip_file name d)..].
Qed.

Lemma process_object_lookup decodes replace_dirs obj :
  process_object decodes replace_dirs obj =
  match lookup_of decodes obj with
  | None => obj
  | Some (name, apply) =>
      match replace_from apply name replace_dirs with
      | Some content => with_payload obj content
      | None => obj
      end
  end.
Proof.
  unfold process_object, lookup_of.
  destruct (obj_type obj), (m_Name obj) as [object_name|]; try done.
  by destruct (_get_file_type object_name).
Qed.

(** C7 as the claim words it: the first directory that has a file of the
    asset's name and is not under the skip rule provides the content. The
    sample refutes it: the texture of the first directory is not an image,
    [_replace_texture] fails on it, and the loop goes on to the second
    directory, whose file is applied. *)
Lemma first_directory_with_file_fails :
  ¬ (∀ decodes objects replace_dirs out i obj name apply pre d rest f,
       process_multiple_replace_dirs decodes (Ok objects) replace_dirs = Some out →
       objects !! i = Some obj →
       lookup_of decodes obj = Some (name, apply) →
       replace_dirs = pre ++ d :: rest →
       (∀ d', d' ∈ pre →
          _should_skip_file name d' = true ∨ _find_replacement_file name d' = None) →
       _should_skip_file name d = false →
       _find_replacement_file name d = Some f →
       ∃ content, file_content f = Some content ∧
         out !! i = Some (with_payload obj content)).
Proof.
  intros H.
  destruct (H sample_decoder sample_bundle [sample_broken_dir; sample_good_dir]
              _ 0%nat _ _ _ [] sample_broken_dir [sample_good_dir]
              (File "char000101.png" 1000 "truncated")
              eq_refl eq_refl eq_refl eq_refl
              ltac:(by intros ? ?%elem_of_nil) eq_refl eq_refl)
    as (content & Hcontent & Hout).
  injection Hcontent as <-. vm_compute in Hout. discriminate.
Qed.

(** C7, amended: the call writes one object per object of the bundle. An
    object that takes part is looked up under its name ([name.png] for a
    texture) in the directories in the given order; a directory is passed
    over when it is under the skip rule for that name, has no file of that
    name, or has one whose replacement fails. The first directory not passed
    over provides the content, later ones are not applied; when all are
    passed over the object is written unchanged. The skip rule holds for a
    directory exactly when it has the descriptor (.json) of the name
    directly in it and not the skeleton (.skel). *)
Theorem directory_priority decodes objects replace_dirs :
  ∃ out,
    process_multiple_replace_dirs decodes (Ok objects) replace_dirs = Some out ∧
    length out = length objects ∧
    ∀ i obj, objects !! i = Some obj →
      match lookup_of decodes obj with
      | None => out !! i = Some obj
      | Some (name, apply) =>
          (∀ pre d rest f content,
             replace_dirs = pre ++ d :: rest →
             (∀ d', d' ∈ pre → passed_over apply name d') →
             _should_skip_file name d = false →
             _find_replacement_file name d = Some f →
             apply f = Some content →
             out !! i = Some (with_payload obj content)) ∧
          ((∀ d, d ∈ replace_dirs → passed_over apply name d) →
           out !! i = Some obj) ∧
          (∀ d, _should_skip_file name d = true ↔
             (∃ c, c ∈ iterdir d ∧ node_name c = json_name name) ∧
             ¬ (∃ c, c ∈ iterdir d ∧ node_name c = skel_name name))
      end.
Proof.
  eexists. split; [done|]. split; [by rewrite length_fmap|].
  intros i obj Hobj. rewrite list_lookup_fmap, Hobj. simpl.
  rewrite process_object_lookup.
  destruct (lookup_of decodes obj) as [[name apply]|]; [|done].
  split_and!.
  - intros pre d rest f content -> Hpre Hskip Hfind Happly.
    rewrite replace_from_passed by done. simpl.
    by rewrite Hskip, Hfind, Happly.
  - intros Hall. rewrite <- (app_nil_r replace_dirs).
    by rewrite replace_from_passed.
  - intros d. apply _should_skip_file_spec.
Qed.

Lemma directory_priority_witness :
  ∃ out,
    process_multiple_replace_dirs sample_decoder (Ok sample_bundle)
      [sample_incomplete_dir; sample_complete_dir] = Some out ∧
    out !! 1%nat
    = Some {| obj_type := TextAsset; m_Name := Some "char000101.atlas";
              payload := "atlas-b" |}.
Proof.
  destruct (directory_priority sample_decoder sample_bundle
              [sample_incomplete_dir; sample_complete_dir])
    as (out & Hout & _ & Hobjs).
  exists out. split; [exact Hout|].
  specialize (Hobjs 1%nat
    {| obj_type := TextAsset; m_Name := Some "char000101.atlas";
       payload := "atlas-old" |} eq_refl).
  destruct Hobjs as (Hfirst & _ & _).
  refine (Hfirst [sample_incomplete_dir] sample_complete_dir []
            (File "char000101.atlas" 1000 "atlas-b") "atlas-b"
            eq_refl _ eq_refl eq_refl eq_refl).
  intros d' ->%list_elem_of_singleton. left. reflexivity.
Defined.

End UnityClaims.

(* ================================================================== *)
(** ** Further properties of the scraper *)

Section MatrixShape.
Import Py Scraper Queries.

Lemma row_loop_full_length cells tracker st :
  row_loop cells (seq 0 20) (row_start tracker) = Ok st →
  length (row_data st) = 10%nat.
Proof.
  intros Hrow.
  change (seq 0 20) with (seq 0 9 ++ 9%nat :: seq 10 10) in Hrow.
  rewrite row_loop_app in Hrow by (simpl; lia).
  apply bind_Ok in Hrow as (st9 & Hpre & Hrow).
  apply row_loop_length in Hpre; [|simpl; lia]. simpl in Hpre.
  rewrite row_loop_cons in Hrow. apply bind_Ok in Hrow as (st10 & Hstep & Hrow).
  apply col_step_length in Hstep.
  destruct (Nat.leb_spec 10 (length (row_data st10))); [|lia].
  injection Hrow as <-. lia.
Qed.

(** X1. The matrix has one row per table row and every row has exactly ten
    columns, however many cells the table row holds. *)
Theorem matrix_shape trs matrix :
  _build_table_matrix trs = Ok matrix →
  length matrix = length trs ∧ ∀ row, row ∈ matrix → length row = 10%nat.
Proof.
  intros Hm. split; [by eapply matrix_loop_length|].
  intros row (j & Hj)%list_elem_of_lookup.
  destruct (matrix_loop_lookup _ _ _ _ _ Hm Hj) as (cells & tj & st & _ & _ & Hst & <-).
  by eapply row_loop_full_length.
Qed.

Lemma matrix_shape_witness :
  length [ ["1"; "Celia"; "char000101"; "The Curse"; "101"; ""; ""; ""; ""; ""];
           ["2"; "Celia"; "char000102"; "The Other"; "102"; ""; ""; ""; ""; ""];
           ["3"; "Celia"; "Summer"; "103"; ""; ""; ""; ""; ""; ""] ]
  = length sample_span_rows.
Proof.
  refine (proj1 (matrix_shape sample_span_rows _ _)).
  vm_compute. reflexivity.
Defined.

Lemma col_step_readable cells c st :
  Forall span_readable cells →
  ∃ st', col_step cells c st = Ok st'.
Proof.
  intros Hcells. unfold col_step.
  destruct (rowspan_tracker st !! c) as [[remaining value]|]; [eauto|].
  destruct (cells !! cell_index st) as [cell|] eqn:Hcell; [|eauto].
  assert (span_readable cell) as Hwf.
  { rewrite Forall_forall in Hcells. apply Hcells.
    by eapply list_elem_of_lookup_2. }
  unfold span_readable in Hwf.
  destruct (cell_get "rowspan" cell) as [rowspan|]; [|simpl; eauto].
  destruct (truthy rowspan); [|simpl; eauto].
  destruct (Hwf eq_refl) as [n ->]. simpl. eauto.
Qed.

Lemma row_loop_readable cells cols : ∀ st,
  Forall span_readable cells → ∃ st', row_loop cells cols st = Ok st'.
Proof.
  induction cols as [|c cols IH]; intros st Hcells; [simpl; eauto|].
  rewrite row_loop_cons.
  destruct (col_step_readable cells c st Hcells) as [st1 ->].
  cbn [mbind result_bind].
  destruct (10 <=? length (row_data st1))%nat; [eauto | by apply IH].
Qed.

Lemma col_step_raises cells c st e :
  col_step cells c st = Raise e → e = ValueError.
Proof.
  unfold col_step. repeat case_match; simpl; congruence.
Qed.

Lemma row_loop_raises cells cols : ∀ st e,
  row_loop cells cols st = Raise e → e = ValueError.
Proof.
  induction cols as [|c cols IH]; intros st e; [done|].
  rewrite row_loop_cons.
  destruct (col_step cells c st) as [st1|e1] eqn:Hstep; cbn [mbind result_bind].
  - destruct (10 <=? length (row_data st1))%nat; [done | apply IH].
  - intros [= <-]. by eapply col_step_raises.
Qed.

(** X2. Building the matrix can only fail with [ValueError], and it does
    not fail on a table in which every [rowspan] attribute that is set and
    not empty reads as an integer. *)
Theorem matrix_errors trs :
  (∀ e, _build_table_matrix trs = Raise e → e = ValueError) ∧
  (Forall (Forall span_readable) trs → ∃ matrix, _build_table_matrix trs = Ok matrix).
Proof.
  unfold _build_table_matrix. generalize (∅ : gmap nat (Z * string)).
  induction trs as [|cells trs IH]; intros tracker.
  { split; [done | simpl; eauto]. }
  cbn [matrix_loop]. split.
  - intros e.
    destruct (row_loop cells _ _) as [st|e1] eqn:Hrow; simpl.
    + destruct (matrix_loop trs _) as [m|e2] eqn:Hm; simpl; [done|].
      intros [= <-]. by eapply (proj1 (IH _)).
    + intros [= <-]. by eapply row_loop_raises.
  - intros [Hcells Htrs]%Forall_cons.
    destruct (row_loop_readable cells (seq 0 20) (row_start tracker) Hcells) as [st ->].
    simpl. destruct (proj2 (IH (rowspan_tracker st)) Htrs) as [m ->]. simpl. eauto.
Qed.

Lemma matrix_errors_witness :
  ∃ matrix, _build_table_matrix sample_span_rows = Ok matrix.
Proof.
  refine (proj2 (matrix_errors sample_span_rows) _).
  repeat (apply Forall_cons; split;
          [repeat (apply Forall_cons; split; [vm_compute; eauto|]); apply Forall_nil_2 |]).
  apply Forall_nil_2.
Defined.

End MatrixShape.

Section RowFacts.
Import Py Scraper Queries.

Lemma parse_row_named prefixes ctx row ctx' out :
  parse_row prefixes ctx row = (ctx', out) →
  ∀ r, r ∈ out → character r ≠ "" ∧ costume r ≠ "".
Proof.
  unfold parse_row. intros H r Hr.
  destruct (5 <=? length row)%nat; [|injection H as <- <-; by apply elem_of_nil in Hr].
  injection H as <- <-.
  match type of Hr with
  | r ∈ (if ?b then _ else _) => destruct b eqn:Hb
  end; [|by apply elem_of_nil in Hr].
  apply list_elem_of_singleton in Hr as ->. simpl.
  apply andb_true_iff in Hb as [Hc Hs].
  split; intros Heq; [rewrite Heq in Hc | rewrite Heq in Hs]; discriminate.
Qed.

Lemma parse_matrix_named prefixes matrix : ∀ ctx r,
  r ∈ parse_matrix prefixes ctx matrix → character r ≠ "" ∧ costume r ≠ "".
Proof.
  induction matrix as [|row matrix IH]; intros ctx r Hr.
  { by apply elem_of_nil in Hr. }
  cbn [parse_matrix] in Hr.
  destruct (parse_row prefixes ctx row) as [ctx' out] eqn:Hrow.
  apply elem_of_app in Hr as [Hr | Hr]; [by eapply parse_row_named | by eapply IH].
Qed.

(** X3. Every row [parse_rows] returns has a non-empty character name and a
    non-empty costume name; a table without a body or with fewer than three
    rows contributes no row. *)
Theorem parse_rows_named prefixes html :
  (∀ r, r ∈ parse_rows prefixes html → character r ≠ "" ∧ costume r ≠ "") ∧
  (∀ trs, (length trs < 3)%nat → parse_table prefixes (Some trs) = []) ∧
  parse_table prefixes None = [].
Proof.
  split_and!; [|intros trs Hlen; unfold parse_table;
                 by destruct (Nat.ltb_spec (length trs) 3); [|lia] | done].
  intros r Hr. unfold parse_rows in Hr.
  apply list_elem_of_In, in_flat_map in Hr as (table & _ & Hr%list_elem_of_In).
  unfold parse_table in Hr.
  destruct table as [trs|]; [|by apply elem_of_nil in Hr].
  destruct (length trs <? 3)%nat; [by apply elem_of_nil in Hr|].
  destruct (_build_table_matrix (drop 2 trs)); [|by apply elem_of_nil in Hr].
  by eapply parse_matrix_named.
Qed.

(** X4. The selection raises [ValueError] on an empty row list, and
    [LookupError] when the list is not empty but no row survives the
    scoring. *)
Theorem select_row_errors rows character costume :
  (rows = [] → select_row rows character costume = Raise ValueError) ∧
  (rows ≠ [] →
   (∀ r, r ∈ rows → ¬ survives (_norm character) (_norm costume) r) →
   select_row rows character costume = Raise LookupError).
Proof.
  split.
  - intros ->. done.
  - intros Hne Hnone. unfold select_row. rewrite bool_decide_eq_false_2 by done.
    assert (∀ l, (∀ r, r ∈ l → ¬ survives (_norm character) (_norm costume) r) →
              best_loop (_norm character) (_norm costume) l None = Ok None) as Hloop.
    { induction l as [|r l IH]; intros Hl; [done|].
      rewrite best_loop_cons.
      assert (¬ survives (_norm character) (_norm costume) r) as Hr
        by (apply Hl; by left).
      rewrite <- survives_dec in Hr. cbv zeta in Hr.
      destruct (_ || _); [|done].
      apply IH. intros r' Hr'. apply Hl. by right. }
    by rewrite Hloop.
Qed.

Lemma select_row_errors_witness :
  select_row (parse_rows default_id_prefixes sample_tie_html) "Lathel" "Homunculus"
  = Raise LookupError.
Proof.
  refine (proj2 (select_row_errors _ "Lathel" "Homunculus") _ _).
  - vm_compute. discriminate.
  - intros r Hr. apply list_elem_of_In in Hr. vm_compute in Hr.
    destruct Hr as [<- | [<- | []]]; vm_compute; intros [H _]; by apply H.
Defined.

(** Without a tie between two different surviving rows the loop never
    raises. *)
Lemma best_loop_no_tie n_char n_cos rows : ∀ seen best,
  best_inv n_char n_cos seen best →
  (∀ r1 r2, r1 ∈ seen ++ rows → r2 ∈ seen ++ rows →
     survives n_char n_cos r1 → survives n_char n_cos r2 →
     rank_key n_char n_cos r1 = rank_key n_char n_cos r2 → r1 = r2) →
  ∃ out, best_loop n_char n_cos rows best = Ok out.
Proof.
  induction rows as [|r rows IH]; intros seen best Hinv Hties; [simpl; eauto|].
  rewrite best_loop_cons.
  assert (∀ best', best_inv n_char n_cos (seen ++ [r]) best' →
            ∃ out, best_loop n_char n_cos rows best' = Ok out) as Hnext.
  { intros best' Hinv'. apply (IH (seen ++ [r])); [done|].
    intros r1 r2. rewrite <- !app_assoc. apply Hties. }
  pose proof (survives_dec n_char n_cos r) as Hs. cbv zeta in Hs.
  destruct (_ || _) eqn:Hdead.
  - apply Hnext, best_inv_skip; [done|]. intros Hsv. by apply Hs in Hsv.
  - assert (survives n_char n_cos r) as Hsv by by apply Hs.
    destruct best as [[k rb]|].
    + pose proof Hinv as (-> & Hin & Hsvb & _).
      destruct (cand_gt _ _) as [gt|e] eqn:Hgt; simpl.
      * destruct gt.
        -- apply cand_gt_true in Hgt. apply Hnext.
           apply (best_inv_take _ _ _ _ _ Hinv Hsv). by intros ?? [= <- <-].
        -- apply cand_gt_false in Hgt. apply Hnext. by apply best_inv_keep.
      * exfalso. revert Hgt. unfold cand_gt.
        destruct (rank_key n_char n_cos r) as [s1 m1] eqn:Hk1,
                 (rank_key n_char n_cos rb) as [s2 m2] eqn:Hk2.
        destruct (Z.eqb_spec s1 s2); simpl; [|done].
        destruct (Z.eqb_spec m1 m2); simpl; [|done].
        case_bool_decide as Hne; [done|]. intros _. apply Hne.
        apply Hties; [| |done|done|congruence].
        -- apply elem_of_app. right. by left.
        -- apply elem_of_app. by left.
    + apply Hnext. by apply (best_inv_take _ _ _ _ _ Hinv Hsv).
Qed.

(** X5. When some row survives and no two different surviving rows have the
    same rank (sum, maximum), the selection returns: the row it returns
    survives and every other surviving row ranks strictly below it. *)
Theorem select_row_unique_best rows character costume r0 :
  r0 ∈ rows → survives (_norm character) (_norm costume) r0 →
  (∀ r1 r2, r1 ∈ rows → r2 ∈ rows →
     survives (_norm character) (_norm costume) r1 →
     survives (_norm character) (_norm costume) r2 →
     rank_key (_norm character) (_norm costume) r1
       = rank_key (_norm character) (_norm costume) r2 → r1 = r2) →
  ∃ r, select_row rows character costume = Ok r ∧ r ∈ rows ∧
    survives (_norm character) (_norm costume) r ∧
    ∀ r', r' ∈ rows → survives (_norm character) (_norm costume) r' → r' ≠ r →
      key_lt (rank_key (_norm character) (_norm costume) r')
             (rank_key (_norm character) (_norm costume) r).
Proof.
  intros Hin Hsv Hties.
  destruct (best_loop_no_tie (_norm character) (_norm costume) rows [] None)
    as [out Hout]; [by intros ? ?%elem_of_nil | done |].
  pose proof (select_row_no_miss rows character costume r0 Hin Hsv) as [Hmiss Hval].
  destruct (select_row rows character costume) as [r|e] eqn:Hsel.
  - exists r. split; [done|].
    apply select_row_ok in Hsel as (? & ? & Hmax). split_and!; [done..|].
    intros r' Hr' Hsv' Hne. by destruct (Hmax r' Hr' Hsv').
  - exfalso. unfold select_row in Hsel.
    case_bool_decide; [by apply Hval|].
    rewrite Hout in Hsel. simpl in Hsel. destruct out as [[[? ?] ?]|]; [done|].
    by apply Hmiss.
Qed.

Lemma select_row_unique_best_witness :
  ∃ r, select_row (parse_rows default_id_prefixes sample_exact_html) "Celia" "The" = Ok r ∧
    costume r = "The".
Proof.
  destruct (select_row_unique_best (parse_rows default_id_prefixes sample_exact_html)
              "Celia" "The"
              {| character := "Celia"; costume := "The"; idle := "+102";
                 cutscene := "cut_b"; char_id := "char000102" |})
    as (r & Hsel & _).
  - apply list_elem_of_In. vm_compute. right; left; reflexivity.
  - vm_compute. split; discriminate.
  - intros r1 r2 H1%list_elem_of_In H2%list_elem_of_In _ _.
    vm_compute in H1, H2.
    destruct H1 as [<- | [<- | []]], H2 as [<- | [<- | []]]; vm_compute; congruence.
  - exists r. split; [exact Hsel|].
    vm_compute in Hsel. injection Hsel as <-. reflexivity.
Defined.

End RowFacts.

Section QueryFacts.
Import Py Scraper Queries.

Lemma find_first {A} (f : A → bool) (l : list A) x :
  find f l = Some x →
  f x = true ∧ ∃ pre post, l = pre ++ x :: post ∧ ∀ y, y ∈ pre → f y = false.
Proof.
  induction l as [|a l IH]; [done|]. simpl.
  destruct (f a) eqn:Ha.
  - intros [= <-]. split; [done|]. exists [], l. split; [done|].
    by intros ? ?%elem_of_nil.
  - intros (Hx & pre & post & -> & Hpre)%IH. split; [done|].
    exists (a :: pre), post. split; [done|].
    intros y [-> | Hy]%elem_of_cons; auto.
Qed.

Lemma find_nothing {A} (f : A → bool) (l : list A) :
  find f l = None → ∀ y, y ∈ l → f y = false.
Proof.
  intros H y Hy%list_elem_of_In. by eapply find_none in H.
Qed.

(** X6. The lookups by identifier agree: when [get_character_by_id] finds a
    row, it is the first row whose identifier equals the query up to letter
    case and surrounding whitespace, and [get_idle_by_id] and
    [get_cutscene_by_id] return that row's values; when it finds none, the
    other two raise [ValueError] on an empty table and [LookupError]
    otherwise. *)
Theorem lookup_by_id prefixes html char_id :
  let rows := parse_rows prefixes html in
  let same_id row :=
    Py.strip (Py.lower (Scraper.char_id row)) = Py.strip (Py.lower char_id) in
  match get_character_by_id prefixes html char_id with
  | Some row =>
      same_id row ∧
      (∃ pre post, rows = pre ++ row :: post ∧ ∀ r, r ∈ pre → ¬ same_id r) ∧
      get_idle_by_id prefixes html char_id = Ok (_maybe_to_int (idle row)) ∧
      get_cutscene_by_id prefixes html char_id = Ok (_maybe_to_int (cutscene row))
  | None =>
      (∀ r, r ∈ rows → ¬ same_id r) ∧
      get_idle_by_id prefixes html char_id
        = Raise (if bool_decide (rows = []) then ValueError else LookupError) ∧
      get_cutscene_by_id prefixes html char_id
        = Raise (if bool_decide (rows = []) then ValueError else LookupError)
  end.
Proof.
  intros rows same_id.
  unfold get_character_by_id, get_idle_by_id, get_cutscene_by_id. fold rows.
  case_bool_decide as Hrows.
  { rewrite Hrows. split_and!; [by intros ? ?%elem_of_nil | done..]. }
  unfold find_by_id.
  destruct (find _ rows) as [row|] eqn:Hfind.
  - apply find_first in Hfind as (Hrow%String.eqb_eq & pre & post & Heq & Hpre).
    split_and!; [done | | done..].
    exists pre, post. split; [done|].
    intros r Hr%Hpre. by apply String.eqb_neq in Hr.
  - split_and!; [|done..].
    intros r Hr. eapply find_nothing in Hfind; [|done].
    by apply String.eqb_neq in Hfind.
Qed.

Lemma filter_sublist {A} (f : A → bool) (l : list A) :
  List.filter f l `sublist_of` l.
Proof.
  induction l as [|a l IH]; [done|]. simpl.
  destruct (f a); [by apply sublist_skip | by apply sublist_cons].
Qed.

Lemma filter_all {A} (f : A → bool) (l : list A) :
  (∀ x, x ∈ l → f x = true) → List.filter f l = l.
Proof.
  induction l as [|a l IH]; intros H; [done|]. simpl.
  rewrite (H a) by by left. f_equal. apply IH. intros x Hx. apply H. by right.
Qed.

(** X7. [search_characters] returns rows of the table in table order, a row
    being kept exactly when its normalized character name contains the
    normalized query or is contained in it; a query that is empty after
    normalization returns every row. *)
Theorem search_characters_spec prefixes html character_name :
  let rows := parse_rows prefixes html in
  let found := search_characters prefixes html character_name in
  found `sublist_of` rows ∧
  (∀ r, r ∈ found ↔
     r ∈ rows ∧
     (Py.contains (_norm character_name) (_norm (character r)) = true ∨
      Py.contains (_norm (character r)) (_norm character_name) = true)) ∧
  (_norm character_name = "" → found = rows).
Proof.
  intros rows found. unfold found, search_characters, get_all_data. fold rows.
  split_and!.
  - apply filter_sublist.
  - intros r. rewrite list_elem_of_In, filter_In, <- list_elem_of_In.
    cbv zeta. by rewrite orb_true_iff.
  - intros ->. apply filter_all. intros r _. cbv zeta.
    by destruct (_norm (character r)).
Qed.

Lemma search_characters_spec_witness :
  search_characters default_id_prefixes sample_tie_html "   "
  = parse_rows default_id_prefixes sample_tie_html.
Proof.
  refine (proj2 (proj2 (search_characters_spec default_id_prefixes
                          sample_tie_html "   ")) _).
  reflexivity.
Defined.

End QueryFacts.

(** ** Further properties of the catalog and the persisted document *)

Section CatalogFacts.
Import Cdn.

(** X8. Identifiers are compared with the catalog's bundle names by value
    and type: text that [_maybe_to_int] turns into an integer resolves to
    nothing in a catalog none of whose bundle names is a number. *)
Theorem numeric_identifier_needs_numeric_name entries text :
  (∀ b z, b ∈ entries → bundleName b ≠ Some (PyInt z)) →
  Scraper.signed_digit_run (Py.strip text) →
  get_resource_bundle_name_and_hash (Ok {| bundles := Some entries |})
    (Scraper._maybe_to_int text) = Ok None.
Proof.
  intros Hnames Hrun.
  destruct (proj1 (_maybe_to_int_spec text) Hrun) as (z & _ & ->).
  simpl. f_equal. rewrite <- (app_nil_r entries).
  rewrite scan_bundles_skip; [done|].
  intros b Hb [Hname _]. by apply (Hnames b z).
Qed.

Lemma numeric_identifier_needs_numeric_name_witness :
  get_resource_bundle_name_and_hash
    (Ok {| bundles := Some [ {| bundleName := Some (PyStr "101");
                                readableName := Some "common-x";
                                hash := Some "abc" |} ] |})
    (Scraper._maybe_to_int "101") = Ok None.
Proof.
  apply numeric_identifier_needs_numeric_name.
  - intros b z ->%list_elem_of_singleton. discriminate.
  - apply fullmatch_spec. reflexivity.
Defined.

End CatalogFacts.

Section StoreFacts.
Import Store.

Lemma dict_get_migrate data authors k :
  dict_get k (map (migrate_author data) authors)
  = (λ v, (migrate_author data (k, v)).2) <$> dict_get k authors.
Proof.
  induction authors as [|[k' v] authors IH]; [done|].
  unfold dict_get in *. cbn [map Py.assoc].
  assert ((migrate_author data (k', v)).1 = k') as Hkey by by destruct v.
  destruct (migrate_author data (k', v)) as [k'' v'] eqn:Hm.
  cbn [fst] in Hkey. subst k''.
  destruct (String.eqb k k') eqn:E; [|exact IH].
  apply String.eqb_eq in E as ->. cbn [fmap option_fmap option_map]. by rewrite Hm.
Qed.

Lemma migrate_author_id data authors :
  existsb (λ e, is_list e.2) authors = false →
  map (migrate_author data) authors = authors.
Proof.
  induction authors as [|[k v] authors IH]; [done|]. simpl.
  intros [Hv Hrest]%orb_false_iff. rewrite IH by done.
  by destruct v.
Qed.

(** X9. A document already in the per-author shape is returned as it is and
    the file is not rewritten: this holds when "authors" is an object none of
    whose members is a bare list and the current author's member, if any, is
    an object. *)
Theorem load_is_stable replace_dir_name data authors :
  dict_get "authors" data = Some (JObj authors) →
  existsb (λ e, is_list e.2) authors = false →
  (∀ v, dict_get replace_dir_name authors = Some v → ∃ members, v = JObj members) →
  _load_data_json replace_dir_name (Some (JObj data)) = (data, Some (JObj data)).
Proof.
  intros Hauthors Hlists Hcurrent. unfold _load_data_json, migrate_flat, dict_has.
  rewrite Hauthors. rewrite andb_false_r. cbn [negb].
  rewrite Hauthors, Hlists, migrate_author_id by done.
  destruct (dict_get replace_dir_name authors) as [v|] eqn:Hv; [|done].
  by destruct (Hcurrent v eq_refl) as [members ->].
Qed.

Lemma load_is_stable_witness :
  let doc :=
    [("note", JStr "kept");
     ("authors",
      JObj [("replace",
             JObj [("version", JNum 117); ("updateTime", JNum 20250814);
                   ("dirs", JArr [])])])] in
  _load_data_json "replace" (Some (JObj doc)) = (doc, Some (JObj doc)).
Proof.
  intros doc.
  refine (load_is_stable "replace" doc _ eq_refl eq_refl _).
  intros v [= <-]. eauto.
Defined.

(** X10. The older per-author shape, in which an author's member is the bare
    directory list: the member becomes an object holding the top-level
    version and updateTime (0 when missing) and the list as "dirs"; the
    top-level version and updateTime are removed, members that are not lists
    are kept, and the file holds the returned document. *)
Theorem author_list_migration replace_dir_name data authors author_name dirs :
  dict_get "authors" data = Some (JObj authors) →
  dict_get author_name authors = Some (JArr dirs) →
  (∀ v, dict_get replace_dir_name authors = Some v →
     is_list v = true ∨ ∃ members, v = JObj members) →
  ∃ doc authors',
    _load_data_json replace_dir_name (Some (JObj data)) = (doc, Some (JObj doc)) ∧
    dict_get "authors" doc = Some (JObj authors') ∧
    dict_get author_name authors' =
      Some (JObj [("version", default (JNum 0) (dict_get "version" data));
                  ("updateTime", default (JNum 0) (dict_get "updateTime" data));
                  ("dirs", JArr dirs)]) ∧
    (∀ k v, dict_get k authors = Some v → is_list v = false →
       dict_get k authors' = Some v) ∧
    dict_get "version" doc = None ∧ dict_get "updateTime" doc = None.
Proof.
  intros Hauthors Hlist Hcurrent.
  set (authors' := map (migrate_author data) authors).
  set (doc := dict_set "authors" (JObj authors')
                (dict_pop "updateTime" (dict_pop "version" data))).
  assert (existsb (λ e, is_list e.2) authors = true) as Hneeded.
  { apply existsb_exists. exists (author_name, JArr dirs). split; [|done].
    clear -Hlist. induction authors as [|[k v] authors IH]; [done|].
    unfold dict_get in Hlist. simpl in Hlist.
    destruct (String.eqb author_name k) eqn:E.
    - apply String.eqb_eq in E as ->. injection Hlist as ->. by left.
    - right. by apply IH. }
  exists doc, authors'. split_and!.
  - unfold _load_data_json, migrate_flat, dict_has.
    rewrite Hauthors. rewrite andb_false_r. cbn [negb].
    rewrite Hauthors, Hneeded. fold authors'. fold doc.
    unfold authors'. rewrite dict_get_migrate.
    destruct (dict_get replace_dir_name authors) as [v|] eqn:Hv; [|done].
    destruct (Hcurrent v eq_refl) as [Hl | [members ->]]; [|done].
    destruct v; try done.
  - apply dict_get_set_eq.
  - unfold authors'. by rewrite dict_get_migrate, Hlist.
  - intros k v Hk Hv. unfold authors'. rewrite dict_get_migrate, Hk.
    by destruct v.
  - unfold doc. rewrite dict_get_set_ne, dict_get_pop_ne by done.
    apply dict_get_pop_eq.
  - unfold doc. rewrite dict_get_set_ne by done. apply dict_get_pop_eq.
Qed.

Lemma author_list_migration_witness :
  ∃ doc authors',
    _load_data_json "replace"
      (Some (JObj [("version", JNum 117);
                   ("authors", JObj [("replace", JArr [JStr "dir"])])]))
      = (doc, Some (JObj doc)) ∧
    dict_get "authors" doc = Some (JObj authors') ∧
    dict_get "replace" authors' =
      Some (JObj [("version", JNum 117); ("updateTime", JNum 0);
                  ("dirs", JArr [JStr "dir"])]).
Proof.
  destruct (author_list_migration "replace"
              [("version", JNum 117);
               ("authors", JObj [("replace", JArr [JStr "dir"])])]
              [("replace", JArr [JStr "dir"])] "replace" [JStr "dir"]
              eq_refl eq_refl)
    as (doc & authors' & Hload & Hdoc & Hentry & _).
  - intros v [= <-]. by left.
  - exists doc, authors'. split_and!; [exact Hload | exact Hdoc | exact Hentry].
Defined.

End StoreFacts.

(** ** Further properties of change detection *)

Section DetectionFacts.
Import Manager.

Lemma py_max_bounds a b : (a <= py_max a b)%Q ∧ (b <= py_max a b)%Q.
Proof.
  unfold py_max. destruct (Qlt_le_dec a b) as [H|H].
  - split; [by apply Qlt_le_weak | apply Qle_refl].
  - split; [apply Qle_refl | done].
Qed.

Lemma fold_mtime_max (l : list fsnode) : ∀ a,
  let m := fold_left (λ max_mtime item,
             if is_file item then py_max max_mtime (stat_mtime item) else max_mtime)
             l a in
  (a <= m)%Q ∧
  (∀ f, f ∈ l → is_file f = true → (stat_mtime f <= m)%Q) ∧
  (m = a ∨ ∃ f, f ∈ l ∧ is_file f = true ∧ m = stat_mtime f).
Proof.
  induction l as [|x l IH]; intros a; cbv zeta; cbn [fold_left].
  { split_and!; [apply Qle_refl | by intros ? ?%elem_of_nil | by left]. }
  destruct (py_max_bounds a (stat_mtime x)) as [Ha Hx].
  destruct (is_file x) eqn:Hfx.
  - destruct (IH (py_max a (stat_mtime x))) as (Hge & Hall & Hatt).
    split_and!.
    + exact (Qle_trans _ _ _ Ha Hge).
    + intros f [-> | Hf]%elem_of_cons Hfile; [|by apply Hall].
      exact (Qle_trans _ _ _ Hx Hge).
    + destruct Hatt as [Heq | (f & Hf & Hfile & Heq)].
      * assert (py_max a (stat_mtime x) = a ∨
                py_max a (stat_mtime x) = stat_mtime x) as [E | E]
          by (unfold py_max; destruct (Qlt_le_dec a (stat_mtime x)); auto).
        -- left. by rewrite Heq.
        -- right. exists x. split_and!; [by left | done | by rewrite Heq].
      * right. exists f. split_and!; [by right | done..].
  - destruct (IH a) as (Hge & Hall & Hatt). split_and!.
    + done.
    + intros f [-> | Hf]%elem_of_cons Hfile; [congruence | by apply Hall].
    + destruct Hatt as [Heq | (f & Hf & Hfile & Heq)]; [by left|].
      right. exists f. split_and!; [by right | done..].
Qed.

(** X11. The aggregate time of a directory is the largest of its own time
    and the times of the regular files anywhere beneath it: it bounds all of
    them and is one of them. *)
Theorem directory_mtime_is_max dir :
  (stat_mtime dir <= _get_directory_mtime dir)%Q ∧
  (∀ f, f ∈ rglob dir → is_file f = true →
     (stat_mtime f <= _get_directory_mtime dir)%Q) ∧
  (_get_directory_mtime dir = stat_mtime dir ∨
   ∃ f, f ∈ rglob dir ∧ is_file f = true ∧ _get_directory_mtime dir = stat_mtime f).
Proof. apply fold_mtime_max. Qed.

Variables (project_root replace_rel : string).

#[local] Abbreviation check :=
  (check_version_and_updates project_root replace_rel).

Lemma listed_is_scanned author server_version replace_dir rel :
  rel ∈ replace_dirs_to_update (check author server_version replace_dir).2 →
  rel ∈ leaf_rel replace_rel <$> from_option leaves [] replace_dir.
Proof.
  unfold check_version_and_updates.
  destruct server_version as [sv|]; [|by intros ?%elem_of_nil].
  destruct (existing_map _ _ _); [|by intros ?%elem_of_nil]. simpl.
  intros (leaf & -> & [_ Hin]%list_elem_of_filter)%list_elem_of_fmap.
  by apply list_elem_of_fmap_2.
Qed.

(** X12. A leaf the scan finds and the stored snapshot does not hold is
    listed for update, and the check reports that an update is needed. *)
Theorem new_leaf_is_listed author server_version root existing leaf :
  existing_map project_root (default [] (dirs author)) ∅ = Ok existing →
  leaf ∈ leaves root →
  existing !! leaf_rel replace_rel leaf = None →
  let result := check author (Ok server_version) (Some root) in
  result.1 = true ∧ leaf_rel replace_rel leaf ∈ replace_dirs_to_update result.2.
Proof.
  intros Hmap Hleaf Hnew result.
  assert (leaf_rel replace_rel leaf ∈ replace_dirs_to_update result.2) as Hin.
  { unfold result, check_version_and_updates. rewrite Hmap. simpl.
    apply list_elem_of_fmap_2, list_elem_of_filter. split; [|done].
    unfold leaf_to_update. by rewrite Hnew. }
  split; [|done].
  revert Hin. unfold result, check_version_and_updates. rewrite Hmap. simpl.
  intros Hin. case_bool_decide as Hnil; [|by rewrite orb_true_r].
  rewrite Hnil in Hin. by apply elem_of_nil in Hin.
Qed.

(** X13. A stored leaf that the scan no longer finds makes the check report
    that an update is needed, and is not itself listed for update. *)
Theorem removed_leaf_needs_update author server_version replace_dir existing rel :
  existing_map project_root (default [] (dirs author)) ∅ = Ok existing →
  is_Some (existing !! rel) →
  rel ∉ leaf_rel replace_rel <$> from_option leaves [] replace_dir →
  let result := check author (Ok server_version) replace_dir in
  result.1 = true ∧ rel ∉ replace_dirs_to_update result.2.
Proof.
  intros Hmap [entry Hentry] Hgone result. split.
  - unfold result, check_version_and_updates. rewrite Hmap. simpl.
    apply orb_true_iff. right. apply existsb_exists. exists rel. split.
    + apply list_elem_of_In, list_elem_of_fmap. exists (rel, entry).
      split; [done|]. by apply elem_of_map_to_list.
    + by rewrite bool_decide_eq_false_2.
  - intros Hin. by apply listed_is_scanned in Hin.
Qed.

End DetectionFacts.

Section DetectionWitnesses.
Import Manager.

Lemma new_leaf_is_listed_witness :
  let result :=
    check_version_and_updates "/bd2" "ws/replace"
      {| version := Some 117; updateTime := Some 117; dirs := None |}
      (Ok 117) (Some sample_root) in
  result.1 = true ∧
  "ws/replace/Celia/Summer/IDLE" ∈ replace_dirs_to_update result.2.
Proof.
  refine (new_leaf_is_listed "/bd2" "ws/replace"
            {| version := Some 117; updateTime := Some 117; dirs := None |}
            117 sample_root ∅ (sample_celia, sample_summer, sample_empty_idle)
            eq_refl _ eq_refl).
  apply list_elem_of_In. vm_compute. right; right; left; reflexivity.
Defined.

Lemma removed_leaf_needs_update_witness :
  let result :=
    check_version_and_updates "/bd2" "ws/replace"
      {| version := Some 117; updateTime := Some 117;
         dirs := Some [ {| path := "/bd2/ws/replace/Celia/Old/IDLE";
                           mtime := Some 1000%Q; subfile := Some [] |} ] |}
      (Ok 117) None in
  result.1 = true ∧
  "ws/replace/Celia/Old/IDLE" ∉ replace_dirs_to_update result.2.
Proof.
  refine (removed_leaf_needs_update "/bd2" "ws/replace" _ 117 None
            (<["ws/replace/Celia/Old/IDLE" :=
                 {| path := "/bd2/ws/replace/Celia/Old/IDLE";
                    mtime := Some 1000%Q; subfile := Some [] |}]> ∅)
            "ws/replace/Celia/Old/IDLE" _ _ _).
  - vm_compute. reflexivity.
  - rewrite lookup_insert_eq. eauto.
  - simpl. by intros ?%elem_of_nil.
Defined.

End DetectionWitnesses.

Section IdempotenceFacts.
Import Manager Pipeline.

Variables (project_root replace_rel : string).

#[local] Abbreviation check :=
  (check_version_and_updates project_root replace_rel).
#[local] Abbreviation persisted :=
  (persisted_author project_root replace_rel).
#[local] Abbreviation entry_of := (snapshot_entry project_root replace_rel).

Lemma append_cons a s1 s2 : String a s1 +:+ s2 = String a (s1 +:+ s2).
Proof. reflexivity. Qed.

Lemma append_assoc (s1 s2 s3 : string) : (s1 +:+ s2) +:+ s3 = s1 +:+ (s2 +:+ s3).
Proof.
  induction s1 as [|a s1 IH]; [done|]. by rewrite !append_cons, IH.
Qed.

Lemma strip_prefix_append pre s : strip_prefix pre (pre +:+ s) = Some s.
Proof.
  induction pre as [|a pre IH]; [by destruct s|].
  rewrite append_cons. simpl. by rewrite Ascii.eqb_refl.
Qed.

(** A path written by the snapshot reads back as the relative path. *)
Lemma relative_to_root_join rel :
  relative_to_root project_root (path_join project_root rel) = Some rel.
Proof.
  unfold relative_to_root, path_join.
  rewrite <- append_assoc. apply strip_prefix_append.
Qed.

Lemma existing_map_snapshot ls : ∀ acc,
  existing_map project_root (entry_of <$> ls) acc =
  Ok (fold_left (λ m leaf, <[leaf_rel replace_rel leaf := entry_of leaf]> m) ls acc).
Proof.
  induction ls as [|leaf ls IH]; intros acc; [done|].
  rewrite fmap_cons. cbn [existing_map fold_left].
  change (path (entry_of leaf))
    with (path_join project_root (leaf_rel replace_rel leaf)).
  by rewrite relative_to_root_join, IH.
Qed.

Lemma snapshot_fold_source ls : ∀ (acc : gmap string ReplaceEntry) k e,
  fold_left (λ m leaf, <[leaf_rel replace_rel leaf := entry_of leaf]> m) ls acc !! k
    = Some e →
  (∃ leaf, leaf ∈ ls ∧ k = leaf_rel replace_rel leaf ∧ e = entry_of leaf) ∨
  acc !! k = Some e.
Proof.
  induction ls as [|leaf ls IH]; intros acc k e H; [by right|].
  cbn [fold_left] in H. apply IH in H as [(leaf' & ? & ? & ?) | H].
  - left. exists leaf'. split; [by right | done].
  - destruct (decide (leaf_rel replace_rel leaf = k)) as [<- | Hne].
    + rewrite lookup_insert_eq in H. injection H as <-.
      left. exists leaf. split; [by left | done].
    + rewrite lookup_insert_ne in H by done. by right.
Qed.

Lemma snapshot_fold_keeps ls : ∀ (acc : gmap string ReplaceEntry) k,
  is_Some (acc !! k) →
  is_Some (fold_left (λ m leaf, <[leaf_rel replace_rel leaf := entry_of leaf]> m)
             ls acc !! k).
Proof.
  induction ls as [|leaf ls IH]; intros acc k H; [done|].
  cbn [fold_left]. apply IH.
  destruct (decide (leaf_rel replace_rel leaf = k)) as [<- | Hne].
  - rewrite lookup_insert_eq. eauto.
  - by rewrite lookup_insert_ne.
Qed.

Lemma snapshot_fold_has ls : ∀ (acc : gmap string ReplaceEntry) leaf,
  leaf ∈ ls →
  is_Some (fold_left (λ m leaf, <[leaf_rel replace_rel leaf := entry_of leaf]> m)
             ls acc !! leaf_rel replace_rel leaf).
Proof.
  induction ls as [|x ls IH]; intros acc leaf Hin; [by apply elem_of_nil in Hin|].
  cbn [fold_left]. apply elem_of_cons in Hin as [-> | Hin]; [|by apply IH].
  apply snapshot_fold_keeps. rewrite lookup_insert_eq. eauto.
Qed.

Lemma stored_mtime_unique stored sf :
  NoDup (sf_path <$> stored) → sf ∈ stored →
  stored_mtime stored (sf_path sf) = Some (sf_mtime sf).
Proof.
  induction stored as [|x stored IH]; intros Hnd Hin; [by apply elem_of_nil in Hin|].
  rewrite fmap_cons in Hnd. apply NoDup_cons in Hnd as [Hx Hnd].
  rewrite stored_mtime_cons.
  apply elem_of_cons in Hin as [-> | Hin].
  - apply stored_mtime_None in Hx as ->. by rewrite decide_True.
  - by rewrite IH.
Qed.

Lemma not_drifted_self a : drifted a a = false.
Proof.
  apply drifted_false. apply Qabs_Qle_condition.
  unfold Qminus. rewrite Qplus_opp_r. split; discriminate.
Qed.

(** A leaf compared with its own snapshot has not changed. *)
Lemma entry_unchanged leaf :
  let dir_path := path_join project_root (leaf_rel replace_rel leaf) in
  NoDup (sf_path <$> _get_subfiles_info dir_path leaf.2) →
  entry_changed (entry_of leaf) (_get_directory_mtime leaf.2)
    (_get_subfiles_info dir_path leaf.2) = false.
Proof.
  intros dir_path Hnd.
  destruct (entry_changed _ _ _) eqn:Hch; [|done]. exfalso.
  apply entry_changed_spec in Hch. cbn [entry_of snapshot_entry mtime subfile default] in Hch.
  fold dir_path in Hch.
  destruct Hch as [Hd | [(sf & Hin & Hsf) | (p & Hin & Hp)]].
  - apply drifted_spec in Hd. by rewrite not_drifted_self in Hd.
  - destruct Hsf as [Habs | (t & Ht & Hd)].
    + apply Habs. by apply list_elem_of_fmap_2.
    + rewrite stored_mtime_unique in Ht by done. injection Ht as <-.
      apply drifted_spec in Hd. by rewrite not_drifted_self in Hd.
  - done.
Qed.

(** An author whose stored data is the snapshot of the tree at the server's
    version needs no update. *)
Lemma in_sync author server_version replace_dir :
  default 0 (version author) = server_version →
  default 0 (updateTime author) = server_version →
  dirs author = Some (entry_of <$> from_option leaves [] replace_dir) →
  NoDup (leaf_rel replace_rel <$> from_option leaves [] replace_dir) →
  (∀ leaf, leaf ∈ from_option leaves [] replace_dir →
     NoDup (sf_path <$> _get_subfiles_info
              (path_join project_root (leaf_rel replace_rel leaf)) leaf.2)) →
  let result := check author (Ok server_version) replace_dir in
  result.1 = false ∧ version_changed result.2 = false ∧
  replace_dirs_to_update result.2 = [].
Proof.
  intros Hv Hu Hdirs Hnd Hsub result.
  unfold result, check_version_and_updates.
  rewrite Hv, Hu, Hdirs. cbn [default from_option id].
  rewrite existing_map_snapshot.
  set (ls := from_option leaves [] replace_dir) in *.
  set (m := fold_left _ ls ∅).
  rewrite Z.eqb_refl. cbn [negb orb fst snd version_changed replace_dirs_to_update].
  assert (∀ leaf, leaf ∈ ls →
            leaf_to_update project_root replace_rel m leaf = false) as Hsame.
  { intros leaf Hleaf. unfold leaf_to_update.
    destruct (snapshot_fold_has ls ∅ leaf Hleaf) as [e He]. fold m in He.
    rewrite He.
    apply snapshot_fold_source in He as [(leaf' & Hleaf' & Hrel & ->) | He];
      [|by rewrite lookup_empty in He].
    assert (leaf' = leaf) as -> by (eapply NoDup_fmap_agree; done).
    apply entry_unchanged. by apply Hsub. }
  assert (filter (λ leaf, leaf_to_update project_root replace_rel m leaf = true) ls = [])
    as ->.
  { clearbody m. clear -Hsame. induction ls as [|x ls IH]; [done|].
    rewrite filter_cons, decide_False.
    - apply IH. intros leaf Hleaf. apply Hsame. by right.
    - rewrite (Hsame x) by by left. done. }
  split_and!; [|done..].
  rewrite fmap_nil, bool_decide_eq_true_2 by done. cbn [negb].
  destruct (existsb _ _) eqn:Hrem; [|done]. exfalso.
  apply existsb_exists in Hrem as (k & Hk%list_elem_of_In & Hgone).
  apply negb_true_iff, bool_decide_eq_false in Hgone. apply Hgone.
  apply list_elem_of_fmap in Hk as ([k' e] & -> & Hke%elem_of_map_to_list).
  apply snapshot_fold_source in Hke as [(leaf & Hleaf & -> & _) | Hke];
    [|by rewrite lookup_empty in Hke].
  cbn [fst]. by apply list_elem_of_fmap_2.
Qed.

(** Once the check needs no update, what it persists is what was stored. *)
Lemma persisted_when_in_sync stored server_version replace_dir :
  (check (default no_author stored) (Ok server_version) replace_dir).1 = false →
  persisted stored (Ok server_version) replace_dir = stored.
Proof.
  intros Hsync. unfold persisted_author.
  assert (negb (server_version =? default 0 (version (default no_author stored)))
          || negb (server_version =? default 0 (updateTime (default no_author stored)))
          = false) as Hsame.
  { revert Hsync. unfold check_version_and_updates.
    destruct (existing_map _ _ _); [|done]. simpl.
    intros [[H _]%orb_false_iff _]%orb_false_iff. done. }
  rewrite Hsame, Hsync. by destruct (existing_map _ _ _).
Qed.

(** X14. Change detection is idempotent: after a check that ran to its end
    and persisted its result, a second check against the same server version
    and an unchanged tree needs no update, reports no version change, lists
    no leaf, and leaves the stored data as it is. Paths of distinct leaves
    and of distinct children are taken to be distinct. *)
Theorem change_detection_idempotent stored server_version replace_dir existing :
  existing_map project_root (default [] (dirs (default no_author stored))) ∅
    = Ok existing →
  NoDup (leaf_rel replace_rel <$> from_option leaves [] replace_dir) →
  (∀ leaf, leaf ∈ from_option leaves [] replace_dir →
     NoDup (sf_path <$> _get_subfiles_info
              (path_join project_root (leaf_rel replace_rel leaf)) leaf.2)) →
  let stored' := persisted stored (Ok server_version) replace_dir in
  let result := check (default no_author stored') (Ok server_version) replace_dir in
  result.1 = false ∧ version_changed result.2 = false ∧
  replace_dirs_to_update result.2 = [] ∧
  persisted stored' (Ok server_version) replace_dir = stored'.
Proof.
  intros Hmap Hnd Hsub stored' result.
  assert (result.1 = false ∧ version_changed result.2 = false ∧
          replace_dirs_to_update result.2 = []) as (H1 & H2 & H3).
  2:{ split_and!; [done..|]. by apply persisted_when_in_sync. }
  unfold result, stored'. clear result stored'.
  destruct (check (default no_author stored) (Ok server_version) replace_dir).1
    eqn:Hfirst.
  - (* the first check persisted a snapshot *)
    unfold persisted_author. rewrite Hmap, Hfirst.
    set (cur := default no_author stored).
    set (changed := negb (server_version =? default 0 (version cur))
                    || negb (server_version =? default 0 (updateTime cur))).
    apply in_sync; try done; cbn [default from_option id version updateTime dirs].
    + destruct changed eqn:Hch; [done|].
      apply orb_false_iff in Hch as [Hv%negb_false_iff%Z.eqb_eq _].
      unfold cur in *. by destruct stored.
    + destruct changed eqn:Hch; [done|].
      apply orb_false_iff in Hch as [_ Hu%negb_false_iff%Z.eqb_eq].
      unfold cur in *. by destruct stored.
  - rewrite persisted_when_in_sync by done.
    revert Hfirst. unfold check_version_and_updates. rewrite Hmap. simpl.
    intros Hall. split; [done|].
    apply orb_false_iff in Hall
      as [[Hch Hdirs%negb_false_iff%bool_decide_eq_true]%orb_false_iff _].
    done.
Qed.

End IdempotenceFacts.

Section IdempotenceWitness.
Import Manager Pipeline.

Lemma change_detection_idempotent_witness :
  let stored' :=
    persisted_author "/bd2" "ws/replace" (Some sample_author) (Ok 118)
      (Some sample_root) in
  (check_version_and_updates "/bd2" "ws/replace" (default no_author stored')
     (Ok 118) (Some sample_root)).1 = false.
Proof.
  refine (proj1 (change_detection_idempotent "/bd2" "ws/replace"
            (Some sample_author) 118 (Some sample_root) _ _ _ _)).
  - vm_compute. reflexivity.
  - apply (bool_decide_unpack _). vm_compute. exact I.
  - intros leaf Hleaf%list_elem_of_In. apply (bool_decide_unpack _).
    vm_compute in Hleaf.
    repeat (destruct Hleaf as [<- | Hleaf]; [vm_compute; exact I|]).
    destruct Hleaf.
Defined.

End IdempotenceWitness.

Section PlanFacts.
Import Manager.

Variables (project_root replace_rel downloaded_root target_root : string).
Variable valid_prefixes : list string.
Variable html : result (list Scraper.Table).
Variable catalog : result Cdn.Catalog.

#[local] Abbreviation create_task :=
  (_create_replace_task downloaded_root target_root valid_prefixes html catalog).
#[local] Abbreviation walk :=
  (walk_tasks project_root replace_rel downloaded_root target_root
     valid_prefixes html catalog).
#[local] Abbreviation task_of :=
  (leaf_task project_root replace_rel downloaded_root target_root
     valid_prefixes html catalog).
#[local] Abbreviation build :=
  (_build_replace_mapping project_root replace_rel downloaded_root target_root
     valid_prefixes html catalog).
#[local] Abbreviation slashes := (Py.replace "\" "/").

#[local] Abbreviation walk_flag := (Planning.walk_flag replace_rel).

(** A task of the walk is the task created for a leaf that is not empty,
    with the flag of the walk. *)
Lemma walk_task_created specific_dirs root t :
  t ∈ walk specific_dirs root ↔
  ∃ leaf, leaf ∈ leaves root ∧ _is_directory_empty leaf.2 = false ∧
    create_task (node_name leaf.1.1) (node_name leaf.1.2) (node_name leaf.2)
      (path_join project_root (leaf_rel replace_rel leaf)) leaf.2
      (walk_flag specific_dirs leaf) = Some t.
Proof.
  unfold walk_tasks. rewrite list_elem_of_In, in_flat_map. split.
  - intros (leaf & Hleaf%list_elem_of_In & Ht%list_elem_of_In).
    exists leaf. split; [done|].
    destruct leaf as [[char_dir costume_dir] type_dir]. unfold leaf_task in Ht.
    cbn [fst snd].
    destruct (_is_directory_empty type_dir); [by apply elem_of_nil in Ht|].
    split; [done|]. fold (Planning.walk_flag replace_rel specific_dirs (char_dir, costume_dir, type_dir)) in Ht.
    destruct (_create_replace_task _ _ _ _ _ _ _ _ _ _ _) as [t'|] eqn:Hc;
      [|by apply elem_of_nil in Ht].
    by apply list_elem_of_singleton in Ht as ->.
  - intros (leaf & Hleaf & Hfull & Hc). exists leaf.
    split; [by apply list_elem_of_In|]. apply list_elem_of_In.
    destruct leaf as [[char_dir costume_dir] type_dir]. unfold leaf_task.
    cbn [fst snd] in *. rewrite Hfull.
    fold (Planning.walk_flag replace_rel specific_dirs (char_dir, costume_dir, type_dir)).
    rewrite Hc. by apply list_elem_of_singleton.
Qed.

(** Every task of the plan is a task of the walk up to its flag. *)
Lemma build_origin specific_dirs replace_dir t :
  t ∈ build specific_dirs replace_dir →
  ∃ root t0, replace_dir = Some root ∧ t0 ∈ walk specific_dirs root ∧
    set_should_execute true t = set_should_execute true t0.
Proof.
  unfold _build_replace_mapping. destruct replace_dir as [root|];
    [|by intros ?%elem_of_nil].
  intros Ht. exists root.
  destruct (incremental specific_dirs).
  - apply propagate_spec in Ht as (t0 & Ht0 & Heq & _). eauto.
  - eauto.
Qed.

Lemma create_task_shape char costume type_name type_dir_path type_dir flag t :
  create_task char costume type_name type_dir_path type_dir flag = Some t →
  Manager.replace_dir t = type_dir_path ∧
  (Py.upper_ascii_only type_name = "IDLE" ∨
   Py.upper_ascii_only type_name = "CUTSCENE") ∧
  Py.truthy_val (idle_or_cutscene_value t) = true ∧
  Cdn.get_resource_bundle_name_and_hash catalog (idle_or_cutscene_value t)
    = Ok (Some (data_name t, hash_id t)) ∧
  downloaded_dir t = downloaded_root +:+ "/" +:+ data_name t ∧
  target_dir t = target_root +:+ "/" +:+ Py.format (idle_or_cutscene_value t)
                   +:+ "/" +:+ format_hash (hash_id t) +:+ "/__data".
Proof.
  unfold _create_replace_task. intros H.
  destruct (String.eqb (Py.upper_ascii_only type_name) "IDLE") eqn:Hidle.
  - apply String.eqb_eq in Hidle.
    repeat case_match; simplify_eq; cbn.
    split_and!; try done; [by left | by apply negb_false_iff].
  - destruct (String.eqb (Py.upper_ascii_only type_name) "CUTSCENE") eqn:Hcut;
      [|done].
    apply String.eqb_eq in Hcut.
    repeat case_match; simplify_eq; cbn.
    split_and!; try done; [by right | by apply negb_false_iff].
Qed.

Lemma set_flag_fields t t0 :
  set_should_execute true t = set_should_execute true t0 →
  Manager.replace_dir t = Manager.replace_dir t0 ∧
  type t = type t0 ∧
  idle_or_cutscene_value t = idle_or_cutscene_value t0 ∧
  data_name t = data_name t0 ∧ hash_id t = hash_id t0 ∧
  downloaded_dir t = downloaded_dir t0 ∧ target_dir t = target_dir t0.
Proof. destruct t, t0. unfold set_should_execute. simpl. by intros [=]. Qed.

(** X15. Every task of the plan, in either mode, belongs to a leaf of the
    walk that is not empty and is named IDLE or CUTSCENE up to case; its
    value is truthy and resolves in the catalog to the task's bundle name and
    hash; and its download and target paths are built from these. *)
Theorem plan_task_shape specific_dirs replace_dir t :
  t ∈ build specific_dirs replace_dir →
  ∃ root leaf, replace_dir = Some root ∧ leaf ∈ leaves root ∧
    _is_directory_empty leaf.2 = false ∧
    Manager.replace_dir t = path_join project_root (leaf_rel replace_rel leaf) ∧
    type t = node_name leaf.2 ∧
    (Py.upper_ascii_only (type t) = "IDLE" ∨
     Py.upper_ascii_only (type t) = "CUTSCENE") ∧
    Py.truthy_val (idle_or_cutscene_value t) = true ∧
    Cdn.get_resource_bundle_name_and_hash catalog (idle_or_cutscene_value t)
      = Ok (Some (data_name t, hash_id t)) ∧
    downloaded_dir t = downloaded_root +:+ "/" +:+ data_name t ∧
    target_dir t = target_root +:+ "/" +:+ Py.format (idle_or_cutscene_value t)
                     +:+ "/" +:+ format_hash (hash_id t) +:+ "/__data".
Proof.
  intros (root & t0 & -> & Ht0 & Heq)%build_origin.
  apply walk_task_created in Ht0 as (leaf & Hleaf & Hfull & Hc).
  exists root, leaf.
  apply set_flag_fields in Heq as (-> & -> & -> & -> & -> & -> & ->).
  pose proof (create_task_fields _ _ _ _ _ _ _ _ _ _ _ _ Hc) as (_ & _ & Htype & _).
  apply create_task_shape in Hc as (? & ? & ? & ? & ? & ?).
  rewrite Htype. split_and!; done.
Qed.

Lemma slashes_cons c s :
  slashes (String c s) =
  String (if Ascii.eqb c "\" then "/"%char else c) (slashes s).
Proof.
  unfold Py.replace. cbn [Py.replace_go String.prefix String.length Nat.sub].
  destruct (ascii_dec "\" c) as [<-|Hne].
  - by destruct s.
  - destruct (Ascii.eqb_spec c "\"); [by subst|done].
Qed.

(** Replacing backslashes a second time changes nothing. *)
Lemma slashes_idem s : slashes (slashes s) = slashes s.
Proof.
  induction s as [|c s IH]; [done|].
  rewrite !slashes_cons, IH. f_equal.
  destruct (Ascii.eqb_spec c "\"); [done|].
  by destruct (Ascii.eqb_spec c "\").
Qed.

Lemma incremental_fmap (f : string → string) (specific_dirs : option (list string)) :
  incremental (fmap (M:=list) f <$> specific_dirs) = incremental specific_dirs.
Proof. by destruct specific_dirs as [[|??]|]. Qed.

(** X16. Backslashes in the listed directories do not matter: the plan for
    a list is the plan for the list with every backslash replaced by a
    slash. *)
Theorem plan_ignores_backslashes (specific_dirs : option (list string)) replace_dir :
  _build_replace_mapping project_root replace_rel downloaded_root target_root
    valid_prefixes html catalog
    (fmap (M:=list) (Py.replace "\" "/") <$> specific_dirs) replace_dir
  = _build_replace_mapping project_root replace_rel downloaded_root target_root
      valid_prefixes html catalog specific_dirs replace_dir.
Proof.
  assert (specific_dirs_set (fmap (M:=list) slashes <$> specific_dirs)
          = specific_dirs_set specific_dirs) as Hset.
  { unfold specific_dirs_set. rewrite incremental_fmap.
    destruct specific_dirs as [ds|]; [|done]. cbn [fmap option_fmap option_map default].
    destruct (incremental (Some ds)); [|done]. f_equal. unfold id.
    rewrite <- list_fmap_compose. apply list_fmap_ext. intros _ s _.
    apply slashes_idem. }
  unfold _build_replace_mapping. destruct replace_dir as [root|]; [|done].
  rewrite incremental_fmap.
  assert (walk (fmap (M:=list) slashes <$> specific_dirs) root = walk specific_dirs root) as ->;
    [|done].
  unfold walk_tasks. apply flat_map_ext. intros [[char_dir costume_dir] type_dir].
  unfold leaf_task. by rewrite incremental_fmap, Hset.
Qed.

(** X17. Without a list, or with an empty one, the plan is the full plan:
    the same tasks, every one of them to be executed. *)
Theorem full_plan_executes_all replace_dir :
  let plan specific_dirs :=
    _build_replace_mapping project_root replace_rel downloaded_root target_root
      valid_prefixes html catalog specific_dirs replace_dir in
  plan (Some []) = plan None ∧
  ∀ t, t ∈ plan None → should_execute t = true.
Proof.
  intros plan. unfold plan. split; [done|]. unfold _build_replace_mapping.
  destruct replace_dir as [root|]; [|by intros ? ?%elem_of_nil].
  cbn [incremental]. intros t (leaf & _ & _ & Hc)%walk_task_created.
  by apply create_task_fields in Hc as (_ & _ & _ & ->).
Qed.

Lemma path_join_inj parent a b : path_join parent a = path_join parent b → a = b.
Proof.
  unfold path_join. induction parent as [|c parent IH]; simpl.
  - by intros [=].
  - intros [=]. by apply IH.
Qed.

(** X18. In incremental mode a task of the plan is executed exactly when
    some task of the plan with the same target belongs to a listed
    directory, backslashes apart; no other task is executed. *)
Theorem incremental_executes_exactly d ds root t :
  t ∈ build (Some (d :: ds)) (Some root) →
  (should_execute t = true ↔
   ∃ leaf t1, leaf ∈ leaves root ∧
     slashes (leaf_rel replace_rel leaf) ∈ slashes <$> (d :: ds) ∧
     t1 ∈ build (Some (d :: ds)) (Some root) ∧
     Manager.replace_dir t1 = path_join project_root (leaf_rel replace_rel leaf) ∧
     target_dir t1 = target_dir t).
Proof.
  set (sd := Some (d :: ds)).
  assert (∀ leaf, walk_flag sd leaf = true ↔
            slashes (leaf_rel replace_rel leaf) ∈ slashes <$> (d :: ds)) as Hflag.
  { intros leaf. unfold Planning.walk_flag, specific_dirs_set. cbn [sd incremental default].
    rewrite bool_decide_eq_true. apply elem_of_list_to_set. }
  unfold _build_replace_mapping. cbn [sd incremental]. fold sd.
  intros Ht.
  pose proof (propagate_spec _ _ Ht) as (t0 & Ht0 & Heq & Hiff).
  apply target_dir_set in Heq as (Htarget & _). rewrite Hiff, <- Htarget.
  clear t0 Ht0 Hiff Htarget. split.
  - intros (t1 & Ht1 & Hexec & Htarget).
    pose proof Ht1 as (leaf & Hleaf & Hfull & Hc)%walk_task_created.
    pose proof (create_task_fields _ _ _ _ _ _ _ _ _ _ _ _ Hc) as (_ & _ & _ & Hf).
    pose proof (create_task_shape _ _ _ _ _ _ _ Hc) as (Hdir & _).
    apply list_elem_of_lookup in Ht1 as [i Hi].
    assert (∃ t1', propagate (walk sd root) !! i = Some t1' ∧
              set_should_execute true t1' = set_should_execute true t1)
      as (t1' & Hi' & Heq).
    { unfold propagate. rewrite list_lookup_fmap, Hi. cbn.
      eexists; split; [done|]. by repeat case_match. }
    exists leaf, t1'. apply set_flag_fields in Heq as (-> & _ & _ & _ & _ & _ & ->).
    split_and!; try done.
    + apply Hflag. congruence.
    + by eapply list_elem_of_lookup_2.
  - intros (leaf & t1 & Hleaf & Hlisted & Ht1 & Hdir & Htarget).
    apply propagate_spec in Ht1 as (t0 & Ht0 & Heq & _).
    apply set_flag_fields in Heq as (Hd & _ & _ & _ & _ & _ & Htd).
    exists t0. split; [done|]. split; [|by rewrite <- Htd].
    apply walk_task_created in Ht0 as (leaf' & Hleaf' & Hfull & Hc).
    pose proof (create_task_fields _ _ _ _ _ _ _ _ _ _ _ _ Hc) as (_ & _ & _ & ->).
    apply create_task_shape in Hc as (Hdir' & _).
    assert (leaf_rel replace_rel leaf' = leaf_rel replace_rel leaf) as Hrel.
    { apply (path_join_inj project_root). by rewrite <- Hdir', <- Hd. }
    apply Hflag. by rewrite Hrel.
Qed.

End PlanFacts.

Section PlanWitnesses.
Import Manager.

Lemma plan_task_shape_witness :
  let t :=
    {| char := "Celia"; costume := "The Curse"; type := "CUTSCENE";
       replace_dir := "/bd2/ws/replace/Celia/The Curse/CUTSCENE";
       data_name := "common-x.bundle";
       downloaded_dir := "/bd2/sourcedata/common-x.bundle";
       target_dir := "/bd2/targetdata/replace/spine_a/abc/__data";
       mod_name := ""; idle_or_cutscene_value := PyStr "spine_a";
       hash_id := Some "abc"; should_execute := true |} in
  ∃ root leaf, Some sample_root = Some root ∧ leaf ∈ leaves root ∧
    _is_directory_empty leaf.2 = false ∧
    Manager.replace_dir t = path_join "/bd2" (leaf_rel "ws/replace" leaf) ∧
    type t = node_name leaf.2 ∧
    (Py.upper_ascii_only (type t) = "IDLE" ∨
     Py.upper_ascii_only (type t) = "CUTSCENE") ∧
    Py.truthy_val (idle_or_cutscene_value t) = true ∧
    Cdn.get_resource_bundle_name_and_hash (Ok sample_shared_catalog)
      (idle_or_cutscene_value t) = Ok (Some (data_name t, hash_id t)) ∧
    downloaded_dir t = "/bd2/sourcedata" +:+ "/" +:+ data_name t ∧
    target_dir t = "/bd2/targetdata/replace" +:+ "/"
                     +:+ Py.format (idle_or_cutscene_value t)
                     +:+ "/" +:+ format_hash (hash_id t) +:+ "/__data".
Proof.
  intros t.
  refine (plan_task_shape "/bd2" "ws/replace" "/bd2/sourcedata"
            "/bd2/targetdata/replace" Scraper.default_id_prefixes
            (Ok sample_shared_html) (Ok sample_shared_catalog)
            (Some ["ws/replace/Celia/The Curse/IDLE"]) (Some sample_root) t _).
  apply list_elem_of_In. vm_compute. right; left; reflexivity.
Defined.

Lemma incremental_executes_exactly_witness :
  let t :=
    {| char := "Celia"; costume := "The Curse"; type := "CUTSCENE";
       replace_dir := "/bd2/ws/replace/Celia/The Curse/CUTSCENE";
       data_name := "common-x.bundle";
       downloaded_dir := "/bd2/sourcedata/common-x.bundle";
       target_dir := "/bd2/targetdata/replace/spine_a/abc/__data";
       mod_name := ""; idle_or_cutscene_value := PyStr "spine_a";
       hash_id := Some "abc"; should_execute := true |} in
  let plan :=
    _build_replace_mapping "/bd2" "ws/replace" "/bd2/sourcedata"
      "/bd2/targetdata/replace" Scraper.default_id_prefixes
      (Ok sample_shared_html) (Ok sample_shared_catalog)
      (Some ["ws\replace\Celia\The Curse\IDLE"]) (Some sample_root) in
  should_execute t = true ↔
  ∃ leaf t1, leaf ∈ leaves sample_root ∧
    Py.replace "\" "/" (leaf_rel "ws/replace" leaf)
      ∈ Py.replace "\" "/" <$> ["ws\replace\Celia\The Curse\IDLE"] ∧
    t1 ∈ plan ∧
    Manager.replace_dir t1 = path_join "/bd2" (leaf_rel "ws/replace" leaf) ∧
    target_dir t1 = target_dir t.
Proof.
  intros t plan.
  refine (incremental_executes_exactly "/bd2" "ws/replace" "/bd2/sourcedata"
            "/bd2/targetdata/replace" Scraper.default_id_prefixes
            (Ok sample_shared_html) (Ok sample_shared_catalog)
            "ws\replace\Celia\The Curse\IDLE" [] sample_root t _).
  apply list_elem_of_In. vm_compute. right; left; reflexivity.
Defined.

End PlanWitnesses.

Section GroupingFacts.
Import Manager Pipeline.

Implicit Types (t : ReplaceTask) (groups : list (string * list ReplaceTask)).

Lemma filter_none {A} (P : A → Prop) `{∀ x, Decision (P x)} (l : list A) :
  (∀ x, x ∈ l → ¬ P x) → filter P l = [].
Proof.
  induction l as [|x l IH]; [done|]. intros Hl.
  rewrite filter_cons, decide_False by (apply Hl; by left).
  apply IH. intros y Hy. apply Hl. by right.
Qed.

Lemma group_add_keys t groups :
  (group_add t groups).*1 =
  if bool_decide (target_dir t ∈ groups.*1) then groups.*1
  else groups.*1 ++ [target_dir t].
Proof.
  induction groups as [|[key g] groups IH]; [done|].
  cbn [group_add]. destruct (String.eqb_spec (target_dir t) key) as [->|Hne].
  - cbn [fmap list_fmap fst]. rewrite bool_decide_eq_true_2; [done|by left].
  - cbn [fmap list_fmap fst] in *. rewrite IH.
    case_bool_decide as Hin.
    + rewrite bool_decide_eq_true_2; [done|by right].
    + rewrite bool_decide_eq_false_2; [done|].
      intros [?|?]%elem_of_cons; done.
Qed.

Lemma group_add_elem t groups k g :
  NoDup groups.*1 →
  (k, g) ∈ group_add t groups ↔
  (k ≠ target_dir t ∧ (k, g) ∈ groups) ∨
  (k = target_dir t ∧
   ((∃ g0, (k, g0) ∈ groups ∧ g = g0 ++ [t]) ∨ (g = [t] ∧ k ∉ groups.*1))).
Proof.
  induction groups as [|[key g1] groups IH]; intros Hnd.
  - cbn [group_add]. rewrite list_elem_of_singleton.
    cbn [fmap list_fmap]. setoid_rewrite elem_of_nil.
    split.
    + intros [= -> ->]. right. split; [done|]. right. split; [done|]. tauto.
    + intros [[_ []] | [-> [(g0 & [] & _) | [-> _]]]]. done.
  - cbn [fmap list_fmap fst] in Hnd. apply NoDup_cons in Hnd as [Hkey Hnd].
    specialize (IH Hnd). cbn [group_add].
    assert (∀ g0, (key, g0) ∉ groups) as Hfresh.
    { intros g0 Hin. apply Hkey. apply list_elem_of_fmap. by exists (key, g0). }
    destruct (String.eqb_spec (target_dir t) key) as [<-|Hne].
    + cbn [fmap list_fmap fst]. setoid_rewrite elem_of_cons. split.
      * intros [[= -> ->] | Hin].
        -- right. split; [done|]. left. exists g1. split; [by left|done].
        -- left. split; [|by right]. intros ->. by apply (Hfresh g).
      * intros [[Hk [[= ? ?] | Hin]] | [-> [(g0 & [[= <-] | Hin] & ->) | [_ Hk]]]].
        -- done.
        -- by right.
        -- by left.
        -- by destruct (Hfresh g0).
        -- destruct Hk. by left.
    + cbn [fmap list_fmap fst]. setoid_rewrite elem_of_cons. rewrite IH. split.
      * intros [[= -> ->] | [[Hk Hin] | [-> [(g0 & Hin & ->) | [-> Hk]]]]].
        -- left. split; [done|by left].
        -- left. split; [done|by right].
        -- right. split; [done|]. left. exists g0. split; [by right|done].
        -- right. split; [done|]. right. split; [done|].
           intros [?|?]; done.
      * intros [[Hk [[= -> ->] | Hin]] | [-> [(g0 & [[= ? ?] | Hin] & ->) | [-> Hk]]]].
        -- by left.
        -- right. left. done.
        -- done.
        -- right. right. split; [done|]. left. by exists g0.
        -- right. right. split; [done|]. right. split; [done|].
           intros Hin. apply Hk. by right.
Qed.

(** What holds of the groups when the tasks [seen] have been added. *)
Definition grouped (seen : list ReplaceTask) groups : Prop :=
  NoDup groups.*1 ∧
  (∀ k, k ∈ groups.*1 ↔ k ∈ target_dir <$> seen) ∧
  ∀ k g, (k, g) ∈ groups → g = filter (λ t, target_dir t = k) seen.

Lemma grouped_add seen groups t :
  grouped seen groups → grouped (seen ++ [t]) (group_add t groups).
Proof.
  intros (Hnd & Hkeys & Hgroups). split_and!.
  - rewrite group_add_keys. case_bool_decide as Hin; [done|].
    apply NoDup_app. split_and!; [done| |apply NoDup_singleton].
    intros k Hk ->%list_elem_of_singleton. done.
  - intros k. rewrite group_add_keys, fmap_app, elem_of_app. cbn.
    rewrite list_elem_of_singleton, <- Hkeys.
    case_bool_decide as Hin.
    + split; [by left|]. by intros [?| ->].
    + by rewrite elem_of_app, list_elem_of_singleton.
  - intros k g. rewrite group_add_elem by done. rewrite filter_app.
    intros [[Hk Hin] | [-> [(g0 & Hin & ->) | [-> Hk]]]].
    + rewrite filter_cons, decide_False by done.
      rewrite filter_nil, app_nil_r. by apply Hgroups.
    + rewrite filter_cons, decide_True by done. rewrite filter_nil.
      f_equal. by apply Hgroups.
    + rewrite filter_cons, decide_True by done. rewrite filter_nil.
      rewrite filter_none; [done|].
      intros t0 Ht0 Heq. apply Hk, Hkeys. rewrite <- Heq.
      by apply list_elem_of_fmap_2.
Qed.

Lemma grouped_fold tasks seen groups :
  grouped seen groups →
  grouped (seen ++ tasks) (fold_left (λ groups t, group_add t groups) tasks groups).
Proof.
  revert seen groups. induction tasks as [|t tasks IH]; intros seen groups Hg.
  - by rewrite app_nil_r.
  - cbn [fold_left]. rewrite cons_middle, app_assoc. by apply IH, grouped_add.
Qed.

(** The groups of [_process_unity_resources]: one for every target, each
    holding all the tasks of its target in the order of the list. *)
Lemma tasks_by_target_spec tasks :
  NoDup (tasks_by_target tasks).*1 ∧
  (∀ k, k ∈ (tasks_by_target tasks).*1 ↔ k ∈ target_dir <$> tasks) ∧
  ∀ k g, (k, g) ∈ tasks_by_target tasks →
    g = filter (λ t, target_dir t = k) tasks.
Proof.
  apply (grouped_fold tasks [] []). split_and!; [constructor|done|].
  by intros ?? ?%elem_of_nil.
Qed.

End GroupingFacts.

Section PipelineFacts.
Import Manager Pipeline.

Variables (project_root replace_rel downloaded_root target_root : string).
Variable valid_prefixes : list string.
Variable html : result (list Scraper.Table).
Variable catalog : result Cdn.Catalog.
Variable download_data : string → bool.
Variable patch : string → list string → string → bool.

#[local] Abbreviation build :=
  (_build_replace_mapping project_root replace_rel downloaded_root target_root
     valid_prefixes html catalog).
#[local] Abbreviation download := (_download_resources download_data).
#[local] Abbreviation patch_groups :=
  (_process_unity_resources downloaded_root patch).
#[local] Abbreviation update :=
  (process_updates project_root replace_rel downloaded_root target_root
     valid_prefixes html catalog download_data patch).

Lemma elem_of_filter_bool {A} (f : A → bool) (l : list A) x :
  x ∈ List.filter f l ↔ x ∈ l ∧ f x = true.
Proof. by rewrite !list_elem_of_In, filter_In. Qed.

Lemma unique_fold (tasks : list ReplaceTask) (names : list string) :
  let result :=
    fold_left (λ names task,
                 if bool_decide (data_name task ∈ names) then names
                 else names ++ [data_name task]) tasks names in
  NoDup names →
  NoDup result ∧ ∀ x, x ∈ result ↔ x ∈ names ∨ x ∈ data_name <$> tasks.
Proof.
  revert names. induction tasks as [|t tasks IH]; intros names result Hnd.
  - split; [done|]. intros x. cbn. rewrite elem_of_nil. tauto.
  - unfold result. cbn [fold_left]. case_bool_decide as Hin.
    + destruct (IH names Hnd) as [Hnd' Hiff]. split; [done|].
      intros x. rewrite Hiff, fmap_cons, elem_of_cons.
      split; [tauto|]. intros [?|[->|?]]; tauto.
    + assert (NoDup (names ++ [data_name t])) as Hnd2.
      { apply NoDup_app. split_and!; [done| |apply NoDup_singleton].
        by intros x Hx ->%list_elem_of_singleton. }
      destruct (IH _ Hnd2) as [Hnd' Hiff]. split; [done|].
      intros x. rewrite Hiff, fmap_cons, elem_of_cons, elem_of_app,
        list_elem_of_singleton. tauto.
Qed.

(** The names to download: those of the executable tasks, each once. *)
Lemma unique_resources_spec (tasks : list ReplaceTask) :
  NoDup (unique_resources (List.filter should_execute tasks)) ∧
  ∀ x, x ∈ unique_resources (List.filter should_execute tasks) ↔
       ∃ t, t ∈ tasks ∧ should_execute t = true ∧ data_name t = x.
Proof.
  destruct (unique_fold (List.filter should_execute tasks) [] (NoDup_nil_2))
    as [Hnd Hiff].
  split; [done|]. intros x. unfold unique_resources. rewrite Hiff.
  rewrite elem_of_nil, list_elem_of_fmap. split.
  - intros [[]|(t & -> & [? ?]%elem_of_filter_bool)]. eauto.
  - intros (t & ? & ? & <-). right. exists t. split; [done|].
    by apply elem_of_filter_bool.
Qed.

Lemma download_all_spec names :
  let '(success, events) := download_all download_data names in
  ∃ requested,
    events = Downloaded <$> requested ∧ requested `prefix_of` names ∧
    (success = true → requested = names ∧ ∀ x, x ∈ names → download_data x = true) ∧
    (success = false → ∃ x, last requested = Some x ∧ download_data x = false).
Proof.
  induction names as [|x names IH]; cbn [download_all].
  - exists []. split_and!; [done|done| |done]. intros _. split; [done|].
    by intros ? ?%elem_of_nil.
  - destruct (download_data x) eqn:Hx.
    + destruct (download_all download_data names) as [success events].
      destruct IH as (requested & -> & Hpre & Hok & Hfail).
      exists (x :: requested). split_and!; [done|by apply prefix_cons| |].
      * intros [-> Hall]%Hok. split; [done|].
        intros y [->|?]%elem_of_cons; [done|by apply Hall].
      * intros (y & Hlast & Hy)%Hfail. exists y. split; [|done].
        destruct requested; [done|]. done.
    + exists [x]. split_and!; [done| |done|].
      * by apply prefix_cons, prefix_nil.
      * intros _. by exists x.
Qed.

Lemma download_resources_spec (tasks : list ReplaceTask) :
  let '(success, events) := download tasks in
  ∃ requested,
    events = Downloaded <$> requested ∧ NoDup requested ∧
    (∀ x, x ∈ requested →
       ∃ t, t ∈ tasks ∧ should_execute t = true ∧ data_name t = x) ∧
    (success = true →
       (∀ t, t ∈ tasks → should_execute t = true → data_name t ∈ requested) ∧
       ∀ x, x ∈ requested → download_data x = true) ∧
    (success = false → ∃ x, last requested = Some x ∧ download_data x = false).
Proof.
  unfold _download_resources.
  destruct (unique_resources_spec tasks) as [Hnd Hiff].
  pose proof (download_all_spec (unique_resources (List.filter should_execute tasks)))
    as Hspec.
  destruct (download_all _ _) as [success events].
  destruct Hspec as (requested & -> & Hpre & Hok & Hfail).
  exists requested. split_and!; [done| | |by intros [-> ?]%Hok; split;
    [intros t ??; apply Hiff; eauto|] |done].
  - destruct Hpre as [rest Hpre]. rewrite Hpre in Hnd.
    by apply NoDup_app in Hnd as [? _].
  - intros x Hx. apply Hiff. destruct Hpre as [rest Hpre]. rewrite Hpre.
    apply elem_of_app. by left.
Qed.

(** X19. [_download_resources] asks for the bundles of the executable tasks
    only, each at most once; it stops at the first download that fails,
    which is its last request, and on success every bundle of an executable
    task was requested and no request failed. *)
Theorem download_each_bundle_once (tasks : list ReplaceTask) :
  let '(success, events) := download tasks in
  ∃ requested,
    events = Downloaded <$> requested ∧ NoDup requested ∧
    (∀ x, x ∈ requested →
       ∃ t, t ∈ tasks ∧ should_execute t = true ∧ data_name t = x) ∧
    (success = true →
       (∀ t, t ∈ tasks → should_execute t = true → data_name t ∈ requested) ∧
       ∀ x, x ∈ requested → download_data x = true) ∧
    (success = false → ∃ x, last requested = Some x ∧ download_data x = false).
Proof. exact (download_resources_spec tasks). Qed.

Lemma patch_all_spec groups :
  let '(success, events) := patch_all downloaded_root patch groups in
  ∃ patched,
    events = (λ group, Patched (source_bundle_path downloaded_root group.2)
                         (replace_dir <$> group.2) group.1) <$> patched ∧
    patched `prefix_of` groups ∧
    (success = true → patched = groups ∧
       ∀ group, group ∈ groups →
         patch (source_bundle_path downloaded_root group.2)
           (replace_dir <$> group.2) group.1 = true) ∧
    (success = false → ∃ group, last patched = Some group ∧
         patch (source_bundle_path downloaded_root group.2)
           (replace_dir <$> group.2) group.1 = false).
Proof.
  induction groups as [|[key g] groups IH]; cbn [patch_all].
  - exists []. split_and!; [done|done| |done]. intros _. split; [done|].
    by intros ? ?%elem_of_nil.
  - destruct (patch _ _ _) eqn:Hx.
    + destruct (patch_all downloaded_root patch groups) as [success events].
      destruct IH as (patched & -> & Hpre & Hok & Hfail).
      exists ((key, g) :: patched). split_and!; [done|by apply prefix_cons| |].
      * intros [-> Hall]%Hok. split; [done|].
        intros y [->|?]%elem_of_cons; [done|by apply Hall].
      * intros (y & Hlast & Hy)%Hfail. exists y. split; [|done].
        destruct patched; [done|]. done.
    + exists [(key, g)]. split_and!; [done| |done|].
      * by apply prefix_cons, prefix_nil.
      * intros _. by exists (key, g).
Qed.

Lemma filter_filter_bool {A} (P : A → Prop) `{∀ x, Decision (P x)}
    (f : A → bool) (l : list A) :
  (∀ x, x ∈ l → P x → f x = true) →
  filter P (List.filter f l) = filter P l.
Proof.
  induction l as [|x l IH]; [done|]. intros Hl. cbn [List.filter].
  assert (filter P (List.filter f l) = filter P l) as IH'.
  { apply IH. intros y Hy. apply Hl. by right. }
  destruct (f x) eqn:Hx.
  - by rewrite !filter_cons, IH'.
  - rewrite IH', filter_cons, decide_False; [done|].
    intros HP. apply Hl in HP; [congruence|by left].
Qed.

(** In a plan two tasks with one target have one flag. *)
Lemma plan_flags_by_target specific_dirs replace_dir t1 t2 :
  t1 ∈ build specific_dirs replace_dir → t2 ∈ build specific_dirs replace_dir →
  target_dir t1 = target_dir t2 → should_execute t1 = should_execute t2.
Proof.
  unfold _build_replace_mapping. destruct replace_dir as [root|];
    [|by intros ?%elem_of_nil].
  destruct (incremental specific_dirs) eqn:Hinc.
  - intros (t0 & _ & Heq1 & Hiff1)%propagate_spec
           (t0' & _ & Heq2 & Hiff2)%propagate_spec Htarget.
    apply target_dir_set in Heq1 as (Ht1 & _).
    apply target_dir_set in Heq2 as (Ht2 & _).
    rewrite <- Ht1 in Hiff1. rewrite <- Ht2, <- Htarget in Hiff2.
    destruct (should_execute t1), (should_execute t2); try done.
    + symmetry. by apply Hiff2, Hiff1.
    + by apply Hiff1, Hiff2.
  - intros (? & _ & _ & _ & _ & _ & H1)%walk_tasks_origin
           (? & _ & _ & _ & _ & _ & H2)%walk_tasks_origin _.
    by rewrite H1, H2.
Qed.

Lemma patch_groups_spec specific_dirs replace_dir :
  let plan := build specific_dirs replace_dir in
  let group target := filter (λ t, target_dir t = target) plan in
  ∃ patched,
    (patch_groups plan).2 =
      (λ target, Patched (source_bundle_path downloaded_root (group target))
                   (Manager.replace_dir <$> group target) target) <$> patched ∧
    NoDup patched ∧
    (∀ target, target ∈ patched →
       group target ≠ [] ∧ ∀ t, t ∈ group target → should_execute t = true) ∧
    ((patch_groups plan).1 = true →
       ∀ t, t ∈ plan → should_execute t = true → target_dir t ∈ patched) ∧
    ((patch_groups plan).1 = false →
       ∃ target, last patched = Some target ∧
         patch (source_bundle_path downloaded_root (group target))
           (Manager.replace_dir <$> group target) target = false).
Proof.
  intros plan group. unfold _process_unity_resources.
  set (executable := List.filter should_execute plan).
  destruct (tasks_by_target_spec executable) as (Hnd & Hkeys & Hgroups).
  assert (∀ k g, (k, g) ∈ tasks_by_target executable →
            g = group k ∧ g ≠ [] ∧ ∀ t, t ∈ g → should_execute t = true)
    as Hgroup.
  { intros k g Hin. pose proof (Hgroups k g Hin) as Hg.
    assert (k ∈ target_dir <$> executable) as Hk.
    { apply Hkeys. apply list_elem_of_fmap. by exists (k, g). }
    apply list_elem_of_fmap in Hk as (t0 & -> & [Ht0 Hexec]%elem_of_filter_bool).
    assert (g = group (target_dir t0)) as Hgk.
    { rewrite Hg. apply filter_filter_bool. intros t Ht Htarget.
      rewrite <- Hexec. by eapply plan_flags_by_target. }
    split; [done|]. rewrite Hgk. split.
    - intros Hnil. assert (t0 ∈ group (target_dir t0)) as Hin0
        by by apply list_elem_of_filter.
      rewrite Hnil in Hin0. by apply elem_of_nil in Hin0.
    - intros t [Htarget Ht]%list_elem_of_filter.
      rewrite <- Hexec. by eapply plan_flags_by_target. }
  pose proof (patch_all_spec (tasks_by_target executable)) as Hspec.
  destruct (patch_all _ _ _) as [success events].
  destruct Hspec as (patched & -> & [rest Hpre] & Hok & Hfail).
  assert (∀ k g, (k, g) ∈ patched → (k, g) ∈ tasks_by_target executable) as Hsub.
  { intros k g Hin. rewrite Hpre. apply elem_of_app. by left. }
  exists (patched.*1). cbn [fst snd]. split_and!.
  - rewrite <- list_fmap_compose. apply list_fmap_ext.
    intros _ [k g] Hin%list_elem_of_lookup_2. cbn.
    by apply Hsub, Hgroup in Hin as (-> & _).
  - rewrite Hpre, fmap_app in Hnd. by apply NoDup_app in Hnd as [? _].
  - intros k ([k' g] & -> & Hin)%list_elem_of_fmap. cbn.
    apply Hsub, Hgroup in Hin as (-> & ? & ?). done.
  - intros [-> _]%Hok t Ht Hexec. apply Hkeys. apply list_elem_of_fmap_2.
    by apply elem_of_filter_bool.
  - intros ([k g] & Hlast & Hfalse)%Hfail. exists k. cbn in Hfalse.
    assert ((k, g) ∈ patched) as Hin.
    { apply last_Some in Hlast as [pre ->]. apply elem_of_app. right. by left. }
    apply Hsub, Hgroup in Hin as (<- & _). split; [|done].
    by rewrite fmap_last, Hlast.
Qed.

(** X20. Patching a plan: every target is patched at most once, and each
    patch gets the replacement directories of all the tasks of the plan with
    that target, in the order of the plan, with the bundle of the first of
    them as its source; these tasks are all executable. The patches stop at
    the first that fails; on success every executable task had its target
    patched. *)
Theorem patch_gets_every_co_target specific_dirs replace_dir :
  let plan := build specific_dirs replace_dir in
  let group target := filter (λ t, target_dir t = target) plan in
  ∃ patched,
    (patch_groups plan).2 =
      (λ target, Patched (source_bundle_path downloaded_root (group target))
                   (Manager.replace_dir <$> group target) target) <$> patched ∧
    NoDup patched ∧
    (∀ target, target ∈ patched →
       group target ≠ [] ∧ ∀ t, t ∈ group target → should_execute t = true) ∧
    ((patch_groups plan).1 = true →
       ∀ t, t ∈ plan → should_execute t = true → target_dir t ∈ patched) ∧
    ((patch_groups plan).1 = false →
       ∃ target, last patched = Some target ∧
         patch (source_bundle_path downloaded_root (group target))
           (Manager.replace_dir <$> group target) target = false).
Proof. exact (patch_groups_spec specific_dirs replace_dir). Qed.

Lemma summary_loop_counted tasks n : summary_loop tasks (S n) = false.
Proof.
  revert n. induction tasks as [|t tasks IH]; [done|]. intros n.
  cbn [summary_loop]. by destruct (should_execute t); cbn [Nat.eqb]; rewrite IH.
Qed.

(** The summary loop returns from the function exactly when the first task
    is not executable. *)
Lemma summary_loop_first tasks :
  summary_loop tasks 0 = from_option (λ t, negb (should_execute t)) false (head tasks).
Proof.
  destruct tasks as [|t tasks]; [done|]. cbn [summary_loop head from_option].
  destruct (should_execute t); cbn [Nat.eqb negb]; [|done].
  apply summary_loop_counted.
Qed.

(** X21. An incremental update is decided by the first task of the plan:
    when it is not executable, [process_updates] returns success without
    patching anything, whatever the other tasks are; when it is, the plan is
    patched without any download. *)
Theorem incremental_update_first_task summary replace_dir t rest :
  version_changed summary = false →
  replace_dirs_to_update summary ≠ [] →
  _build_replace_mapping project_root replace_rel downloaded_root target_root
    valid_prefixes html catalog (Some (replace_dirs_to_update summary)) replace_dir
    = t :: rest →
  process_updates project_root replace_rel downloaded_root target_root
    valid_prefixes html catalog download_data patch summary replace_dir =
    if should_execute t
    then (Returned (_process_unity_resources downloaded_root patch (t :: rest)).1
            (t :: rest),
          (_process_unity_resources downloaded_root patch (t :: rest)).2)
    else (Returned true (t :: rest), []).
Proof.
  intros Hv Hdirs Hplan. unfold process_updates, plan_and_run.
  rewrite Hv, bool_decide_eq_false_2 by done. cbn [negb]. rewrite Hplan.
  rewrite bool_decide_eq_false_2 by done.
  rewrite summary_loop_first. cbn [head from_option].
  destruct (should_execute t); cbn [negb]; [|done].
  unfold run_steps. cbn [negb].
  by destruct (_process_unity_resources _ _ _).
Qed.

(** X22. After a version change, a run that reports success has downloaded
    the bundle of every task of the full plan and patched every target with
    the task's replacement directory among those of the patch. *)
Theorem full_update_covers_plan summary replace_dir plan events :
  version_changed summary = true →
  process_updates project_root replace_rel downloaded_root target_root
    valid_prefixes html catalog download_data patch summary replace_dir
    = (Returned true plan, events) →
  plan = _build_replace_mapping project_root replace_rel downloaded_root
           target_root valid_prefixes html catalog None replace_dir ∧
  ∀ t, t ∈ plan →
    Downloaded (data_name t) ∈ events ∧
    ∃ source dirs, Patched source dirs (target_dir t) ∈ events ∧
      Manager.replace_dir t ∈ dirs.
Proof.
  intros Hv. unfold process_updates, plan_and_run. rewrite Hv.
  set (tasks := build None replace_dir).
  assert (∀ t, t ∈ tasks → should_execute t = true) as Hall.
  { intros t Ht. unfold tasks, _build_replace_mapping in Ht.
    destruct replace_dir as [root|]; [|by apply elem_of_nil in Ht].
    cbn [incremental] in Ht.
    apply walk_tasks_origin in Ht as (? & _ & _ & _ & _ & _ & H). by apply H. }
  case_bool_decide as Hnil.
  { intros [= <- <-]. split; [done|]. rewrite Hnil. by intros t ?%elem_of_nil. }
  rewrite summary_loop_first.
  destruct tasks as [|t0 tasks'] eqn:Htasks; [done|]. cbn [head from_option].
  rewrite (Hall t0) by by left. cbn [negb]. rewrite <- Htasks in *.
  unfold run_steps.
  pose proof (download_resources_spec tasks) as Hdown.
  destruct (_download_resources download_data tasks) as [downloaded events1].
  destruct Hdown as (requested & -> & _ & _ & Hdone & _).
  destruct downloaded; cbn [negb]; [|by intros [= ]].
  pose proof (patch_groups_spec None replace_dir) as Hpatch.
  cbv zeta in Hpatch. fold tasks in Hpatch. rewrite Htasks in Hpatch.
  rewrite <- Htasks in Hpatch.
  destruct (_process_unity_resources downloaded_root patch tasks)
    as [patched events2].
  cbn [fst snd] in Hpatch.
  destruct Hpatch as (targets & -> & _ & _ & Hcover & _).
  intros [= -> <- <-]. split; [done|]. intros t Ht.
  destruct (Hdone eq_refl) as [Hreq _]. split.
  - apply elem_of_app. left. apply list_elem_of_fmap_2. by apply Hreq, Hall.
  - set (group target := filter (λ t, target_dir t = target) tasks).
    exists (source_bundle_path downloaded_root (group (target_dir t))),
      (Manager.replace_dir <$> group (target_dir t)). split.
    + apply elem_of_app. right.
      apply (list_elem_of_fmap_2
               (λ target, Patched (source_bundle_path downloaded_root (group target))
                            (Manager.replace_dir <$> group target) target)).
      by apply Hcover, Hall.
    + apply list_elem_of_fmap_2. by apply list_elem_of_filter.
Qed.

End PipelineFacts.

Section PipelineWitnesses.
Import Manager Pipeline.

Lemma incremental_update_first_task_witness :
  let summary :=
    {| version_changed := false; old_version := Some 117; new_version := Some 117;
       replace_dirs_to_update := ["ws/replace/Celia/Summer/IDLE"];
       total_replace_dirs := 2 |} in
  let plan :=
    _build_replace_mapping "/bd2" "ws/replace" "/bd2/sourcedata"
      "/bd2/targetdata/replace" Scraper.default_id_prefixes
      (Ok sample_shared_html) (Ok sample_shared_catalog)
      (Some ["ws/replace/Celia/Summer/IDLE"]) (Some sample_two_root) in
  should_execute <$> plan = [false; true] ∧
  process_updates "/bd2" "ws/replace" "/bd2/sourcedata" "/bd2/targetdata/replace"
    Scraper.default_id_prefixes (Ok sample_shared_html) (Ok sample_shared_catalog)
    (λ _, true) (λ _ _ _, true) summary (Some sample_two_root)
  = (Returned true plan, []).
Proof.
  intros summary plan. split; [vm_compute; reflexivity|].
  eapply eq_trans.
  - eapply (incremental_update_first_task "/bd2" "ws/replace" "/bd2/sourcedata"
              "/bd2/targetdata/replace" Scraper.default_id_prefixes
              (Ok sample_shared_html) (Ok sample_shared_catalog)
              (λ _, true) (λ _ _ _, true) summary (Some sample_two_root)).
    + reflexivity.
    + discriminate.
    + vm_compute. reflexivity.
  - vm_compute. reflexivity.
Defined.

Lemma full_update_covers_plan_witness :
  let summary :=
    {| version_changed := true; old_version := Some 117; new_version := Some 118;
       replace_dirs_to_update := []; total_replace_dirs := 2 |} in
  let run :=
    process_updates "/bd2" "ws/replace" "/bd2/sourcedata" "/bd2/targetdata/replace"
      Scraper.default_id_prefixes (Ok sample_shared_html) (Ok sample_shared_catalog)
      (λ _, true) (λ _ _ _, true) summary (Some sample_two_root) in
  run.2 =
    [ Downloaded "common-x.bundle"; Downloaded "common-y.bundle";
      Patched "/bd2/sourcedata/common-x.bundle/__data"
        ["/bd2/ws/replace/Celia/The Curse/IDLE"]
        "/bd2/targetdata/replace/spine_a/abc/__data";
      Patched "/bd2/sourcedata/common-y.bundle/__data"
        ["/bd2/ws/replace/Celia/Summer/IDLE"]
        "/bd2/targetdata/replace/spine_b/def/__data" ] ∧
  ∃ plan, run.1 = Returned true plan ∧
    ∀ t, t ∈ plan →
      Downloaded (data_name t) ∈ run.2 ∧
      ∃ source dirs, Patched source dirs (target_dir t) ∈ run.2 ∧
        Manager.replace_dir t ∈ dirs.
Proof.
  intros summary run. split; [vm_compute; reflexivity|].
  eexists. split; [vm_compute; reflexivity|].
  refine (proj2 (full_update_covers_plan "/bd2" "ws/replace" "/bd2/sourcedata"
            "/bd2/targetdata/replace" Scraper.default_id_prefixes
            (Ok sample_shared_html) (Ok sample_shared_catalog)
            (λ _, true) (λ _ _ _, true) summary (Some sample_two_root) _ _ _ _)).
  - reflexivity.
  - vm_compute. reflexivity.
Defined.

End PipelineWitnesses.

Section RemovalFacts.
Import Manager Pipeline.

Variables (project_root replace_rel downloaded_root target_root : string).
Variable valid_prefixes : list string.
Variable html : result (list Scraper.Table).
Variable catalog : result Cdn.Catalog.
Variable download_data : string → bool.
Variable patch : string → list string → string → bool.

#[local] Abbreviation check :=
  (check_version_and_updates project_root replace_rel).
#[local] Abbreviation update :=
  (process_updates project_root replace_rel downloaded_root target_root
     valid_prefixes html catalog download_data patch).

(** X23. When the only change is that stored leaves are gone, the check
    reports that an update is needed, with no version change and no leaf
    listed; [process_updates] on that summary plans nothing and ends in the
    UnboundLocalError for [replace_tasks]. *)
Theorem removal_only_update_unbound author server_version replace_dir existing rel :
  default 0 (version author) = server_version →
  default 0 (updateTime author) = server_version →
  existing_map project_root (default [] (dirs author)) ∅ = Ok existing →
  (∀ leaf, leaf ∈ from_option leaves [] replace_dir →
     leaf_to_update project_root replace_rel existing leaf = false) →
  is_Some (existing !! rel) →
  rel ∉ leaf_rel replace_rel <$> from_option leaves [] replace_dir →
  let result := check author (Ok server_version) replace_dir in
  result.1 = true ∧ version_changed result.2 = false ∧
  replace_dirs_to_update result.2 = [] ∧
  update result.2 replace_dir = (Unbound, []).
Proof.
  intros Hv Hu Hmap Hsame [entry Hentry] Hgone result.
  assert (version_changed result.2 = false ∧ replace_dirs_to_update result.2 = [])
    as [Hchanged Hdirs].
  { unfold result, check_version_and_updates. rewrite Hv, Hu, Hmap, Z.eqb_refl.
    cbn [snd version_changed replace_dirs_to_update negb orb]. split; [done|].
    rewrite filter_none; [done|]. intros leaf Hleaf. by rewrite Hsame. }
  split_and!; [|done|done|].
  - unfold result, check_version_and_updates. rewrite Hmap. cbn [fst].
    apply orb_true_iff. right. apply existsb_exists. exists rel. split.
    + apply list_elem_of_In, list_elem_of_fmap. exists (rel, entry).
      split; [done|]. by apply elem_of_map_to_list.
    + by rewrite bool_decide_eq_false_2.
  - unfold process_updates. rewrite Hchanged, Hdirs. done.
Qed.

End RemovalFacts.

Section RemovalWitness.
Import Manager Pipeline.

Lemma removal_only_update_unbound_witness :
  let result :=
    check_version_and_updates "/bd2" "ws/replace" sample_author (Ok 117) None in
  result.1 = true ∧ version_changed result.2 = false ∧
  replace_dirs_to_update result.2 = [] ∧
  process_updates "/bd2" "ws/replace" "/bd2/sourcedata" "/bd2/targetdata/replace"
    Scraper.default_id_prefixes (Ok sample_shared_html) (Ok sample_shared_catalog)
    (λ _, true) (λ _ _ _, true) result.2 None = (Unbound, []).
Proof.
  refine (removal_only_update_unbound "/bd2" "ws/replace" "/bd2/sourcedata"
            "/bd2/targetdata/replace" Scraper.default_id_prefixes
            (Ok sample_shared_html) (Ok sample_shared_catalog)
            (λ _, true) (λ _ _ _, true) sample_author 117 None
            _ "ws/replace/Celia/The Curse/IDLE" _ _ _ _ _ _).
  - reflexivity.
  - reflexivity.
  - vm_compute. reflexivity.
  - by intros leaf ?%elem_of_nil.
  - vm_compute. eexists. reflexivity.
  - apply not_elem_of_nil.
Defined.

End RemovalWitness.

Section UnityFacts.
Import Manager Unity Single.

Lemma find_file_dir target_name name mtime children :
  _find_replacement_file target_name (Dir name mtime children) =
  match find (λ c, negb (is_dir c) && String.eqb (node_name c) target_name)
             children with
  | Some f => Some f
  | None =>
      foldr (λ c later,
               match _find_replacement_file target_name c with
               | Some f => Some f
               | None => later
               end) None children
  end.
Proof.
  cbn [_find_replacement_file]. destruct (find _ children); [done|].
  induction children as [|c l IH]; [done|]. cbn [foldr]. by rewrite IH.
Qed.

Lemma find_some_elem {A} (f : A → bool) (l : list A) x :
  find f l = Some x → x ∈ l ∧ f x = true.
Proof. intros [? ?]%find_some. split; [by apply list_elem_of_In|done]. Qed.

Lemma find_none_elem {A} (f : A → bool) (l : list A) x :
  find f l = None → x ∈ l → f x = false.
Proof. intros H Hx%list_elem_of_In. by eapply find_none. Qed.

Lemma rglob_elem name mtime children f :
  f ∈ rglob (Dir name mtime children) ↔
  ∃ c, c ∈ children ∧ (f = c ∨ f ∈ rglob c).
Proof.
  rewrite rglob_dir, list_elem_of_In, in_flat_map.
  split; intros (c & Hc & Hf); exists c.
  - apply list_elem_of_In in Hc. split; [done|].
    destruct Hf as [<-|Hf]; [by left|right; by apply list_elem_of_In].
  - split; [by apply list_elem_of_In|].
    destruct Hf as [->|Hf]; [by left|right; by apply list_elem_of_In].
Qed.

Lemma find_replacement_spec target_name replace_dir :
  (∀ f, _find_replacement_file target_name replace_dir = Some f →
     f ∈ rglob replace_dir ∧ is_dir f = false ∧ node_name f = target_name) ∧
  (_find_replacement_file target_name replace_dir = None →
     ∀ f, f ∈ rglob replace_dir → is_dir f = false → node_name f ≠ target_name).
Proof.
  induction replace_dir as [name mtime content | name mtime children IH | name]
    using fsnode_children_ind.
  - split; [done|]. by intros _ f ?%elem_of_nil.
  - rewrite find_file_dir.
    destruct (find _ children) as [f0|] eqn:Hfind.
    + split; [|done]. intros f [= <-].
      apply find_some_elem in Hfind as [Hin [Hfile Hname%String.eqb_eq]%andb_true_iff].
      split_and!; [|by apply negb_true_iff|done].
      apply rglob_elem. exists f0. split; [done|by left].
    + assert (∀ c, c ∈ children → is_dir c = false → node_name c ≠ target_name)
        as Hdirect.
      { intros c Hc Hfile Hname.
        pose proof (find_none_elem _ _ c Hfind Hc) as Hfalse. cbn in Hfalse.
        rewrite Hfile in Hfalse. cbn in Hfalse.
        by apply String.eqb_neq in Hfalse. }
      clear Hfind. induction children as [|c l IHl].
      { split; [done|]. intros _ f (c & []%elem_of_nil & _)%rglob_elem. }
      apply List.Forall_cons_iff in IH as [[Hsome Hnone] IH].
      destruct IHl as [IHsome IHnone]; [done| |].
      { intros c' Hc'. apply Hdirect. by right. }
      cbn [foldr]. destruct (_find_replacement_file target_name c) as [f0|] eqn:Hc.
      * split; [|done]. intros f [= <-]. destruct (Hsome f0 eq_refl) as (? & ? & ?).
        split_and!; [|done..]. apply rglob_elem. exists c. split; [by left|by right].
      * split.
        -- intros f Hf. destruct (IHsome f Hf) as ((c' & ? & ?)%rglob_elem & ? & ?).
           split_and!; [|done..]. apply rglob_elem. exists c'. split; [by right|done].
        -- intros Hl f (c' & [->|Hc']%elem_of_cons & Hf)%rglob_elem Hfile.
           ++ destruct Hf as [->|Hf]; [apply Hdirect; [by left|done]|].
              by apply Hnone.
           ++ apply IHnone; [done| |done]. apply rglob_elem. by exists c'.
  - split; [done|]. by intros _ f ?%elem_of_nil.
Qed.

(** X24. [_find_replacement_file] is sound and complete for the tree below
    the directory: what it returns is an entry below the directory that is
    not a directory and has the name asked for, and it returns nothing only
    when there is no such entry. *)
Theorem find_replacement_sound_complete target_name replace_dir :
  (∀ f, _find_replacement_file target_name replace_dir = Some f →
     f ∈ rglob replace_dir ∧ is_dir f = false ∧ node_name f = target_name) ∧
  (_find_replacement_file target_name replace_dir = None →
     ∀ f, f ∈ rglob replace_dir → is_dir f = false → node_name f ≠ target_name).
Proof. exact (find_replacement_spec target_name replace_dir). Qed.

Variable decodes_as_image : string → bool.

#[local] Abbreviation patch_bundle := (process_multiple_replace_dirs decodes_as_image).
#[local] Abbreviation lookup := (lookup_of decodes_as_image).

(** Content that the loop applies comes from a directory of the list that is
    not under the skip rule, out of the file found there. *)
Lemma replace_from_source apply name replace_dirs content :
  replace_from apply name replace_dirs = Some content →
  ∃ d f, d ∈ replace_dirs ∧ _should_skip_file name d = false ∧
    _find_replacement_file name d = Some f ∧ apply f = Some content.
Proof.
  induction replace_dirs as [|d rest IH]; [done|]. cbn [replace_from].
  assert (replace_from apply name rest = Some content →
          ∃ d0 f, d0 ∈ d :: rest ∧ _should_skip_file name d0 = false ∧
            _find_replacement_file name d0 = Some f ∧ apply f = Some content)
    as Hrest.
  { intros (d0 & f & ? & ? & ? & ?)%IH. exists d0, f. split; [by right|done]. }
  destruct (_should_skip_file name d) eqn:Hskip; [done|].
  destruct (_find_replacement_file name d) as [f|] eqn:Hfind; [|done].
  destruct (apply f) as [content'|] eqn:Happly; [|done].
  intros [= ->]. exists d, f. split; [by left|done].
Qed.

Lemma lookup_applies_file obj name apply f content :
  lookup obj = Some (name, apply) → apply f = Some content →
  file_content f = Some content.
Proof.
  unfold lookup_of. destruct (obj_type obj), (m_Name obj) as [object_name|];
    try done.
  - destruct (_get_file_type object_name); intros [= <- <-]; done.
  - intros [= <- <-]. unfold _replace_texture.
    destruct (file_content f) as [c|]; [|done].
    by destruct (decodes_as_image c); intros [= ->].
Qed.

(** X25. Patching keeps the objects of the bundle in number and order, each
    with its type and name. An object whose content changes is a named text
    asset or texture, and its new content is that of a file of its lookup
    name found in one of the replacement directories, one that is not under
    the skip rule for that name. *)
Theorem patch_preserves_structure objects replace_dirs out :
  patch_bundle (Ok objects) replace_dirs = Some out →
  length out = length objects ∧
  ∀ i obj obj', objects !! i = Some obj → out !! i = Some obj' →
    obj_type obj' = obj_type obj ∧ m_Name obj' = m_Name obj ∧
    (obj' = obj ∨
     ∃ name apply d f,
       lookup obj = Some (name, apply) ∧ d ∈ replace_dirs ∧
       _should_skip_file name d = false ∧
       _find_replacement_file name d = Some f ∧ node_name f = name ∧
       file_content f = Some (payload obj')).
Proof.
  unfold process_multiple_replace_dirs. intros [= <-].
  split; [by rewrite length_fmap|].
  intros i obj obj' Hobj. rewrite list_lookup_fmap, Hobj. intros [= <-].
  rewrite process_object_lookup.
  destruct (lookup obj) as [[name apply]|] eqn:Hlookup; [|by split_and!; [..|left]].
  destruct (replace_from apply name replace_dirs) as [content|] eqn:Hfrom;
    [|by split_and!; [..|left]].
  split_and!; [done..|]. right.
  apply replace_from_source in Hfrom as (d & f & Hd & Hskip & Hfind & Happly).
  exists name, apply, d, f. split_and!; try done.
  - by apply find_replacement_spec in Hfind as (_ & _ & ?).
  - by eapply lookup_applies_file.
Qed.

Lemma replace_absent old new s :
  Py.contains old s = false → Py.replace old new s = s.
Proof.
  unfold Py.replace. induction s as [|c s IH]; [done|].
  cbn [Py.contains Py.replace_go]. intros [Hprefix Hrest]%orb_false_iff.
  by rewrite Hprefix, IH.
Qed.

(** X26. The skip rule concerns atlas and texture names only: a name that
    contains neither ".atlas" nor ".png" is never skipped, whatever the
    directory holds. *)
Theorem skeleton_never_skipped data_name replace_root :
  Py.contains ".atlas" data_name = false →
  Py.contains ".png" data_name = false →
  _should_skip_file data_name replace_root = false.
Proof.
  intros Hatlas Hpng. unfold _should_skip_file, json_name, skel_name.
  rewrite !(replace_absent ".atlas") by done.
  rewrite !(replace_absent ".png") by done.
  by destruct (exists_in replace_root data_name).
Qed.

Lemma single_is_process_object replace_dir obj :
  (single_object decodes_as_image replace_dir obj).1
    = process_object decodes_as_image [replace_dir] obj ∧
  ((single_object decodes_as_image replace_dir obj).2 = false →
   (single_object decodes_as_image replace_dir obj).1 = obj).
Proof.
  unfold single_object, process_object, single_replace.
  destruct (obj_type obj), (m_Name obj) as [object_name|]; try done.
  - destruct (_get_file_type object_name); try done; cbn [replace_from].
    all: destruct (_should_skip_file object_name replace_dir); [done|].
    all: destruct (_find_replacement_file object_name replace_dir) as [f|]; [|done].
    all: by destruct (_replace_text_asset f).
  - cbn [replace_from].
    destruct (_should_skip_file _ replace_dir); [done|].
    destruct (_find_replacement_file _ replace_dir) as [f|]; [|done].
    by destruct (_replace_texture decodes_as_image f).
Qed.

(** X27. The single-directory entry point agrees with the multi-directory
    one on a list of one directory: when it writes, it writes the same
    bundle; it writes nothing exactly when no asset was replaced, where the
    multi-directory one writes the bundle as loaded. *)
Theorem single_agrees_with_multiple objects replace_dir :
  ∃ written,
    process_single_bundle decodes_as_image (Ok objects) replace_dir
      = (true, written) ∧
    patch_bundle (Ok objects) [replace_dir] = Some (default objects written) ∧
    (written = None ↔
     ∀ obj, obj ∈ objects →
       (single_object decodes_as_image replace_dir obj).2 = false).
Proof.
  unfold process_single_bundle, process_multiple_replace_dirs.
  set (results := single_object decodes_as_image replace_dir <$> objects).
  assert (results.*1 = process_object decodes_as_image [replace_dir] <$> objects)
    as Hsame.
  { unfold results. rewrite <- list_fmap_compose. apply list_fmap_ext.
    intros _ obj _. apply single_is_process_object. }
  assert (List.filter snd results = [] ↔
          ∀ obj, obj ∈ objects →
            (single_object decodes_as_image replace_dir obj).2 = false) as Hnone.
  { unfold results. clear. induction objects as [|obj l IH]; cbn [fmap list_fmap List.filter].
    - split; [by intros _ ? ?%elem_of_nil|done].
    - destruct (single_object decodes_as_image replace_dir obj).2 eqn:Hflag.
      + split; [done|]. intros H. rewrite (H obj) in Hflag by by left. done.
      + fold (fmap (M:=list) (single_object decodes_as_image replace_dir) l).
        rewrite IH. split.
        * intros H obj' [->|?]%elem_of_cons; [done|by apply H].
        * intros H obj' ?. apply H. by right. }
  eexists. split; [done|].
  destruct (List.filter snd results) as [|r rs] eqn:Hfilter; cbn [length Nat.ltb Nat.leb].
  - cbn [default]. split; [|split; [intros _; by apply Hnone|done]].
    f_equal. transitivity (id <$> objects); [|apply list_fmap_id].
    apply list_fmap_ext. intros _ obj Hobj%list_elem_of_lookup_2.
    destruct (single_is_process_object replace_dir obj) as [<- Hkept].
    apply Hkept. destruct Hnone as [Hnone _]. by apply Hnone.
  - cbn [default]. split; [by rewrite Hsame|]. split; [done|].
    intros H. apply Hnone in H. done.
Qed.

End UnityFacts.

Section UnityWitnesses.
Import Manager Unity Single.

Lemma patch_preserves_structure_witness :
  ∃ out, process_multiple_replace_dirs sample_decoder (Ok sample_bundle)
           [sample_incomplete_dir; sample_complete_dir] = Some out ∧
    length out = length sample_bundle ∧
    ∀ i obj obj', sample_bundle !! i = Some obj → out !! i = Some obj' →
      obj_type obj' = obj_type obj ∧ m_Name obj' = m_Name obj ∧
      (obj' = obj ∨
       ∃ name apply d f,
         lookup_of sample_decoder obj = Some (name, apply) ∧
         d ∈ [sample_incomplete_dir; sample_complete_dir] ∧
         _should_skip_file name d = false ∧
         _find_replacement_file name d = Some f ∧ node_name f = name ∧
         file_content f = Some (payload obj')).
Proof.
  eexists. split; [reflexivity|].
  exact (patch_preserves_structure sample_decoder sample_bundle
           [sample_incomplete_dir; sample_complete_dir] _ eq_refl).
Defined.

Lemma skeleton_never_skipped_witness :
  _should_skip_file "char000101.atlas" sample_incomplete_dir = true ∧
  _should_skip_file "char000101.skel" sample_incomplete_dir = false.
Proof.
  split; [vm_compute; reflexivity|].
  apply skeleton_never_skipped; vm_compute; reflexivity.
Defined.

End UnityWitnesses.
